(** * Diablo backend: classification, ranking and quiz normalisation

    A shallow embedding of the text-processing core of the Diablo backend
    (core/function_analyzer.py, modules/scout.py, modules/learning.py,
    server.py) and the properties its specification states about it.

    The file has three parts: the model of the sources, module by module;
    the vocabulary in which the properties are stated; the properties.

    Python values are modelled as follows.
    - [str] is [string], read as ASCII text: the character classes of the
      [re] module ([\s], [\w], [\d]) and case folding are the ASCII ones,
      and a character above 127 belongs to no class.
    - [int] is [Z]; [float] is the kernel's binary64 [float].
    - a call that can raise returns an [outcome]: a value or an exception.
    - the [re] module is a backtracking matcher over regular expression
      trees (module [Re]); every pattern of the sources is the tree written
      under its source text.
    - [list.sort] is a stable sort ([Server.sort_desc]). *)

From Stdlib Require Import List String Ascii ZArith NArith Bool Lia Arith.
From Stdlib Require Import Floats Uint63 Permutation Sorted.
Import ListNotations.

Set Warnings "-inexact-float".

Local Open Scope list_scope.
Local Open Scope string_scope.

(* ------------------------------------------------------------------ *)
(** ** Python string primitives *)
(* ------------------------------------------------------------------ *)

Module PyStr.

Definition code (c : ascii) : nat := nat_of_ascii c.

Definition in_range (lo hi : nat) (c : ascii) : bool :=
  (lo <=? code c)%nat && (code c <=? hi)%nat.

Definition is_upper (c : ascii) : bool := in_range 65 90 c.
Definition is_lower (c : ascii) : bool := in_range 97 122 c.
Definition is_digit (c : ascii) : bool := in_range 48 57 c.

(** [str.isspace] on ASCII: TAB, LF, VT, FF, CR, FS, GS, RS, US, space. *)
Definition is_space (c : ascii) : bool :=
  in_range 9 13 c || in_range 28 31 c || (code c =? 32)%nat.

(** [\w]: letters, digits and the underscore. *)
Definition is_word (c : ascii) : bool :=
  is_upper c || is_lower c || is_digit c || (code c =? 95)%nat.

Definition lower_char (c : ascii) : ascii :=
  if is_upper c then ascii_of_nat (code c + 32) else c.

Definition upper_char (c : ascii) : ascii :=
  if is_lower c then ascii_of_nat (code c - 32) else c.

Fixpoint map_str (f : ascii -> ascii) (s : string) : string :=
  match s with
  | EmptyString => EmptyString
  | String c s' => String (f c) (map_str f s')
  end.

(** [s.lower()] and [s.upper()]. *)
Definition lower (s : string) : string := map_str lower_char s.
Definition upper (s : string) : string := map_str upper_char s.

(** [s[:n]]. *)
Fixpoint take (n : nat) (s : string) : string :=
  match n, s with
  | S n', String c s' => String c (take n' s')
  | _, _ => EmptyString
  end.

(** [s.startswith(p)]. *)
Fixpoint starts_with (p s : string) : bool :=
  match p, s with
  | EmptyString, _ => true
  | String a p', String b s' => Ascii.eqb a b && starts_with p' s'
  | String _ _, EmptyString => false
  end.

(** [p in s]. *)
Fixpoint contains (p s : string) : bool :=
  starts_with p s ||
  match s with
  | EmptyString => false
  | String _ s' => contains p s'
  end.

Fixpoint lstrip (s : string) : string :=
  match s with
  | String c s' => if is_space c then lstrip s' else s
  | EmptyString => EmptyString
  end.

Fixpoint rstrip (s : string) : string :=
  match s with
  | EmptyString => EmptyString
  | String c s' =>
      match rstrip s' with
      | EmptyString => if is_space c then EmptyString else String c EmptyString
      | t => String c t
      end
  end.

(** [s.strip()]. *)
Definition strip (s : string) : string := rstrip (lstrip s).

(** [sep.join(parts)]. *)
Fixpoint join (sep : string) (parts : list string) : string :=
  match parts with
  | [] => EmptyString
  | [p] => p
  | p :: rest => p ++ sep ++ join sep rest
  end.

Definition concat_all (parts : list string) : string :=
  fold_right String.append EmptyString parts.

(** Truthiness of a string: non-empty. *)
Definition truthy (s : string) : bool :=
  match s with EmptyString => false | _ => true end.

(** [a or b] on strings. *)
Definition or_else (a b : string) : string := if truthy a then a else b.

(** [x in xs] for a list of strings. *)
Definition mem (x : string) (xs : list string) : bool :=
  existsb (String.eqb x) xs.

Definition chr (n : nat) : string := String (ascii_of_nat n) EmptyString.

(** The double quote and the apostrophe, which no literal below spells. *)
Definition DQ : string := chr 34.
Definition SQ : string := chr 39.

(** [html.escape(s)] with its default [quote=True]. *)
Definition escape_char (c : ascii) : string :=
  let n := code c in
  if (n =? 38)%nat then "&amp;"
  else if (n =? 60)%nat then "&lt;"
  else if (n =? 62)%nat then "&gt;"
  else if (n =? 34)%nat then "&quot;"
  else if (n =? 39)%nat then "&#x27;"
  else String c EmptyString.

Fixpoint escape (s : string) : string :=
  match s with
  | EmptyString => EmptyString
  | String c s' => escape_char c ++ escape s'
  end.

(** [str(n)] for a natural number. *)
Fixpoint digits_of (fuel n : nat) (acc : string) : string :=
  match fuel with
  | O => acc
  | S fuel' =>
      let acc' := String (ascii_of_nat (48 + n mod 10)) acc in
      if (n <? 10)%nat then acc' else digits_of fuel' (n / 10) acc'
  end.

Definition str_of_nat (n : nat) : string := digits_of (S n) n EmptyString.

End PyStr.

(* ------------------------------------------------------------------ *)
(** ** Exceptions *)
(* ------------------------------------------------------------------ *)

(** The result of running a piece of Python: a value, or an exception
    (an instance of [Exception]) carrying its message. *)
Inductive outcome (A : Type) : Type :=
| Returned (a : A)
| Raised (msg : string).

Arguments Returned {A} a.
Arguments Raised {A} msg.

Definition bind {A B : Type} (m : outcome A) (k : A -> outcome B) : outcome B :=
  match m with
  | Returned a => k a
  | Raised e => Raised e
  end.

(** [try: body  except Exception: handler]. *)
Definition try_except {A : Type} (body : outcome A) (handler : string -> outcome A)
  : outcome A :=
  match body with
  | Returned a => Returned a
  | Raised e => handler e
  end.

Declare Scope py_scope.
Delimit Scope py_scope with py.
Notation "x <- m ;; k" := (bind m (fun x => k))
  (at level 61, m at next level, right associativity) : py_scope.

(* ------------------------------------------------------------------ *)
(** ** The [re] module *)
(* ------------------------------------------------------------------ *)

Module Re.

Import PyStr.

(** Regular expression trees.  [Chr p] is one character satisfying [p]
    (a literal, a class, a dot); [Star]/[LazyStar] are [r*] and [r*?];
    [Group i r] is the i-th capturing group; [Ahead r] is [(?=r)];
    [Bol] is [^] under MULTILINE, [Eos] is [$] without it; [WordB] is [\b]. *)
Inductive regex : Type :=
| Eps
| Chr (p : ascii -> bool)
| Seq (a b : regex)
| Alt (a b : regex)
| Star (r : regex)
| LazyStar (r : regex)
| Group (i : nat) (r : regex)
| Ahead (r : regex)
| Bol
| Eos
| WordB.

(** A position in the subject: the offset, the character before it, the
    text after it, and the groups captured so far (latest first). *)
Record mstate : Type := MState {
  pos : N;
  prev : option ascii;
  rest : string;
  groups : list (nat * string)
}.

Definition advance (c : ascii) (s' : string) (st : mstate) : mstate :=
  MState (pos st + 1) (Some c) s' (groups st).

Definition capture (i : nat) (from to : mstate) : mstate :=
  MState (pos to) (prev to) (rest to)
         ((i, take (N.to_nat (pos to - pos from)) (rest from)) :: groups to).

Definition or_opt {A : Type} (a b : option A) : option A :=
  match a with Some _ => a | None => b end.

Definition word_before (st : mstate) : bool :=
  match prev st with Some c => is_word c | None => false end.

Definition word_after (st : mstate) : bool :=
  match rest st with String c _ => is_word c | EmptyString => false end.

Definition at_line_start (st : mstate) : bool :=
  match prev st with Some c => (code c =? 10)%nat | None => true end.

(** [$]: the end of the subject, or just before a final line feed. *)
Definition at_end (st : mstate) : bool :=
  match rest st with
  | EmptyString => true
  | String c EmptyString => (code c =? 10)%nat
  | _ => false
  end.

(** The backtracking matcher, in continuation-passing style: [k] is what
    remains to be matched after [r].  Alternatives are tried left to right
    and a greedy star tries one more iteration before stopping, as [re]
    does; an iteration of a star that consumes nothing is abandoned. *)
Fixpoint rmatch (r : regex) (st : mstate) (k : mstate -> option mstate)
  {struct r} : option mstate :=
  match r with
  | Eps => k st
  | Chr p =>
      match rest st with
      | String c s' => if p c then k (advance c s' st) else None
      | EmptyString => None
      end
  | Seq a b => rmatch a st (fun st1 => rmatch b st1 k)
  | Alt a b => or_opt (rmatch a st k) (rmatch b st k)
  | Star r1 =>
      (fix loop (fuel : nat) (st0 : mstate) {struct fuel} : option mstate :=
         match fuel with
         | O => k st0
         | S fuel' =>
             or_opt
               (rmatch r1 st0 (fun st1 =>
                  if (pos st0 <? pos st1)%N then loop fuel' st1 else None))
               (k st0)
         end) (String.length (rest st)) st
  | LazyStar r1 =>
      (fix loop (fuel : nat) (st0 : mstate) {struct fuel} : option mstate :=
         match fuel with
         | O => k st0
         | S fuel' =>
             or_opt
               (k st0)
               (rmatch r1 st0 (fun st1 =>
                  if (pos st0 <? pos st1)%N then loop fuel' st1 else None))
         end) (String.length (rest st)) st
  | Group i r1 => rmatch r1 st (fun st1 => k (capture i st st1))
  | Ahead r1 =>
      match rmatch r1 st Some with
      | Some _ => k st
      | None => None
      end
  | Bol => if at_line_start st then k st else None
  | Eos => if at_end st then k st else None
  | WordB => if xorb (word_before st) (word_after st) then k st else None
  end.

(** A successful match: the text skipped before it and the state at its end. *)
Record found : Type := Found {
  skipped : string;
  final : mstate
}.

(** Scan for the leftmost position where [r] matches. *)
Fixpoint search_from (r : regex) (p : N) (pv : option ascii) (s : string)
  : option found :=
  match rmatch r (MState p pv s []) Some with
  | Some st => Some (Found EmptyString st)
  | None =>
      match s with
      | EmptyString => None
      | String c s' =>
          match search_from r (p + 1) (Some c) s' with
          | Some (Found g st) => Some (Found (String c g) st)
          | None => None
          end
      end
  end.

(** [re.search(r, s)]. *)
Definition search (r : regex) (s : string) : option mstate :=
  option_map final (search_from r 0 None s).

Definition test (r : regex) (s : string) : bool :=
  match search r s with Some _ => true | None => false end.

(** [m.group(i)]. *)
Fixpoint lookup_group (i : nat) (gs : list (nat * string)) : string :=
  match gs with
  | [] => EmptyString
  | (j, t) :: gs' => if (i =? j)%nat then t else lookup_group i gs'
  end.

Definition group (st : mstate) (i : nat) : string := lookup_group i (groups st).

(** [r.finditer(s)]: the successive non-overlapping matches.  After an
    empty match the scan steps over one character (the patterns of this
    program all consume at least one). *)
Fixpoint finditer_from (fuel : nat) (r : regex) (p : N) (pv : option ascii)
  (s : string) : list mstate :=
  match fuel with
  | O => []
  | S fuel' =>
      match search_from r p pv s with
      | None => []
      | Some (Found g st) =>
          st ::
          (if (p + N.of_nat (String.length g) <? pos st)%N
           then finditer_from fuel' r (pos st) (prev st) (rest st)
           else match rest st with
                | EmptyString => []
                | String c s' => finditer_from fuel' r (pos st + 1) (Some c) s'
                end)
      end
  end.

Definition finditer (r : regex) (s : string) : list mstate :=
  finditer_from (S (String.length s)) r 0 None s.

(** [re.sub(r, repl, s)] with a replacement computed from each match. *)
Fixpoint sub_from (fuel : nat) (r : regex) (repl : mstate -> string)
  (p : N) (pv : option ascii) (s : string) : string :=
  match fuel with
  | O => s
  | S fuel' =>
      match search_from r p pv s with
      | None => s
      | Some (Found g st) =>
          g ++ repl st ++
          (if (p + N.of_nat (String.length g) <? pos st)%N
           then sub_from fuel' r repl (pos st) (prev st) (rest st)
           else match rest st with
                | EmptyString => EmptyString
                | String c s' =>
                    String c (sub_from fuel' r repl (pos st + 1) (Some c) s')
                end)
      end
  end.

Definition sub (r : regex) (repl : mstate -> string) (s : string) : string :=
  sub_from (S (String.length s)) r repl 0 None s.

(** *** Pattern combinators *)

Definition plus (r : regex) : regex := Seq r (Star r).
Definition opt (r : regex) : regex := Alt r Eps.

Fixpoint seqs (rs : list regex) : regex :=
  match rs with
  | [] => Eps
  | [r] => r
  | r :: rs' => Seq r (seqs rs')
  end.

Fixpoint alts (rs : list regex) : regex :=
  match rs with
  | [] => Chr (fun _ => false)
  | [r] => r
  | r :: rs' => Alt r (alts rs')
  end.

(** A literal, matched exactly. *)
Fixpoint lit (s : string) : regex :=
  match s with
  | EmptyString => Eps
  | String c EmptyString => Chr (Ascii.eqb c)
  | String c s' => Seq (Chr (Ascii.eqb c)) (lit s')
  end.

Definition eqb_nocase (c d : ascii) : bool :=
  Ascii.eqb (lower_char c) (lower_char d).

(** A literal under IGNORECASE. *)
Fixpoint ilit (s : string) : regex :=
  match s with
  | EmptyString => Eps
  | String c EmptyString => Chr (eqb_nocase c)
  | String c s' => Seq (Chr (eqb_nocase c)) (ilit s')
  end.

Definition ws : regex := Chr is_space.          (* \s *)
Definition wd : regex := Chr is_word.           (* \w *)
Definition dg : regex := Chr is_digit.          (* \d *)
Definition dot : regex := Chr (fun c => negb (code c =? 10)%nat).  (* . *)
Definition dot_all : regex := Chr (fun _ => true).                 (* . under DOTALL *)
Definition ch (n : nat) : regex := Chr (fun c => (code c =? n)%nat).
Definition not_ch (n : nat) : regex := Chr (fun c => negb (code c =? n)%nat).

End Re.

(* ------------------------------------------------------------------ *)
(** ** Built-in conversions *)
(* ------------------------------------------------------------------ *)

Module Builtins.

Import PyStr.

(** CPython's default limit on the number of digits [int(str)] accepts
    (sys.int_info.default_max_str_digits); a longer decimal literal makes
    [int] raise ValueError. *)
Definition int_max_str_digits : nat := 4300.

(** The digits of a decimal literal after its sign: a digit, then digits
    each optionally preceded by one underscore.  Returns the digits read,
    most significant first, or [None] when the text is not a literal. *)
Fixpoint literal_digits (need_digit : bool) (s : string) : option (list nat) :=
  match s with
  | EmptyString => if need_digit then None else Some []
  | String c s' =>
      if is_digit c then
        option_map (cons (code c - 48)%nat) (literal_digits false s')
      else if (code c =? 95)%nat && negb need_digit then literal_digits true s'
      else None
  end.

Definition value_of (ds : list nat) : Z :=
  fold_left (fun acc d => (10 * acc + Z.of_nat d)%Z) ds 0%Z.

Definition unsigned_int (s : string) : outcome Z :=
  match literal_digits true s with
  | None => Raised "ValueError: invalid literal for int() with base 10"
  | Some ds =>
      if (int_max_str_digits <? List.length ds)%nat
      then Raised "ValueError: Exceeds the limit (4300 digits) for integer string conversion"
      else Returned (value_of ds)
  end.

(** [int(s)] for a string: surrounding whitespace is ignored, one sign is
    allowed. *)
Definition py_int (s : string) : outcome Z :=
  match strip s with
  | String c s' =>
      if (code c =? 45)%nat then
        match unsigned_int s' with
        | Returned z => Returned (- z)%Z
        | Raised e => Raised e
        end
      else if (code c =? 43)%nat then unsigned_int s'
      else unsigned_int (String c s')
  | EmptyString => Raised "ValueError: invalid literal for int() with base 10"
  end.

(** [ord(c) - ord('A')] for the first character of [s]. *)
Definition letter_index (s : string) : Z :=
  match s with
  | String c _ => (Z.of_nat (code c) - 65)%Z
  | EmptyString => (- 65)%Z
  end.

(** Python's two-argument [min] and [max] on integers. *)
Definition py_min (a b : Z) : Z := if (b <? a)%Z then b else a.
Definition py_max (a b : Z) : Z := if (a <? b)%Z then b else a.

(** [min] on floats: the first argument unless the second is smaller. *)
Definition fmin (a b : float) : float := if PrimFloat.ltb b a then b else a.

(** [float(n)] for a length. *)
Definition float_of_nat (n : nat) : float :=
  PrimFloat.of_uint63 (Uint63.of_Z (Z.of_nat n)).

End Builtins.

(* ------------------------------------------------------------------ *)
(** ** modules/learning.py *)
(* ------------------------------------------------------------------ *)

Module Learning.

Import PyStr Re Builtins.

Record QuizQuestion : Type := mkQuizQuestion {
  question : string;
  code_snippet : string;
  options : list string;
  correct_index : Z;
  explanation : string
}.

(** (?:answer|correct)\s*[:\-]\s*([A-D])   with IGNORECASE *)
Definition letter_re : regex :=
  seqs [ Alt (ilit "answer") (ilit "correct");
         Star ws;
         Chr (fun c => (code c =? 58)%nat || (code c =? 45)%nat);
         Star ws;
         Group 1 (Chr (fun c => in_range 65 68 c || in_range 97 100 c)) ].

Definition _normalize_correct_index
  (raw_correct options_count : Z) (block_html explanation_html : string) : Z :=
  if (options_count <=? 0)%Z then 0%Z
  else
    let fallback :=
      (* Common case from LLMs: 1-based index. *)
      if (1 <=? raw_correct)%Z && (raw_correct <=? options_count)%Z
      then (raw_correct - 1)%Z
      (* Already zero-based. *)
      else if (0 <=? raw_correct)%Z && (raw_correct <? options_count)%Z
      then raw_correct
      (* Last-resort clamp. *)
      else py_max 0 (py_min raw_correct (options_count - 1)) in
    (* Prefer explicit letter hints if the model provides them. *)
    match search letter_re (block_html ++ " " ++ explanation_html) with
    | Some letter_m =>
        let idx := letter_index (upper (group letter_m 1)) in
        if (0 <=? idx)%Z && (idx <? options_count)%Z then idx else fallback
    | None => fallback
    end.

(** <div\s+class=DQ quiz-question DQ   (the opening of a question block) *)
Definition question_open : regex :=
  seqs [ lit "<div"; plus ws; lit "class="; ch 34; lit "quiz-question"; ch 34 ].

(** <div\s+class=DQ quiz-question DQ [^>]* data-correct=DQ (\d+) DQ [^>]*>
    (.*?) </div> \s* (?= <div\s+class=DQ quiz-question DQ | $ )   with DOTALL *)
Definition q_pattern : regex :=
  seqs [ question_open;
         Star (not_ch 62);
         lit "data-correct="; ch 34; Group 1 (plus dg); ch 34;
         Star (not_ch 62); ch 62;
         Group 2 (LazyStar dot_all);
         lit "</div>"; Star ws;
         Ahead (Alt question_open Eos) ].

(** <(?:p|h4)[^>]*>(.*?)</(?:p|h4)>   with DOTALL *)
Definition q_text_re : regex :=
  seqs [ ch 60; Alt (lit "p") (lit "h4"); Star (not_ch 62); ch 62;
         Group 1 (LazyStar dot_all);
         lit "</"; Alt (lit "p") (lit "h4"); ch 62 ].

(** <pre><code[^>]*>(.*?)</code></pre>   with DOTALL *)
Definition code_re : regex :=
  seqs [ lit "<pre><code"; Star (not_ch 62); ch 62;
         Group 1 (LazyStar dot_all);
         lit "</code></pre>" ].

(** <div\s+class=DQ NAME DQ [^>]*>(.*?)</div>   with DOTALL *)
Definition div_class_re (name : string) : regex :=
  seqs [ lit "<div"; plus ws; lit "class="; ch 34; lit name; ch 34;
         Star (not_ch 62); ch 62;
         Group 1 (LazyStar dot_all);
         lit "</div>" ].

Definition opt_pattern : regex := div_class_re "quiz-option".
Definition exp_re : regex := div_class_re "quiz-explanation".

(** The body of the loop of [_parse_quiz] for one matched block: the
    question it appends, if any. *)
Definition parse_block (m : mstate) : outcome (option QuizQuestion) :=
  (raw_correct <- py_int (group m 1) ;;
   let block := group m 2 in
   (* Extract question text (first <p> or <h4>) *)
   let question :=
     match search q_text_re block with
     | Some q_text_m => strip (group q_text_m 1)
     | None => "Question"
     end in
   (* Extract code snippet *)
   let code :=
     match search code_re block with
     | Some code_m => strip (group code_m 1)
     | None => ""
     end in
   (* Extract options *)
   let options := map (fun m => strip (group m 1)) (finditer opt_pattern block) in
   match options with
   | [] => Returned None
   | _ :: _ =>
       (* Extract explanation *)
       let explanation :=
         match search exp_re block with
         | Some exp_m => strip (group exp_m 1)
         | None => ""
         end in
       let correct_idx :=
         _normalize_correct_index raw_correct (Z.of_nat (List.length options))
                                  block explanation in
       Returned (Some (mkQuizQuestion question code options correct_idx explanation))
   end)%py.

Fixpoint parse_blocks (ms : list mstate) (questions : list QuizQuestion)
  : outcome (list QuizQuestion) :=
  match ms with
  | [] => Returned questions
  | m :: ms' =>
      (q <- parse_block m ;;
       parse_blocks ms'
         (match q with Some q => (questions ++ [q])%list | None => questions end))%py
  end.

Definition _parse_quiz (html : string) : outcome (list QuizQuestion) :=
  parse_blocks (finditer q_pattern html) [].

End Learning.

(* ------------------------------------------------------------------ *)
(** ** core/function_analyzer.py *)
(* ------------------------------------------------------------------ *)

Module Analyzer.

Import PyStr Re Builtins.

(** An alternation of literals under IGNORECASE. *)
Definition ialts (words : list string) : regex := alts (map ilit words).

(** Ordered (pattern, label) pairs: the insertion order of the dict. *)
Definition FUNCTION_TYPE_PATTERNS : list (regex * string) :=
  [ (* Vault *)
    (ialts ["deposit"; "stake"; "supply"], "deposit");
    (ialts ["withdraw"; "unstake"; "redeem"], "withdraw");
    (ilit "mint", "mint");
    (ilit "burn", "burn");
    (* DEX *)
    (ilit "swap", "swap");
    (ialts ["addLiquidity"; "add_liquidity"], "add_liquidity");
    (ialts ["removeLiquidity"; "remove_liquidity"], "remove_liquidity");
    (* Lending *)
    (ilit "borrow", "borrow");
    (ilit "repay", "repay");
    (ilit "liquidat", "liquidate");
    (ilit "collateral", "collateral");
    (* Token *)
    (ialts ["transfer"; "send"], "transfer");
    (ilit "approve", "approve");
    (ialts ["claim"; "harvest"], "claim");
    (ialts ["balance"; "balances"], "accounting");
    (* Admin *)
    (ialts ["set"; "update"; "change"], "admin");
    (ialts ["pause"; "unpause"], "pause");
    (ialts ["initialize"; "init"], "initialize") ].

Definition PROTOCOL_TYPE_PATTERNS : list (regex * string) :=
  [ (ialts ["ERC4626"; "convertToShares"; "convertToAssets"; "previewDeposit";
            "previewRedeem"], "Vault");
    (ialts ["vault"; "Vault"], "Vault");
    (ialts ["borrow"; "repay"; "liquidat"; "collateral"; "healthFactor"; "LTV"],
     "Lending");
    (ialts ["Aave"; "Compound"; "Euler"], "Lending");
    (* swap|getAmountOut|getAmountIn|reserves|k\s*= *)
    (alts [ilit "swap"; ilit "getAmountOut"; ilit "getAmountIn"; ilit "reserves";
           seqs [ilit "k"; Star ws; ch 61]], "DEX");
    (ialts ["Uniswap"; "Curve"; "Balancer"; "SushiSwap"], "DEX");
    (ialts ["addLiquidity"; "removeLiquidity"; "LP"; "liquidity"], "DEX");
    (ialts ["stake"; "unstake"; "reward"; "rewardRate"; "earned"], "Staking");
    (* bridge|cross.*chain|relay|message *)
    (alts [ilit "bridge"; seqs [ilit "cross"; Star dot; ilit "chain"];
           ilit "relay"; ilit "message"], "Bridge");
    (ialts ["oracle"; "price"; "latestRoundData"; "chainlink"; "getPrice"],
     "Oracle");
    (ialts ["ERC721"; "ERC1155"; "tokenURI"; "ownerOf"], "NFT") ].

(** pattern, (tag_name, search_keywords) *)
Definition RISK_PATTERNS : list (regex * (string * list string)) :=
  [ (* Reentrancy *)
    (* \.call\{|\.call\(|\(bool\s+success *)
    (alts [ilit ".call{"; ilit ".call(";
           seqs [ilit "(bool"; plus ws; ilit "success"]],
     ("Reentrancy", ["reentrancy"; "external call"]));
    (* transferFrom|safeTransferFrom|transfer\( *)
    (ialts ["transferFrom"; "safeTransferFrom"; "transfer("],
     ("Reentrancy", ["token transfer"; "reentrancy"]));
    (* Oracle *)
    (ialts ["latestRoundData"; "getPrice"; "oracle"],
     ("Oracle", ["oracle manipulation"; "price"]));
    (ialts ["TWAP"; "twap"], ("Oracle", ["TWAP"; "time-weighted"]));
    (* Math / Precision *)
    (* \/\s*\d+|mulDiv|\/\s*1e *)
    (alts [seqs [ch 47; Star ws; plus dg]; ilit "mulDiv";
           seqs [ch 47; Star ws; ilit "1e"]],
     ("Precision", ["precision loss"; "rounding"]));
    (* unchecked\s*\{ *)
    (seqs [ilit "unchecked"; Star ws; ch 123],
     ("Precision", ["overflow"; "underflow"]));
    (* Flash loans *)
    (* flashLoan|flash.*loan *)
    (alts [ilit "flashLoan"; seqs [ilit "flash"; Star dot; ilit "loan"]],
     ("Flash Loan", ["flash loan"]));
    (* Access control *)
    (* onlyOwner|require\(msg\.sender|onlyRole *)
    (ialts ["onlyOwner"; "require(msg.sender"; "onlyRole"],
     ("Access Control", ["access control"]));
    (ialts ["Ownable"; "AccessControl"], ("Access Control", ["access control"]));
    (* Slippage / MEV *)
    (ialts ["slippage"; "deadline"; "minAmount"; "amountOutMin"],
     ("Slippage", ["slippage"; "frontrunning"]));
    (* Timestamp *)
    (* block\.timestamp|now *)
    (ialts ["block.timestamp"; "now"], ("Timestamp", ["timestamp"]));
    (* Delegatecall *)
    (ilit "delegatecall", ("Delegatecall", ["delegatecall"; "proxy"]));
    (* Signature *)
    (ialts ["ecrecover"; "signature"; "ECDSA"],
     ("Signature", ["signature"; "replay"]));
    (* Accounting / balance tracking *)
    (* \bbalance(?:s|Of)?\b|_balances\b|userBalance|totalBalance|pendingBalance *)
    (alts [seqs [WordB; ilit "balance"; opt (Alt (ilit "s") (ilit "Of")); WordB];
           seqs [ilit "_balances"; WordB];
           ilit "userBalance"; ilit "totalBalance"; ilit "pendingBalance"],
     ("Balance Accounting",
      ["balance accounting"; "state sync"; "double claim"; "incorrect accounting"]));
    (ialts ["shareBalance"; "creatorBalance"; "ownerBalance"; "claimable";
            "accrued"; "pending"],
     ("Balance Accounting",
      ["claim accounting"; "reward accounting"; "balance desync"]));
    (ialts ["totalSupply"; "totalAssets"; "convertToShares"; "convertToAssets"],
     ("Balance Accounting",
      ["share accounting"; "asset accounting"; "vault accounting"])) ].

(** The fields of CodeContext the properties below read.  [state_changes],
    [suggested_tags] and [suggested_keywords] are built with [list(set(..))],
    whose order is that of a hash set; they are left out. *)
Record CodeContext : Type := mkCodeContext {
  function_name : string;
  function_type : string;
  protocol_type : string;
  risk_patterns : list string;
  external_calls : list string;
  confidence : float
}.

(** function\s+(\w+) *)
Definition function_name_re : regex :=
  seqs [lit "function"; plus ws; Group 1 (plus wd)].

(** (\w+)\s*\.\s*(\w+)\s*\( *)
Definition external_call_re : regex :=
  seqs [Group 1 (plus wd); Star ws; ch 46; Star ws; Group 2 (plus wd);
        Star ws; ch 40].

Definition call_denylist : list string :=
  ["msg"; "block"; "tx"; "abi"; "require"; "assert"].

(** [for pattern, label in table: if re.search(..): label; break]. *)
Fixpoint first_match {L : Type} (table : list (regex * L)) (code : string)
  : option L :=
  match table with
  | [] => None
  | (pattern, label) :: table' =>
      if test pattern code then Some label else first_match table' code
  end.

(** The loop over RISK_PATTERNS: one append per matching pattern. *)
Fixpoint collect_risks (table : list (regex * (string * list string)))
  (code : string) (acc : list string) : list string :=
  match table with
  | [] => acc
  | (pattern, (tag, kws)) :: table' =>
      if test pattern code
      then collect_risks table' code (acc ++ [tag])%list
      else collect_risks table' code acc
  end.

(** The additive confidence score. *)
Definition confidence_of (name ftype ptype : string)
  (risks calls : list string) : float :=
  let c := 0%float in
  let c := if truthy name then (c + 0.1)%float else c in
  let c := if truthy ftype then (c + 0.2)%float else c in
  let c := if truthy ptype then (c + 0.3)%float else c in
  let c := match risks with
           | [] => c
           | _ :: _ =>
               (c + fmin (float_of_nat (List.length risks) * 0.1) 0.3)%float
           end in
  let c := match calls with
           | [] => c
           | _ :: _ => (c + 0.1)%float
           end in
  fmin c 1%float.

Definition analyze (code : string) : CodeContext :=
  (* Function name *)
  let function_name :=
    match search function_name_re code with
    | Some m => group m 1
    | None => ""
    end in
  (* Function type *)
  let function_type :=
    match first_match FUNCTION_TYPE_PATTERNS code with
    | Some func_type => func_type
    | None => ""
    end in
  (* Protocol type *)
  let protocol_type :=
    match first_match PROTOCOL_TYPE_PATTERNS code with
    | Some proto => proto
    | None => ""
    end in
  (* Risk patterns *)
  let risk_patterns := collect_risks RISK_PATTERNS code [] in
  (* External calls *)
  let external_calls :=
    firstn 10
      (map (fun m => group m 1 ++ "." ++ group m 2)
         (filter (fun m => negb (mem (group m 1) call_denylist))
            (finditer external_call_re code))) in
  mkCodeContext function_name function_type protocol_type risk_patterns
    external_calls
    (confidence_of function_name function_type protocol_type risk_patterns
       external_calls).

End Analyzer.

(* ------------------------------------------------------------------ *)
(** ** core/solodit_client.py *)
(* ------------------------------------------------------------------ *)

Module Solodit.

(** A single Solodit finding ([quality_score], which nothing here reads, is
    left out). *)
Record Finding : Type := mkFinding {
  title : string;
  impact : string;
  content : string;
  firm_name : string;
  protocol_name : string;
  source_link : string;
  github_link : string;
  tags : list string;
  slug : string
}.

(** [SoloditClient.search(keywords=.., impact=[HIGH, MEDIUM],
    quality_score=.., page_size=..)]: the findings of the result, or the
    exception the call raised. *)
Definition search_fn : Type := string -> Z -> Z -> outcome (list Finding).

End Solodit.

(** [for x in xs: st = body(st, x)], stopping at the first exception. *)
Fixpoint for_each {S X : Type} (body : S -> X -> outcome S) (xs : list X) (st : S)
  : outcome S :=
  match xs with
  | [] => Returned st
  | x :: xs' => (st' <- body st x ;; for_each body xs' st')%py
  end.

(* ------------------------------------------------------------------ *)
(** ** modules/scout.py *)
(* ------------------------------------------------------------------ *)

Module Scout.

Import PyStr Re Builtins Solodit.

(** ERC detection patterns, in the order of the dict. *)
Definition _ERC_PATTERNS : list (string * list regex) :=
  [ ("ERC20", [lit "totalSupply"; lit "balanceOf";
               seqs [lit "transfer"; Star ws; ch 40];
               seqs [lit "approve"; Star ws; ch 40];
               lit "transferFrom"]);
    ("ERC721", [lit "ownerOf"; lit "safeTransferFrom"; lit "tokenURI";
                lit "ERC721"]);
    ("ERC1155", [lit "balanceOfBatch"; lit "safeBatchTransferFrom";
                 lit "ERC1155"]);
    ("ERC4626", [lit "convertToShares"; lit "convertToAssets";
                 lit "maxDeposit"; lit "previewMint"]) ].

Record FunctionDecl : Type := mkFunctionDecl {
  fn_name : string;
  fn_params : string;
  fn_modifiers : string
}.

(** Parsed contract metadata.  [external_calls] is a [list(set(..))], in
    hash-set order, and is left out. *)
Record ContractInfo : Type := mkContractInfo {
  name : string;
  ercs_detected : list string;
  functions : list FunctionDecl;
  imports : list string;
  state_variables : list string;
  modifiers_used : list string;
  loc : nat
}.

(** [len(code.splitlines())]: a line ends at LF, VT, FF, CR (CR LF counts
    once), FS, GS or RS; text after the last line end is one more line. *)
Definition is_line_end (c : ascii) : bool :=
  in_range 10 13 c || in_range 28 30 c.

Fixpoint count_lines (s : string) (pending : bool) : nat :=
  match s with
  | EmptyString => if pending then 1 else 0
  | String c s' =>
      if is_line_end c then
        match s' with
        | String d s'' =>
            if (code c =? 13)%nat && (code d =? 10)%nat
            then S (count_lines s'' false)
            else S (count_lines s' false)
        | EmptyString => 1
        end
      else count_lines s' true
  end.

(** contract\s+(\w+) *)
Definition name_re : regex := seqs [lit "contract"; plus ws; Group 1 (plus wd)].

(** import\s+[{DQ]([^DQ};]+) *)
Definition import_re : regex :=
  seqs [ lit "import"; plus ws;
         Chr (fun c => (code c =? 123)%nat || (code c =? 34)%nat);
         Group 1 (plus (Chr (fun c =>
           negb ((code c =? 34)%nat || (code c =? 125)%nat || (code c =? 59)%nat)))) ].

(** ^\s+(?:mapping|uint|int|address|bool|bytes|string|IERC\w+)\S*\s+
    (?:public|private|internal|immutable|constant)?\s*(\w+)   with MULTILINE *)
Definition state_re : regex :=
  seqs [ Bol; plus ws;
         alts [lit "mapping"; lit "uint"; lit "int"; lit "address"; lit "bool";
               lit "bytes"; lit "string"; Seq (lit "IERC") (plus wd)];
         Star (Chr (fun c => negb (is_space c)));
         plus ws;
         opt (alts [lit "public"; lit "private"; lit "internal";
                    lit "immutable"; lit "constant"]);
         Star ws;
         Group 1 (plus wd) ].

(** function \s+ (\w+) \s* \( ([^)]* ) \) \s*
    ( (?: external|public|internal|private|view|pure|payable|virtual|override
        | returns \s* \( [^)]* \) | \s )* )
    (the source text has no spaces) *)
Definition func_re : regex :=
  seqs [ lit "function"; plus ws; Group 1 (plus wd); Star ws; ch 40;
         Group 2 (Star (not_ch 41)); ch 41; Star ws;
         Group 3 (Star (alts
           [lit "external"; lit "public"; lit "internal"; lit "private";
            lit "view"; lit "pure"; lit "payable"; lit "virtual"; lit "override";
            seqs [lit "returns"; Star ws; ch 40; Star (not_ch 41); ch 41];
            ws])) ].

(** modifier\s+(\w+) *)
Definition mod_re : regex := seqs [lit "modifier"; plus ws; Group 1 (plus wd)].

(** [sum(1 for p in patterns if re.search(p, code))]. *)
Definition count_matches (patterns : list regex) (code : string) : nat :=
  List.length (filter (fun p => test p code) patterns).

(** The ERC detection loop. *)
Fixpoint detect_ercs (table : list (string * list regex)) (code : string)
  (acc : list string) : list string :=
  match table with
  | [] => acc
  | (erc_name, patterns) :: table' =>
      let matches := count_matches patterns code in
      if (2 <=? matches)%nat   (* need at least 2 pattern matches *)
      then detect_ercs table' code (acc ++ [erc_name])%list
      else detect_ercs table' code acc
  end.

Definition _parse_contract (code : string) : ContractInfo :=
  mkContractInfo
    (match search name_re code with
     | Some name_match => group name_match 1
     | None => ""
     end)
    (detect_ercs _ERC_PATTERNS code [])
    (map (fun m => mkFunctionDecl (group m 1) (strip (group m 2)) (strip (group m 3)))
         (finditer func_re code))
    (map (fun m => group m 1) (finditer import_re code))
    (firstn 30 (map (fun m => group m 1) (finditer state_re code)))
    (map (fun m => group m 1) (finditer mod_re code))
    (count_lines code false).

(** An entry of the [matched] list: the values [f.get(key, '')] reads. *)
Record Matched : Type := mkMatched {
  m_id : string;
  m_title : string;
  m_firm : string;
  m_protocol : string;
  m_impact : string;
  m_link : string
}.

(** \sstyle=Q[^Q]*Q   with IGNORECASE, for the quote character [q] *)
Definition style_re (q : nat) : regex :=
  seqs [ws; ilit "style="; ch q; Star (not_ch q); ch q].

(** <pre[^>]*>\s*<code[^>]*>\s*</code>\s*</pre>   with IGNORECASE, DOTALL *)
Definition empty_code_re : regex :=
  seqs [ ilit "<pre"; Star (not_ch 62); ch 62; Star ws;
         ilit "<code"; Star (not_ch 62); ch 62; Star ws;
         ilit "</code>"; Star ws; ilit "</pre>" ].

Definition evidence_row (f : Matched) : string :=
  "<tr>"
  ++ "<td>" ++ escape (m_id f) ++ "</td>"
  ++ "<td>" ++ escape (m_title f) ++ "</td>"
  ++ "<td>" ++ escape (m_firm f) ++ "</td>"
  ++ "<td>" ++ escape (m_protocol f) ++ "</td>"
  ++ "<td>" ++ escape (m_impact f) ++ "</td>"
  ++ "</tr>".

Definition evidence_head : string :=
  "<h2>Evidence Map</h2>"
  ++ "<p>Use citation IDs (for example, [F1]) to trace each claim to a real finding.</p>"
  ++ "<table><thead><tr><th>ID</th><th>Finding</th><th>Firm</th>"
  ++ "<th>Protocol</th><th>Severity</th></tr></thead>"
  ++ "<tbody>".

Definition evidence_foot : string := "</tbody></table>".

(** Normalize generated report HTML for readability and evidence traceability. *)
Definition _postprocess_report_html (html : string) (matched : list Matched)
  : string :=
  let out := html in
  (* Remove model-injected inline styling. *)
  let out := sub (style_re 34) (fun _ => "") out in
  let out := sub (style_re 39) (fun _ => "") out in
  (* Ensure code blocks are never blank. *)
  let out :=
    sub empty_code_re
        (fun _ => "<pre><code>// Patch/example unavailable in generated output.</code></pre>")
        out in
  (* Append an explicit evidence map for auditable references. *)
  match matched with
  | [] => out
  | _ :: _ =>
      let evidence_rows := concat_all (map evidence_row (firstn 8 matched)) in
      out ++ evidence_head ++ evidence_rows ++ evidence_foot
  end.

(** The query list of [generate_report], deduplicated case-insensitively. *)
Fixpoint dedup_queries (qs : list string) (seen : list string) : list string :=
  match qs with
  | [] => []
  | q :: qs' =>
      let q_lower := lower q in
      if mem q_lower seen then dedup_queries qs' seen
      else q :: dedup_queries qs' (q_lower :: seen)
  end.

Definition build_queries (risks : list string) (function_type protocol_type : string)
  (ercs : list string) : list string :=
  let type_query :=
    if truthy function_type then [function_type ++ " vulnerability"] else [] in
  let protocol_query :=
    if truthy protocol_type then [protocol_type ++ " exploit"] else [] in
  let erc_queries := map (fun erc => erc ++ " vulnerability") ercs in
  let search_queries :=
    (risks ++ type_query ++ protocol_query ++ erc_queries)%list in
  dedup_queries search_queries [].

(** The state of the fetch loop: [seen_titles] and [all_findings]. *)
Definition fetch_state : Type := (list string * list Finding)%type.

Definition add_finding (st : fetch_state) (f : Finding) : fetch_state :=
  let '(seen_titles, all_findings) := st in
  if mem (title f) seen_titles then st
  else (title f :: seen_titles, (all_findings ++ [f])%list).

(** One iteration of the fetch loop of [generate_report]: the whole body is
    inside [try]; the handler logs a warning and goes on. *)
Definition fetch_query (search : search_fn) (per_query_size : Z)
  (st : fetch_state) (query : string) : outcome fetch_state :=
  try_except
    (result <- search query 3%Z per_query_size ;;
     Returned (fold_left add_finding result st))%py
    (fun e => Returned st).

(** Step 3 of [generate_report]: the findings fetched for the queries. *)
Definition fetch_findings (search : search_fn) (page_size : Z)
  (unique_queries : list string) : outcome (list Finding) :=
  let per_query_size :=
    py_max 3 (page_size / py_max (Z.of_nat (List.length unique_queries)) 1)%Z in
  (st <- for_each (fetch_query search per_query_size)
                  (firstn 8 unique_queries) ([], []) ;;
   Returned (snd st))%py.

End Scout.

(* ------------------------------------------------------------------ *)
(** ** server.py *)
(* ------------------------------------------------------------------ *)

Module Server.

Import PyStr Re Builtins Solodit.

Definition accounting_tokens : list string :=
  ["accounting"; "claim"; "double"; "share"; "totalassets"; "totalsupply";
   "rounding"].

Definition balance_tokens : list string := ["balance"; "balances"; "_balances"].

(** The loop over the first three risk tags of the context. *)
Fixpoint risk_bonus (risks : list string) (haystack : string) (score : Z) : Z :=
  match risks with
  | [] => score
  | risk :: risks' =>
      risk_bonus risks' haystack
        (if contains (lower risk) haystack then score + 20 else score)%Z
  end.

(** Score findings so the top cards align with the highlighted selection.
    [risk_patterns] is [ctx.risk_patterns]. *)
Definition _pitfall_relevance_score (finding : Finding) (sel_name : string)
  (risk_patterns : list string) : Z :=
  let title := lower (title finding) in
  let content := lower (content finding) in
  let tags := lower (join " " (tags finding)) in
  let haystack := join " " [title; tags; take 1200 content] in
  let score := 0%Z in
  let score :=
    if truthy sel_name then
      let sel := lower sel_name in
      let score := if contains sel title then (score + 80)%Z else score in
      let score := if contains sel tags then (score + 50)%Z else score in
      let score := if contains sel haystack then (score + 30)%Z else score in
      (* Common mapping for balances style selections *)
      if mem sel balance_tokens
         && existsb (fun token => contains token haystack) accounting_tokens
      then (score + 35)%Z else score
    else score in
  let score := risk_bonus (firstn 3 risk_patterns) haystack score in
  let sev := upper (impact finding) in
  if String.eqb sev "HIGH" then (score + 8)%Z
  else if String.eqb sev "MEDIUM" then (score + 4)%Z
  else score.

(** [list.sort(key=.., reverse=True)] on (score, finding) pairs.  Python's
    sort is stable, also when reversed: the sorted list is in descending
    key order and entries with equal keys keep their order.  [place] puts
    an entry before the first entry whose key is not larger. *)
Fixpoint place {A : Type} (x : Z * A) (l : list (Z * A)) : list (Z * A) :=
  match l with
  | [] => [x]
  | y :: l' => if (fst y <=? fst x)%Z then x :: y :: l' else y :: place x l'
  end.

Definition sort_desc {A : Type} (l : list (Z * A)) : list (Z * A) :=
  fold_right place [] l.

(** The state of the search loop: [seen_keys] and [scored]. *)
Definition rank_state : Type := (list string * list (Z * Finding))%type.

Definition score_finding (sel_name : string) (risk_patterns : list string)
  (st : rank_state) (f : Finding) : rank_state :=
  let '(seen_keys, scored) := st in
  let key := or_else (slug f) (title f) in
  if mem key seen_keys then st
  else (key :: seen_keys,
        (scored ++ [(_pitfall_relevance_score f sel_name risk_patterns, f)])%list).

(** One iteration of the search loop of [pitfall] and [fix_draft]: the
    search call is inside [try]; the handler logs a warning and continues
    with the next query. *)
Definition search_query (search : search_fn) (page_size : Z) (sel_name : string)
  (risk_patterns : list string) (st : rank_state) (query : string)
  : outcome rank_state :=
  (result <- try_except
               (r <- search query 2%Z page_size ;; Returned (Some r))
               (fun exc => Returned None) ;;
   match result with
   | None => Returned st    (* continue *)
   | Some findings =>
       Returned (fold_left (score_finding sel_name risk_patterns) findings st)
   end)%py.

Definition collect_scored (search : search_fn) (page_size : Z) (max_queries : nat)
  (sel_name : string) (risk_patterns : list string) (queries : list string)
  : outcome (list (Z * Finding)) :=
  (st <- for_each (search_query search page_size sel_name risk_patterns)
                  (firstn max_queries queries) ([], []) ;;
   Returned (snd st))%py.

(** Step 3 of [pitfall]: six queries at most, four findings a page, the
    five best kept. *)
Definition pitfall_findings (search : search_fn) (sel_name : string)
  (risk_patterns : list string) (unique_queries : list string)
  : outcome (list Finding) :=
  (scored <- collect_scored search 4 6 sel_name risk_patterns unique_queries ;;
   Returned (map snd (firstn 5 (sort_desc scored))))%py.

(** The same step of [fix_draft]: five queries, three a page, three kept. *)
Definition fix_draft_findings (search : search_fn) (sel_name : string)
  (risk_patterns : list string) (query_candidates : list string)
  : outcome (list Finding) :=
  (scored <- collect_scored search 3 5 sel_name risk_patterns query_candidates ;;
   Returned (map snd (firstn 3 (sort_desc scored))))%py.

End Server.

(* ------------------------------------------------------------------ *)
(** ** config.py *)
(* ------------------------------------------------------------------ *)

Module Config.

Import PyStr Builtins.

(** The process environment: [os.getenv(name)] is [None] when unset. *)
Definition environ : Type := string -> option string.

(** [os.getenv(name, default)]. *)
Definition getenv (env : environ) (name default : string) : string :=
  match env name with Some v => v | None => default end.

(** Truthiness of [os.getenv(name)]: set and not empty. *)
Definition has_env (env : environ) (name : string) : bool :=
  match env name with Some v => truthy v | None => false end.

(** Pick the best available provider based on which keys exist. *)
Definition _auto_detect_provider (env : environ) : string :=
  let explicit := lower (strip (getenv env "DIABLO_AI_PROVIDER" "")) in
  if truthy explicit then explicit
  (* priority: openrouter > gemini > openai > anthropic *)
  else if has_env env "OPENROUTER_API_KEY" then "openrouter"
  else if has_env env "GEMINI_API_KEY" then "gemini"
  else if has_env env "OPENAI_API_KEY" then "openai"
  else if has_env env "ANTHROPIC_API_KEY" then "anthropic"
  else "gemini".

(** Pick default model for the detected provider. *)
Definition _auto_detect_model (env : environ) (provider : string) : string :=
  let explicit := strip (getenv env "DIABLO_AI_MODEL" "") in
  if truthy explicit then explicit
  else if String.eqb provider "openrouter" then "openai/gpt-oss-120b:free"
  else if String.eqb provider "gemini" then "gemini-2.0-flash"
  else if String.eqb provider "openai" then "gpt-4o-mini"
  else if String.eqb provider "anthropic" then "claude-sonnet-4-20250514"
  else "gemini-2.0-flash".

(** The configuration ([cache_dir], a path, is left out). *)
Record Config : Type := mkConfig {
  cyfrin_api_key : string;
  solodit_api_url : string;
  ai_provider : string;
  openai_api_key : string;
  anthropic_api_key : string;
  gemini_api_key : string;
  openrouter_api_key : string;
  ai_model : string;
  host : string;
  port : Z
}.

(** [Config()]: the field defaults, then [__post_init__].  It raises when
    DIABLO_PORT is not an integer literal. *)
Definition make_config (env : environ) : outcome Config :=
  (let ai_provider := _auto_detect_provider env in
   port <- py_int (getenv env "DIABLO_PORT" "8391") ;;
   Returned
     (mkConfig (getenv env "CYFRIN_API_KEY" "")
               "https://solodit.cyfrin.io/api/v1/solodit/findings"
               ai_provider
               (getenv env "OPENAI_API_KEY" "")
               (getenv env "ANTHROPIC_API_KEY" "")
               (getenv env "GEMINI_API_KEY" "")
               (getenv env "OPENROUTER_API_KEY" "")
               (* Resolve model after provider is known *)
               (_auto_detect_model env ai_provider)
               (getenv env "DIABLO_HOST" "127.0.0.1")
               port))%py.

(** Return a list of missing-but-required config keys. *)
Definition validate (self : Config) : list string :=
  let need (wanted : bool) (issue : string) : list string :=
    if wanted then [issue] else [] in
  (need (negb (truthy (cyfrin_api_key self))) "CYFRIN_API_KEY is not set"
   ++ need (String.eqb (ai_provider self) "openai"
            && negb (truthy (openai_api_key self))) "OPENAI_API_KEY is not set"
   ++ need (String.eqb (ai_provider self) "anthropic"
            && negb (truthy (anthropic_api_key self))) "ANTHROPIC_API_KEY is not set"
   ++ need (String.eqb (ai_provider self) "gemini"
            && negb (truthy (gemini_api_key self))) "GEMINI_API_KEY is not set"
   ++ need (String.eqb (ai_provider self) "openrouter"
            && negb (truthy (openrouter_api_key self))) "OPENROUTER_API_KEY is not set")%list.

End Config.

(* ------------------------------------------------------------------ *)
(** ** core/ai_provider.py *)
(* ------------------------------------------------------------------ *)

Module AIProvider.

Import PyStr Re Builtins.

(** [re.match(r, s)]: a match at the start of the subject. *)
Definition re_match (r : regex) (s : string) : option mstate :=
  rmatch r (MState 0 None s []) Some.

(** ^```(?:html|xml)?\s*\n(.*?)\n?```\s*$   with DOTALL.  At the start of
    the subject, where [re.match] tries it, [^] holds. *)
Definition fence_re : regex :=
  seqs [ Bol; lit "```"; opt (Alt (lit "html") (lit "xml")); Star ws; ch 10;
         Group 1 (LazyStar dot_all);
         opt (ch 10); lit "```"; Star ws; Eos ].

(** Strip markdown code fences that LLMs often wrap HTML in. *)
Definition _strip_fences (text : string) : string :=
  let stripped := strip text in
  match re_match fence_re stripped with
  | Some m => strip (group m 1)
  | None => stripped
  end.

(** A call to one of the providers: its completion text, or the exception
    the client library raised. *)
Definition backend : Type :=
  string (* provider *) -> string (* model *) -> string (* system *)
  -> string (* user *) -> float (* temperature *) -> Z (* max_tokens *)
  -> outcome string.

(** The type of [generate], as its callers see it. *)
Definition generator : Type := string -> string -> float -> Z -> outcome string.

Definition known_providers : list string :=
  ["openai"; "anthropic"; "gemini"; "openrouter"].

(** [AIProvider.generate]: route to the configured provider, then strip
    the fences of its answer. *)
Definition generate (call : backend) (cfg : Config.Config) : generator :=
  fun system_prompt user_prompt temperature max_tokens =>
  let provider := Config.ai_provider cfg in
  if mem provider known_providers then
    (result <- call provider (Config.ai_model cfg) system_prompt user_prompt
                    temperature max_tokens ;;
     Returned (_strip_fences result))%py
  else Raised ("ValueError: Unknown AI provider: " ++ provider).

End AIProvider.

(* ------------------------------------------------------------------ *)
(** ** modules/dictionary.py *)
(* ------------------------------------------------------------------ *)

Module Dictionary.

Import PyStr Builtins Solodit.

(** Paginated search result from Solodit. *)
Record SearchResult : Type := mkSearchResult {
  findings : list Finding;
  total : Z;
  page : Z;
  total_pages : Z;
  rate_limit_remaining : option Z
}.

(** Returned by a dictionary lookup. *)
Record DictionaryResult : Type := mkDictionaryResult {
  query : string;
  search_result : SearchResult;
  ai_summary : option string
}.

(** [SoloditClient.search(keywords, impact, quality_score, page, page_size)]. *)
Definition client : Type :=
  string -> list string -> Z -> Z -> Z -> outcome SearchResult.

Definition _SUMMARY_SYSTEM : string :=
  "You are Diablo, a sharp smart-contract security expert. "
  ++ "Given a set of audit findings, write a 3-4 sentence executive summary "
  ++ "of the vulnerability pattern. Mention which protocols were affected "
  ++ "and the typical impact. Be direct and precise.".

Definition LF : string := chr 10.

Definition title_line (f : Finding) : string :=
  "- [" ++ impact f ++ "] " ++ title f
  ++ " (" ++ firm_name f ++ " / " ++ protocol_name f ++ ")".

(** [severity or ["HIGH", "MEDIUM"]]. *)
Definition impact_filter (severity : option (list string)) : list string :=
  match severity with
  | Some (s :: rest) => s :: rest
  | _ => ["HIGH"; "MEDIUM"]
  end.

(** Search Solodit and optionally generate an AI summary. *)
Definition search (search_client : client) (ai : AIProvider.generator)
  (query : string) (severity : option (list string)) (page page_size : Z)
  (with_summary : bool) : outcome DictionaryResult :=
  (result <- search_client query (impact_filter severity) 1%Z page page_size ;;
   let ai_summary :=
     match with_summary, findings result with
     | true, _ :: _ =>
         let titles := join LF (map title_line (firstn 10 (findings result))) in
         match ai _SUMMARY_SYSTEM
                  ("Query: " ++ query ++ LF ++ LF ++ "Top findings:" ++ LF ++ titles)
                  0.7%float 300%Z with
         | Returned summary => Some summary
         (* Never fail search results because summary generation failed. *)
         | Raised exc => None
         end
     | _, _ => None
     end in
   Returned (mkDictionaryResult query result ai_summary))%py.

End Dictionary.

(* ------------------------------------------------------------------ *)
(** ** server.py: the requests of /pitfall and /fix-draft *)
(* ------------------------------------------------------------------ *)

Module Endpoints.

Import PyStr Re Builtins Analyzer Solodit.

(** [s.split()]: the maximal runs of characters that are not whitespace. *)
Fixpoint split_ws (s : string) : list string :=
  match s with
  | EmptyString => []
  | String c s' =>
      if is_space c then split_ws s'
      else
        match s' with
        | EmptyString => [String c EmptyString]
        | String d _ =>
            if is_space d then String c EmptyString :: split_ws s'
            else
              match split_ws s' with
              | t :: ts => String c t :: ts
              | [] => [String c EmptyString]
              end
        end
  end.

(** [s.lstrip(chars)] for a single character. *)
Fixpoint lstrip_char (n : nat) (s : string) : string :=
  match s with
  | String c s' => if (code c =? n)%nat then lstrip_char n s' else s
  | EmptyString => EmptyString
  end.

(** \(.*  *)
Definition paren_re : regex := Seq (ch 40) (Star dot).

(** The name the selection is about: what stands before the first
    parenthesis, its last word, without leading underscores. *)
Definition selection_name (raw_selection : string) : string :=
  let sel_name := strip (sub paren_re (fun _ => "") raw_selection) in
  let sel_name :=
    match split_ws sel_name with
    | [] => sel_name
    | parts => last parts ""
    end in
  lstrip_char 95 sel_name.

(** The loop that adds the risk patterns of the surrounding code. *)
Definition merge_risks (own other : list string) : list string :=
  fold_left (fun acc rp => if mem rp acc then acc else (acc ++ [rp])%list) other own.

(** The merge of the two analyses: selection wins for [function_name],
    surrounding adds risk (and, for /pitfall, protocol) info.  Nothing else
    is touched; in particular [confidence] stays that of the selection. *)
Definition merge_context (with_protocol : bool) (sel_ctx full_ctx : CodeContext)
  : CodeContext :=
  mkCodeContext
    (if negb (truthy (function_name sel_ctx)) && truthy (function_name full_ctx)
     then function_name full_ctx else function_name sel_ctx)
    (function_type sel_ctx)
    (if with_protocol
        && negb (truthy (protocol_type sel_ctx)) && truthy (protocol_type full_ctx)
     then protocol_type full_ctx else protocol_type sel_ctx)
    (merge_risks (risk_patterns sel_ctx) (risk_patterns full_ctx))
    (external_calls sel_ctx)
    (confidence sel_ctx).

(** Step 1 of both endpoints.  Without surrounding code [full_ctx] is the
    very object [sel_ctx]; the loop then runs over the list it tests and
    appends nothing. *)
Definition request_context (with_protocol : bool) (selection surrounding_code : string)
  : CodeContext :=
  let sel_ctx := analyze selection in
  let full_ctx := if truthy surrounding_code then analyze surrounding_code else sel_ctx in
  merge_context with_protocol sel_ctx full_ctx.

(** The query candidates of /pitfall, selection-specific intent first.
    [suggested_keywords] is [ctx.suggested_keywords], a list made from a
    set, in whatever order the set gives. *)
Definition pitfall_candidates (raw_selection sel_name : string) (ctx : CodeContext)
  (suggested_keywords : list string) : list string :=
  let for_name :=
    if truthy sel_name then [sel_name; sel_name ++ " vulnerability"] else [] in
  let for_function :=
    if truthy (function_name ctx)
       && negb (String.eqb (lower (function_name ctx)) (lower sel_name))
    then [function_name ctx] else [] in
  let for_type := if truthy (function_type ctx) then [function_type ctx] else [] in
  let for_selection :=
    if truthy raw_selection && negb (String.eqb raw_selection sel_name)
    then [take 120 raw_selection] else [] in
  (for_name ++ for_function ++ for_type ++ firstn 2 (risk_patterns ctx)
   ++ firstn 3 suggested_keywords ++ for_selection)%list.

(** Deduplicate and normalize order: strip, drop the empty, keep the first
    of those equal up to case. *)
Fixpoint unique_stripped (candidates seen_queries : list string) : list string :=
  match candidates with
  | [] => []
  | q :: rest =>
      let q := strip q in
      if negb (truthy q) then unique_stripped rest seen_queries
      else
        let k := lower q in
        if mem k seen_queries then unique_stripped rest seen_queries
        else q :: unique_stripped rest (k :: seen_queries)
  end.

Definition pitfall_queries (selection : string) (ctx : CodeContext)
  (suggested_keywords : list string) : list string :=
  let raw_selection := strip selection in
  unique_stripped
    (pitfall_candidates raw_selection (selection_name raw_selection) ctx
       suggested_keywords) [].

(** [queries[0] if queries else raw_selection]. *)
Definition query_used (queries : list string) (raw_selection : string) : string :=
  match queries with
  | q :: _ => q
  | [] => raw_selection
  end.

(** The query candidates of /fix-draft. *)
Definition fix_draft_candidates (sel_name : string) (ctx : CodeContext)
  (suggested_keywords : list string) : list string :=
  let for_name :=
    if truthy sel_name then [sel_name; sel_name ++ " vulnerability"] else [] in
  let for_type := if truthy (function_type ctx) then [function_type ctx] else [] in
  (for_name ++ for_type ++ firstn 2 (risk_patterns ctx)
   ++ firstn 2 suggested_keywords)%list.

(** [[q for i, q in enumerate(qs) if q and q not in qs[:i]]]. *)
Fixpoint first_occurrences (qs before : list string) : list string :=
  match qs with
  | [] => []
  | q :: rest =>
      (if truthy q && negb (mem q before) then [q] else [])
      ++ first_occurrences rest (before ++ [q])
  end%list.

Definition fix_draft_queries (selection : string) (ctx : CodeContext)
  (suggested_keywords : list string) : list string :=
  let raw_selection := strip selection in
  first_occurrences
    (fix_draft_candidates (selection_name raw_selection) ctx suggested_keywords) [].

(** *** The answer of /fix-draft *)

Definition LF : string := chr 10.

(** [enumerate(l, i)]. *)
Fixpoint enumerate_from {A : Type} (i : nat) (l : list A) : list (nat * A) :=
  match l with
  | [] => []
  | x :: l' => (i, x) :: enumerate_from (S i) l'
  end.

Definition reference_of (numbered : nat * Finding) : Scout.Matched :=
  let '(i, f) := numbered in
  Scout.mkMatched ("F" ++ str_of_nat i) (title f) (firm_name f) (protocol_name f)
    (impact f) (or_else (source_link f) (github_link f)).

Definition reference_text (numbered : nat * Finding) : string :=
  let '(i, f) := numbered in
  LF ++ "[F" ++ str_of_nat i ++ "] " ++ title f ++ LF
  ++ "Firm: " ++ firm_name f ++ ", Protocol: " ++ protocol_name f
  ++ ", Severity: " ++ impact f ++ LF
  ++ "Content: " ++ take 1200 (content f) ++ LF.

Definition fix_system_prompt : string :=
  "You are a senior Solidity security engineer. Draft a minimal, auditable fix." ++ LF
  ++ "Return ONLY HTML using sections: <h3>Risk</h3>, <h3>Patch Draft</h3>, <h3>Why</h3>, <h3>References</h3>." ++ LF
  ++ "Rules: concise bullets, no emojis, no inline styles, cite references as [F1], [F2]." ++ LF
  ++ "If uncertain, mark assumptions explicitly.".

Definition fix_user_prompt (filename selection surrounding_code sel_name : string)
  (ctx : CodeContext) (findings_text : string) : string :=
  "Filename: " ++ or_else filename "Unknown" ++ LF
  ++ "Function: " ++ or_else (function_name ctx) (or_else sel_name "selection") ++ LF
  ++ "Risk patterns: " ++ or_else (join ", " (risk_patterns ctx)) "unknown" ++ LF ++ LF
  ++ "Selected Solidity:" ++ LF ++ "```solidity" ++ LF
  ++ take 4000 selection ++ LF ++ "```" ++ LF ++ LF
  ++ "Surrounding Solidity:" ++ LF ++ "```solidity" ++ LF
  ++ take 5000 surrounding_code ++ LF ++ "```" ++ LF ++ LF
  ++ "Historical references:" ++ LF
  ++ or_else findings_text "No close references found." ++ LF ++ LF
  ++ "Produce a patch draft now.".

(** The draft used when the AI gave nothing. *)
Definition fallback_draft (fn : string) : string :=
  "<h3>Risk</h3><p>Potential accounting/state-order issue detected. Validate assumptions before merge.</p>"
  ++ "<h3>Patch Draft</h3>"
  ++ "<pre><code>"
  ++ "// Draft patch for " ++ fn ++ LF
  ++ "// 1) Validate preconditions early" ++ LF
  ++ "// 2) Apply checks-effects-interactions ordering" ++ LF
  ++ "// 3) Add explicit state/accounting assertions" ++ LF
  ++ "</code></pre>"
  ++ "<h3>Why</h3><ul><li>Reduces state desynchronization risk.</li></ul>"
  ++ "<h3>References</h3><p>No close historical references available for this selection.</p>".

(** final cleanup for readability/safety in webview *)
Definition strip_styles (html : string) : string :=
  let html := sub (Scout.style_re 34) (fun _ => "") html in
  sub (Scout.style_re 39) (fun _ => "") html.

Record FixDraft : Type := mkFixDraft {
  draft_analysis : CodeContext;
  draft_html : string;
  references : list Scout.Matched;
  draft_query_used : string
}.

(** The handler of /fix-draft, once the backend is initialised. *)
Definition fix_draft (search : search_fn) (ai : AIProvider.generator)
  (filename selection surrounding_code : string) (suggested_keywords : list string)
  : outcome FixDraft :=
  (let ctx := request_context false selection surrounding_code in
   let raw_selection := strip selection in
   let sel_name := selection_name raw_selection in
   let query_candidates :=
     first_occurrences (fix_draft_candidates sel_name ctx suggested_keywords) [] in
   findings <- Server.fix_draft_findings search sel_name (risk_patterns ctx)
                 query_candidates ;;
   let refs := map reference_of (enumerate_from 1 findings) in
   let findings_text := concat_all (map reference_text (enumerate_from 1 findings)) in
   let draft_html :=
     match ai fix_system_prompt
              (fix_user_prompt filename selection surrounding_code sel_name ctx
                 findings_text)
              0.2%float 1800%Z with
     | Returned html => html
     | Raised exc => ""
     end in
   let draft_html :=
     if negb (truthy draft_html)
     then fallback_draft
            (escape (or_else (function_name ctx) (or_else sel_name "selectedFunction")))
     else draft_html in
   Returned (mkFixDraft ctx (strip_styles draft_html) refs
               (query_used query_candidates raw_selection)))%py.

(** *** The answer of /pitfall *)

Definition finding_text (numbered : nat * Finding) : string :=
  let '(i, f) := numbered in
  LF ++ "--- Finding " ++ str_of_nat i ++ " ---" ++ LF
  ++ "Title: " ++ title f ++ LF
  ++ "Firm: " ++ firm_name f ++ LF
  ++ "Protocol: " ++ protocol_name f ++ LF
  ++ "Severity: " ++ impact f ++ LF
  ++ "Content: " ++ take 1500 (content f) ++ LF.

Definition pitfall_user_prompt (selection : string) (ctx : CodeContext)
  (findings_text : string) : string :=
  "## User's Code Selection" ++ LF
  ++ "```solidity" ++ LF
  ++ selection ++ LF
  ++ "```" ++ LF ++ LF
  ++ "## Code Analysis" ++ LF
  ++ "- Function: " ++ or_else (function_name ctx) "unknown" ++ LF
  ++ "- Type: " ++ or_else (function_type ctx) "unknown" ++ LF
  ++ "- Protocol Type: " ++ or_else (protocol_type ctx) "unknown" ++ LF
  ++ "- Risk Patterns: " ++ or_else (join ", " (risk_patterns ctx)) "none detected" ++ LF
  ++ "- External Calls: " ++ or_else (join ", " (firstn 5 (external_calls ctx))) "none"
  ++ LF ++ LF
  ++ "## Matching Solodit Findings" ++ LF
  ++ findings_text ++ LF ++ LF
  ++ "Generate the Pitfall Card HTML now.".

(** The middle dot between firm and protocol. *)
Definition MIDDOT : string := chr 183.

Definition fallback_item (f : Finding) : string :=
  let title := escape (title f) in
  let firm := escape (firm_name f) in
  let protocol := escape (protocol_name f) in
  let sev := escape (impact f) in
  let sev_color :=
    if String.eqb sev "HIGH" then "#f87171"
    else if String.eqb sev "MEDIUM" then "#fbbf24" else "#60a5fa" in
  "<div style=" ++ DQ ++ "background:rgba(255,255,255,0.04);border-radius:6px;"
  ++ "padding:10px 12px;margin-top:6px;" ++ DQ ++ ">"
  ++ "<div style=" ++ DQ ++ "font-weight:600;font-size:13px;" ++ DQ ++ ">" ++ title
  ++ "</div>"
  ++ "<div style=" ++ DQ ++ "font-size:11px;color:#888;margin-top:2px;" ++ DQ ++ ">"
  ++ firm ++ " " ++ MIDDOT ++ " " ++ protocol ++ " " ++ MIDDOT ++ " "
  ++ "<span style=" ++ DQ ++ "color:" ++ sev_color ++ ";font-weight:700;" ++ DQ ++ ">"
  ++ sev ++ "</span>"
  ++ "</div></div>".

(** Build a simple HTML pitfall card when AI generation fails. *)
Definition _build_fallback_card (ctx : CodeContext) (findings : list Finding) : string :=
  let func_label := or_else (function_name ctx) "this code" in
  let risks :=
    match risk_patterns ctx with
    | [] => "potential issues"
    | _ => join ", " (risk_patterns ctx)
    end in
  let items := concat_all (map fallback_item findings) in
  "<div style=" ++ DQ ++ "border-left:3px solid #fbbf24;padding:12px 14px;"
  ++ "background:rgba(251,191,36,0.06);border-radius:0 6px 6px 0;" ++ DQ ++ ">"
  ++ "<div style=" ++ DQ ++ "font-size:14px;font-weight:600;margin-bottom:6px;" ++ DQ ++ ">"
  ++ "Potential issue found in " ++ str_of_nat (List.length findings)
  ++ " related audit finding(s)</div>"
  ++ "<div style=" ++ DQ ++ "font-size:13px;color:#bbb;margin-bottom:10px;" ++ DQ ++ ">"
  ++ "<code>" ++ escape func_label ++ "</code> matches patterns related to "
  ++ "<strong>" ++ escape risks ++ "</strong>. "
  ++ "Here are real audit findings from past security reviews:</div>"
  ++ items ++ "</div>".

(** The answer of /pitfall; [query_used] is absent from the answer that
    reports no pitfall. *)
Record Pitfall : Type := mkPitfall {
  has_pitfall : bool;
  pitfall_analysis : CodeContext;
  card_html : string;
  shown_findings : list Finding;
  pitfall_query_used : option string
}.

(** The handler of /pitfall, once the backend is initialised.
    [read_prompt] is the reading of prompts/pitfall_template.md. *)
Definition pitfall (search : search_fn) (read_prompt : outcome string)
  (ai : AIProvider.generator) (selection surrounding_code : string)
  (suggested_keywords : list string) : outcome Pitfall :=
  (let ctx := request_context true selection surrounding_code in
   let raw_selection := strip selection in
   let sel_name := selection_name raw_selection in
   let unique_queries :=
     unique_stripped
       (pitfall_candidates raw_selection sel_name ctx suggested_keywords) [] in
   findings <- Server.pitfall_findings search sel_name (risk_patterns ctx)
                 unique_queries ;;
   match findings with
   | [] => Returned (mkPitfall false ctx "" [] None)
   | _ :: _ =>
       system_prompt <- read_prompt ;;
       let findings_text :=
         concat_all (map finding_text (enumerate_from 1 (firstn 3 findings))) in
       let card_html :=
         match ai system_prompt (pitfall_user_prompt selection ctx findings_text)
                  0.7%float 2048%Z with
         | Returned html => html
         | Raised exc => ""
         end in
       (* Fallback: if AI failed but we have findings, render a simple card *)
       let card_html :=
         if negb (truthy card_html)
         then _build_fallback_card ctx (firstn 3 findings)
         else card_html in
       Returned (mkPitfall true ctx card_html (firstn 3 findings)
                   (Some (query_used unique_queries raw_selection)))
   end)%py.

End Endpoints.

(* ------------------------------------------------------------------ *)
(** ** modules/scout.py: the report *)
(* ------------------------------------------------------------------ *)

Set Warnings "-abstract-large-number".

Module Report.

Import PyStr Re Builtins Analyzer Solodit Scout.

Definition LF : string := chr 10.

(** Depth to findings per detected pattern: [_DEPTH_MAP.get(depth, 20)]. *)
Definition depth_page_size (depth : string) : nat :=
  if String.eqb depth "quick" then 5
  else if String.eqb depth "standard" then 20
  else if String.eqb depth "deep" then 50
  else 20.

(** (\w+)\.(call|delegatecall|staticcall|transfer|send)\s*[({] *)
Definition call_re : regex :=
  seqs [ Group 1 (plus wd); ch 46;
         Group 2 (alts [lit "call"; lit "delegatecall"; lit "staticcall";
                        lit "transfer"; lit "send"]);
         Star ws;
         Chr (fun c => (code c =? 40)%nat || (code c =? 123)%nat) ].

(** [len(info.external_calls)]: the number of distinct calls found (the
    list is made from a set; only its length is read). *)
Definition external_call_count (code : string) : nat :=
  List.length
    (nodup string_dec
       (map (fun m => group m 1 ++ "." ++ group m 2) (finditer call_re code))).

(** [s[n:]]. *)
Fixpoint drop (n : nat) (s : string) : string :=
  match n, s with
  | S n', String _ s' => drop n' s'
  | _, _ => s
  end.

(** [s.replace(old, new)] for a non-empty [old]: the occurrences are
    replaced from left to right, without overlap. *)
Fixpoint replace_from (fuel : nat) (old new s : string) : string :=
  match fuel with
  | O => s
  | S fuel' =>
      if starts_with old s
      then new ++ replace_from fuel' old new (drop (String.length old) s)
      else
        match s with
        | EmptyString => EmptyString
        | String c s' => String c (replace_from fuel' old new s')
        end
  end.

Definition replace (old new s : string) : string :=
  replace_from (S (String.length s)) old new s.

Definition context_part (numbered : nat * Finding) : string :=
  let '(i, f) := numbered in
  let content_preview :=
    if (600 <? String.length (content f))%nat
    then take 600 (content f) ++ "..." else content f in
  "### [F" ++ str_of_nat i ++ "] " ++ title f ++ LF
  ++ "- **Firm:** " ++ firm_name f ++ LF
  ++ "- **Protocol:** " ++ protocol_name f ++ LF
  ++ "- **Severity:** " ++ impact f ++ LF
  ++ "- **Tags:** " ++ join ", " (tags f) ++ LF ++ LF
  ++ content_preview ++ LF.

Definition _build_context (findings : list Finding) : string :=
  join (LF ++ "---" ++ LF) (map context_part (Endpoints.enumerate_from 1 findings)).

Definition matched_of (numbered : nat * Finding) : Matched :=
  let '(i, f) := numbered in
  mkMatched ("F" ++ str_of_nat i) (title f) (firm_name f) (protocol_name f)
    (impact f) (or_else (source_link f) (github_link f)).

Definition contract_summary (file_content : string) (info : ContractInfo)
  (code_ctx : CodeContext) : string :=
  "Contract: " ++ or_else (name info) "Unknown" ++ LF
  ++ "Lines of code: " ++ str_of_nat (loc info) ++ LF
  ++ "ERCs detected: " ++ or_else (join ", " (ercs_detected info)) "None" ++ LF
  ++ "Functions: " ++ str_of_nat (List.length (functions info)) ++ LF
  ++ "External calls: " ++ str_of_nat (external_call_count file_content) ++ LF
  ++ "Risks detected: " ++ or_else (join ", " (risk_patterns code_ctx)) "None" ++ LF
  ++ "Function type: " ++ or_else (function_type code_ctx) "None" ++ LF
  ++ "Protocol type: " ++ or_else (protocol_type code_ctx) "None" ++ LF.

Definition report_user_prompt (report_prompt file_content summary docs_content
  context_block : string) : string :=
  let docs_section :=
    if truthy (strip docs_content)
    then LF ++ "## Project Documentation" ++ LF ++ LF ++ take 3000 docs_content ++ LF
    else "" in
  report_prompt ++ LF ++ LF
  ++ "## Contract Code" ++ LF ++ LF ++ "```solidity" ++ LF
  ++ take 6000 file_content ++ LF ++ "```" ++ LF ++ LF
  ++ "## Contract Analysis" ++ LF ++ LF ++ summary ++ LF
  ++ docs_section ++ LF
  ++ "## Historical Findings Data" ++ LF ++ LF ++ context_block ++ LF ++ LF
  ++ "Generate the report now. Format the output as HTML that can be "
  ++ "rendered in a VS Code webview. Use <h2>, <h3>, <pre><code>, <ul>, <li>, <table> etc.".

(** [severity_counts]: the entries HIGH, MEDIUM and LOW. *)
Record Severity : Type := mkSeverity {
  high : nat;
  medium : nat;
  low : nat
}.

Definition count_severity (counts : Severity) (f : Finding) : Severity :=
  let sev := upper (impact f) in
  if String.eqb sev "HIGH" then mkSeverity (S (high counts)) (medium counts) (low counts)
  else if String.eqb sev "MEDIUM"
       then mkSeverity (high counts) (S (medium counts)) (low counts)
  else if String.eqb sev "LOW"
       then mkSeverity (high counts) (medium counts) (S (low counts))
  else counts.

(** A generated Ghost Auditor report. *)
Record ScoutReport : Type := mkScoutReport {
  contract_name : string;
  findings_count : nat;
  severity_breakdown : Severity;
  contract_info : ContractInfo;
  content_html : string;
  matched_findings : list Matched
}.

(** Generate a full security report for a Solidity file.  [personality]
    and [report_template] are the two prompt files (empty when missing). *)
Definition generate_report (search : search_fn) (ai : AIProvider.generator)
  (personality report_template : string) (file_content docs_content depth : string)
  : outcome ScoutReport :=
  (let page_size := depth_page_size depth in
   (* 1 - Parse contract *)
   let info := _parse_contract file_content in
   (* 2 - Analyze code context *)
   let code_ctx := analyze file_content in
   (* 3 - Cross-reference: search for each risk + function type *)
   let unique_queries :=
     build_queries (risk_patterns code_ctx) (function_type code_ctx)
       (protocol_type code_ctx) (ercs_detected info) in
   all_findings <- fetch_findings search (Z.of_nat page_size) unique_queries ;;
   (* 4 - Build context *)
   let shown := firstn page_size all_findings in
   let context_block := _build_context shown in
   let matched := map matched_of (Endpoints.enumerate_from 1 shown) in
   (* 5 - Generate AI report *)
   let report_prompt :=
     replace "{finding_count}" (str_of_nat (List.length shown)) report_template in
   let user_prompt :=
     report_user_prompt report_prompt file_content
       (contract_summary file_content info code_ctx) docs_content context_block in
   content_html <- ai personality user_prompt 0.5%float 8192%Z ;;
   let content_html := _postprocess_report_html content_html matched in
   (* Severity breakdown *)
   let severity_counts := fold_left count_severity shown (mkSeverity 0 0 0) in
   Returned (mkScoutReport (or_else (name info) "Analyzed Contract")
               (List.length shown) severity_counts info content_html matched))%py.

End Report.

(* ------------------------------------------------------------------ *)
(** ** core/smart_search.py *)
(* ------------------------------------------------------------------ *)

Module SmartSearch.

Import PyStr Re Builtins Analyzer Solodit.

(** Map protocol types to better Solodit search terms. *)
Definition _PROTOCOL_SEARCH_MAP : list (string * string) :=
  [ ("DEX", "amm"); ("Vault", "vault"); ("Lending", "lending");
    ("Staking", "staking"); ("Bridge", "bridge"); ("Oracle", "oracle");
    ("NFT", "nft") ].

(** [d.get(key, default)]. *)
Fixpoint dict_get (d : list (string * string)) (key default : string) : string :=
  match d with
  | [] => default
  | (k, v) :: d' => if String.eqb key k then v else dict_get d' key default
  end.

(** The hints that name a protocol, in the order of the dict. *)
Definition protocol_map : list (string * string) :=
  [ ("vault", "Vault"); ("erc4626", "Vault"); ("lending", "Lending");
    ("borrow", "Lending"); ("aave", "Lending"); ("dex", "DEX"); ("swap", "DEX");
    ("amm", "DEX"); ("uniswap", "DEX"); ("staking", "Staking");
    ("stake", "Staking"); ("bridge", "Bridge"); ("cross-chain", "Bridge");
    ("oracle", "Oracle"); ("price", "Oracle") ].

(** The loop over [protocol_map]: the first key found in the hint. *)
Fixpoint hinted_protocol (table : list (string * string)) (hint_lower : string)
  : option string :=
  match table with
  | [] => None
  | (key, proto) :: table' =>
      if contains key hint_lower then Some proto
      else hinted_protocol table' hint_lower
  end.

(** [[w for w in hint.split() if len(w) > 2][:3]]. *)
Definition hint_words (hint : string) : list string :=
  firstn 3 (filter (fun w => (2 <? String.length w)%nat) (Endpoints.split_ws hint)).


(** Override / enrich context with a user-supplied hint: the protocol type
    and the suggested keywords after the call. *)
Definition _apply_user_context (protocol_type : string)
  (suggested_keywords : list string) (hint : string) : string * list string :=
  let hint_lower := lower hint in
  (match hinted_protocol protocol_map hint_lower with
   | Some proto => proto
   | None => protocol_type
   end,
   (suggested_keywords ++ hint_words hint)%list).

(** Build keyword string (max 3 terms). *)
Definition build_terms (function_type protocol_type : string)
  (risk_patterns suggested_keywords : list string) : list string :=
  let terms := if truthy function_type then [function_type] else [] in
  let terms :=
    if truthy protocol_type
    then (terms ++ [dict_get _PROTOCOL_SEARCH_MAP protocol_type (lower protocol_type)])%list
    else terms in
  let terms :=
    match risk_patterns with
    | risk :: _ =>
        if (List.length terms <? 3)%nat then (terms ++ [lower risk])%list else terms
    | [] => terms
    end in
  (* Fallback to suggested keywords *)
  let terms :=
    match terms, suggested_keywords with
    | [], _ :: _ => firstn 2 suggested_keywords
    | _, _ => terms
    end in
  firstn 3 terms.

(** The keyword string [search_for_code] searches with, for the code, the
    keywords its analysis suggested and the hint of the user. *)
Definition search_keywords (code : string) (suggested_keywords : list string)
  (user_context : string) : string :=
  let ctx := analyze code in
  let '(protocol_type, suggested_keywords) :=
    if truthy user_context
    then _apply_user_context (protocol_type ctx) suggested_keywords user_context
    else (protocol_type ctx, suggested_keywords) in
  join " " (build_terms (function_type ctx) protocol_type (risk_patterns ctx)
              suggested_keywords).

(** Analyse code and fetch matching Solodit findings: the protocol type of
    the returned context and the search result. *)
Definition search_for_code (client : Dictionary.client) (code : string)
  (suggested_keywords : list string) (user_context : string) (page_size : Z)
  : outcome (string * Dictionary.SearchResult) :=
  (let ctx := analyze code in
   let protocol_type :=
     if truthy user_context
     then fst (_apply_user_context (protocol_type ctx) suggested_keywords user_context)
     else protocol_type ctx in
   result <- client (search_keywords code suggested_keywords user_context)
                    ["HIGH"; "MEDIUM"] 2%Z 1%Z page_size ;;
   Returned (protocol_type, result))%py.

End SmartSearch.

(* ------------------------------------------------------------------ *)
(** ** modules/learning.py: the lesson HTML *)
(* ------------------------------------------------------------------ *)

Module Lesson.

Import PyStr Re Builtins Learning.

(** [re.sub(r, repl, s)] with a replacement function that may raise: the
    function is called on the matches from left to right, and the first
    exception ends the substitution. *)
Fixpoint sub_from_m (fuel : nat) (r : regex) (repl : mstate -> outcome string)
  (p : N) (pv : option ascii) (s : string) : outcome string :=
  match fuel with
  | O => Returned s
  | S fuel' =>
      match search_from r p pv s with
      | None => Returned s
      | Some (Found g st) =>
          (replacement <- repl st ;;
           tail <-
             (if (p + N.of_nat (String.length g) <? pos st)%N
              then sub_from_m fuel' r repl (pos st) (prev st) (rest st)
              else match rest st with
                   | EmptyString => Returned EmptyString
                   | String c s' =>
                       t <- sub_from_m fuel' r repl (pos st + 1) (Some c) s' ;;
                       Returned (String c t)
                   end) ;;
           Returned (g ++ replacement ++ tail))%py
      end
  end.

Definition sub_m (r : regex) (repl : mstate -> outcome string) (s : string)
  : outcome string :=
  sub_from_m (S (String.length s)) r repl 0 None s.

(** [str(n)] for an integer. *)
Definition str_of_int (z : Z) : string :=
  if (z <? 0)%Z then "-" ++ str_of_nat (Z.abs_nat z) else str_of_nat (Z.to_nat z).

(** (<div\s+class=DQ quiz-question DQ [^>]* data-correct=DQ) (\d+) (DQ .*? >)
    (.*? </div> \s* ) (?= <div\s+class=DQ quiz-question DQ | $ )   with DOTALL
    (the source text has no spaces) *)
Definition q_fix_pattern : regex :=
  seqs [ Group 1 (seqs [question_open; Star (not_ch 62); lit "data-correct="; ch 34]);
         Group 2 (plus dg);
         Group 3 (seqs [ch 34; LazyStar dot_all; ch 62]);
         Group 4 (seqs [LazyStar dot_all; lit "</div>"; Star ws]);
         Ahead (Alt question_open Eos) ].

(** <div\s+class=DQ quiz-option DQ [^>]*>.*?</div>   with DOTALL *)
Definition option_block_re : regex :=
  seqs [ lit "<div"; plus ws; lit "class="; ch 34; lit "quiz-option"; ch 34;
         Star (not_ch 62); ch 62; LazyStar dot_all; lit "</div>" ].

(** The replacement of one question block. *)
Definition _fix_q (m : mstate) : outcome string :=
  (let head_a := group m 1 in
   let raw_s := group m 2 in
   let head_b := group m 3 in
   let block := group m 4 in
   let options_count := List.length (finditer option_block_re block) in
   raw_correct <- py_int raw_s ;;
   let normalized :=
     _normalize_correct_index raw_correct (Z.of_nat options_count) block block in
   Returned (head_a ++ str_of_int normalized ++ head_b ++ block))%py.

(** Normalize generated lesson HTML for stable rendering. *)
Definition _postprocess_lesson_html (html : string) : outcome string :=
  let out := html in
  (* Replace empty code blocks so the user never sees blank code sections. *)
  let out :=
    sub Scout.empty_code_re
        (fun _ => "<pre><code>// Source snippet unavailable in finding body.</code></pre>")
        out in
  (* Normalize quiz indices to zero-based for frontend click handling. *)
  sub_m q_fix_pattern _fix_q out.

(** Steps 3 and 4 of [generate_lesson] on the answer of the AI: the HTML of
    the lesson and its quiz. *)
Definition lesson_of (generated : string)
  : outcome (string * list QuizQuestion) :=
  (content_html <- _postprocess_lesson_html generated ;;
   quiz <- _parse_quiz content_html ;;
   Returned (content_html, quiz))%py.

End Lesson.

(* ================================================================== *)
(** * Vocabulary of the properties *)
(* ================================================================== *)

Import PyStr Re Builtins.

(* ------------------------------------------------------------------ *)
(** ** Matching, declaratively *)
(* ------------------------------------------------------------------ *)

Module MatchSpec.

(** What it means for [r] to match from one position to another, without
    regard to the order in which the matcher tries the alternatives. *)
Inductive matches : regex -> mstate -> mstate -> Prop :=
| m_eps st : matches Eps st st
| m_chr p c s' st :
    rest st = String c s' -> p c = true -> matches (Chr p) st (advance c s' st)
| m_seq a b st st1 st2 :
    matches a st st1 -> matches b st1 st2 -> matches (Seq a b) st st2
| m_alt_l a b st st' : matches a st st' -> matches (Alt a b) st st'
| m_alt_r a b st st' : matches b st st' -> matches (Alt a b) st st'
| m_star_stop r st : matches (Star r) st st
| m_star_more r st st1 st2 :
    matches r st st1 -> matches (Star r) st1 st2 -> matches (Star r) st st2
| m_lazy_stop r st : matches (LazyStar r) st st
| m_lazy_more r st st1 st2 :
    matches r st st1 -> matches (LazyStar r) st1 st2 -> matches (LazyStar r) st st2
| m_group i r st st1 : matches r st st1 -> matches (Group i r) st (capture i st st1)
| m_ahead r st st1 : matches r st st1 -> matches (Ahead r) st st
| m_bol st : at_line_start st = true -> matches Bol st st
| m_eos st : at_end st = true -> matches Eos st st
| m_wordb st :
    xorb (word_before st) (word_after st) = true -> matches WordB st st.

(** The text between two positions of one subject. *)
Definition consumed (st st' : mstate) (t : string) : Prop :=
  rest st = t ++ rest st' /\ pos st' = (pos st + N.of_nat (String.length t))%N.

(** Every character of [s] satisfies [q]. *)
Fixpoint all_chars (q : ascii -> bool) (s : string) : Prop :=
  match s with
  | EmptyString => True
  | String c s' => q c = true /\ all_chars q s'
  end.

(** [r] has no group and consumes only characters satisfying [q]. *)
Fixpoint only_chars (q : ascii -> bool) (r : regex) : Prop :=
  match r with
  | Chr p => forall c, p c = true -> q c = true
  | Seq a b | Alt a b => only_chars q a /\ only_chars q b
  | Star a | LazyStar a => only_chars q a
  | Group _ _ => False
  | _ => True
  end.

(** Every match of [r] consumes at least one character. *)
Fixpoint consuming (r : regex) : bool :=
  match r with
  | Chr _ => true
  | Seq a b => consuming a || consuming b
  | Alt a b => consuming a && consuming b
  | Group _ b => consuming b
  | _ => false
  end.

(** Every group [i] of [r] has a consuming body over characters in [q]. *)
Fixpoint captures_only (i : nat) (q : ascii -> bool) (r : regex) : Prop :=
  match r with
  | Seq a b | Alt a b => captures_only i q a /\ captures_only i q b
  | Star a | LazyStar a => captures_only i q a
  | Group j b =>
      if (i =? j)%nat then only_chars q b /\ consuming b = true
      else captures_only i q b
  | _ => True
  end.

(** Every match of [r] goes through a group [i]. *)
Fixpoint must_set (i : nat) (r : regex) : bool :=
  match r with
  | Seq a b => must_set i a || must_set i b
  | Alt a b => must_set i a && must_set i b
  | Group j b => (i =? j)%nat || must_set i b
  | _ => false
  end.

(** Group [i] holds a non-empty text of characters in [q]. *)
Definition good (q : ascii -> bool) (i : nat) (st : mstate) : Prop :=
  group st i <> "" /\ all_chars q (group st i).

(** The subject left and every captured text have at most [n] characters. *)
Definition bounded (n : nat) (st : mstate) : Prop :=
  (String.length (rest st) <= n)%nat
  /\ Forall (fun e => (String.length (snd e) <= n)%nat) (groups st).

(** The position [k] characters into the subject, no group set. *)
Fixpoint state_at (p : N) (pv : option ascii) (s : string) (k : nat) : mstate :=
  match k, s with
  | S k', String c s' => state_at (p + 1) (Some c) s' k'
  | _, _ => MState p pv s []
  end.

End MatchSpec.

(* ------------------------------------------------------------------ *)
(** ** Quiz answer normalisation *)
(* ------------------------------------------------------------------ *)

Module NormalizeSpec.

Import Learning.

(** The letter hint the code reads: the first (leftmost) match of the hint
    pattern in the block, a space, and the explanation; its letter as an
    index (A = 0). *)
Definition first_letter_hint (block_html explanation_html : string) : option Z :=
  option_map (fun m => letter_index (upper (group m 1)))
             (search letter_re (block_html ++ " " ++ explanation_html)).

Definition in_range_of (n idx : Z) : bool := (0 <=? idx)%Z && (idx <? n)%Z.




End NormalizeSpec.

(* ------------------------------------------------------------------ *)
(** ** Quiz parsing *)
(* ------------------------------------------------------------------ *)

Module QuizSpec.

Import Learning.

(** The invariant of a parsed question. *)
Definition well_formed (q : QuizQuestion) : Prop :=
  options q <> []
  /\ (0 <= correct_index q <= Z.of_nat (List.length (options q)) - 1)%Z.

End QuizSpec.

Module QuizExamples.

Import Learning.

(** An HTML attribute [name=DQ value DQ]. *)
Definition attr (name value : string) : string := name ++ "=" ++ DQ ++ value ++ DQ.

Fixpoint repeat_char (c : ascii) (n : nat) : string :=
  match n with
  | O => EmptyString
  | S n' => String c (repeat_char c n')
  end.

(** The unterminated block of the repository's own test
    (test_parse_quiz_handles_malformed_html_without_crashing). *)
Definition malformed_quiz : string :=
  "
    <div " ++ attr "class" "quiz-question" ++ " " ++ attr "data-correct" "2" ++ ">
      <p>Q1
      <div " ++ attr "class" "quiz-option" ++ ">A</div>
      <div " ++ attr "class" "quiz-option" ++ ">B</div>
      <div " ++ attr "class" "quiz-option" ++ ">C</div>
      <div " ++ attr "class" "quiz-option" ++ ">D</div>
    ".

(** What parsing makes of it: the block ends before the last closing tag,
    so three options are read, and raw 2 is taken as 1-based. *)
Definition malformed_quiz_parsed : list QuizQuestion :=
  [ mkQuizQuestion "Question" "" ["A"; "B"; "C"] 1 "" ].

(** A question block whose data-correct attribute is a run of [n] digits 1. *)
Definition long_index_quiz (n : nat) : string :=
  "<div " ++ attr "class" "quiz-question" ++ " "
  ++ attr "data-correct" (repeat_char "1" n) ++ ">"
  ++ "<p>Q</p>"
  ++ "<div " ++ attr "class" "quiz-option" ++ ">A</div>"
  ++ "</div>".

End QuizExamples.

(* ------------------------------------------------------------------ *)
(** ** Solidity snippets *)
(* ------------------------------------------------------------------ *)

Module CodeExamples.

(** A token pull followed by a low-level call paying out. *)
Definition pull_then_pay : string :=
  "token.transferFrom(msg.sender, address(this), amount); "
  ++ "(bool success, ) = msg.sender.call{value: amount}(data);".


(** The end-to-end scenario of the specification (section 8, property 9). *)
Definition deposit_function : string :=
  "function deposit(uint256 amount) external { "
  ++ "token.transferFrom(msg.sender, address(this), amount); "
  ++ "balances[msg.sender] += amount; }".

End CodeExamples.

(* ------------------------------------------------------------------ *)
(** ** Confidence *)
(* ------------------------------------------------------------------ *)

Module ConfidenceSpec.

(** The additive score in the words of the specification: each term is
    added when its field is non-empty. *)
Definition term (present : bool) (weight : float) : float :=
  if present then weight else 0%float.

Definition nonempty {A : Type} (l : list A) : bool :=
  match l with [] => false | _ :: _ => true end.

Definition additive_score (ctx : Analyzer.CodeContext) : float :=
  (0
   + term (truthy (Analyzer.function_name ctx)) 0.1
   + term (truthy (Analyzer.function_type ctx)) 0.2
   + term (truthy (Analyzer.protocol_type ctx)) 0.3
   + term (nonempty (Analyzer.risk_patterns ctx))
       (fmin (0.1 * float_of_nat (List.length (Analyzer.risk_patterns ctx))) 0.3)
   + term (nonempty (Analyzer.external_calls ctx)) 0.1)%float.

(** The same score from the five observations it depends on. *)
Definition score_of (name ftype ptype : bool) (risks : nat) (calls : bool) : float :=
  (0
   + term name 0.1 + term ftype 0.2 + term ptype 0.3
   + term (negb (risks =? 0)%nat) (fmin (0.1 * float_of_nat risks) 0.3)
   + term calls 0.1)%float.

End ConfidenceSpec.

(* ------------------------------------------------------------------ *)
(** ** Relevance and ranking *)
(* ------------------------------------------------------------------ *)

Module RelevanceSpec.

Import Solodit.


(** Case-insensitive substring test. *)
Definition occurs_in (needle text : string) : bool :=
  contains (lower needle) (lower text).







End RelevanceSpec.

Module RankingSpec.

Import Solodit Server.

(** Descending order of keys. *)
Definition desc {A : Type} (a b : Z * A) : Prop := (fst b <= fst a)%Z.

Definition with_key {A : Type} (v : Z) (e : Z * A) : bool := (fst e =? v)%Z.

(** The score of a finding for a selection name and the risk tags of the
    context. *)
Definition score (sel_name : string) (risk_patterns : list string) (f : Finding)
  : Z :=
  _pitfall_relevance_score f sel_name risk_patterns.

(** The [scored] list of a list of findings, and its ranking. *)
Definition scored_of (sel_name : string) (risk_patterns : list string)
  (findings : list Finding) : list (Z * Finding) :=
  map (fun f => (score sel_name risk_patterns f, f)) findings.

Definition ranked (sel_name : string) (risk_patterns : list string)
  (findings : list Finding) : list Finding :=
  map snd (sort_desc (scored_of sel_name risk_patterns findings)).

End RankingSpec.

(* ------------------------------------------------------------------ *)
(** ** Failing queries *)
(* ------------------------------------------------------------------ *)

Module FailureSpec.

Import Solodit.


End FailureSpec.

(* ------------------------------------------------------------------ *)
(** ** Report post-processing *)
(* ------------------------------------------------------------------ *)

Module ReportSpec.

Import Scout.



(** One left-to-right pass deleting the double-quoted attributes, then one
    deleting the single-quoted ones. *)
Definition strip_styles (html : string) : string :=
  sub (style_re 39) (fun _ => "") (sub (style_re 34) (fun _ => "") html).



(** The characters [html.escape] replaces, the ampersand apart. *)
Definition is_markup (c : ascii) : bool :=
  (code c =? 60)%nat || (code c =? 62)%nat || (code c =? 34)%nat
  || (code c =? 39)%nat.

Definition nine_matched : list Matched :=
  map (fun i => mkMatched ("F" ++ str_of_nat i) "Issue" "Firm" "Proto" "HIGH" "")
      (seq 1 9).

End ReportSpec.

(* ------------------------------------------------------------------ *)
(** ** Observations of the analyzer *)
(* ------------------------------------------------------------------ *)

Module AnalyzerSpec.

Import Analyzer.

(** No pattern of a table matches the code. *)
Definition none_matches {L : Type} (table : list (regex * L)) (code : string) : Prop :=
  Forall (fun e => test (fst e) code = false) table.

(** The tag of an entry of the risk table. *)
Definition tag_of (e : regex * (string * list string)) : string := fst (snd e).

(** The confidence as a function of what it depends on: which of the three
    strings are set, the number of risk entries, whether a call was found. *)
Definition observed_confidence (name ftype ptype : bool) (n : nat) (calls : bool)
  : float :=
  let c := 0%float in
  let c := if name then (c + 0.1)%float else c in
  let c := if ftype then (c + 0.2)%float else c in
  let c := if ptype then (c + 0.3)%float else c in
  let c := if negb (n =? 0)%nat
           then (c + fmin (float_of_nat n * 0.1) 0.3)%float else c in
  let c := if calls then (c + 0.1)%float else c in
  fmin c 1%float.

(** Over every pair of risk counts up to 16: a larger count never lowers
    the confidence, for the given flags before and after. *)
Definition monotone_on_counts (a b c d a' b' c' d' : bool) : bool :=
  forallb (fun n1 =>
    forallb (fun n2 =>
      implb (n1 <=? n2)%nat
            (PrimFloat.leb (observed_confidence a b c n1 d)
                           (observed_confidence a' b' c' n2 d')))
      (seq 0 17))
    (seq 0 17).

(** A text made of word characters, at least one. *)
Definition identifier (s : string) : Prop :=
  s <> "" /\ MatchSpec.all_chars is_word s.

End AnalyzerSpec.

(* ------------------------------------------------------------------ *)
(** ** Queries and fetched findings *)
(* ------------------------------------------------------------------ *)

Module QuerySpec.

Import Solodit.

(** The entries of [l] at the positions where [mask] is true. *)
Fixpoint pick {A : Type} (mask : list bool) (l : list A) : list A :=
  match mask, l with
  | b :: mask', x :: l' => if b then x :: pick mask' l' else pick mask' l'
  | _, _ => []
  end.

(** The candidate queries of the scout report, before deduplication. *)
Definition scout_candidates (risks : list string) (function_type protocol_type : string)
  (ercs : list string) : list string :=
  let for_type :=
    if truthy function_type then [function_type ++ " vulnerability"] else [] in
  let for_protocol :=
    if truthy protocol_type then [protocol_type ++ " exploit"] else [] in
  let for_ercs := map (fun erc => erc ++ " vulnerability") ercs in
  (risks ++ for_type ++ for_protocol ++ for_ercs)%list.

(** The deduplication key of a finding in pitfall and fix-draft. *)
Definition key_of (f : Finding) : string := or_else (slug f) (title f).

(** [f] is among the findings a successful call for one of [queries]
    returned. *)
Definition fetched_by (search : search_fn) (quality page_size : Z)
  (queries : list string) (f : Finding) : Prop :=
  exists query findings,
    In query queries
    /\ search query quality page_size = Returned findings
    /\ In f findings.

(** What the fetch loop keeps true: the titles seen are those of the
    findings kept, which are pairwise distinct and were all fetched. *)
Definition fetch_invariant (search : search_fn) (size : Z) (queries : list string)
  (st : Scout.fetch_state) : Prop :=
  (forall t, In t (fst st) <-> In t (map title (snd st)))
  /\ NoDup (map title (snd st))
  /\ Forall (fetched_by search 3 size queries) (snd st).

(** What the search loop of pitfall and fix-draft keeps true: the keys seen
    are those of the scored findings, which are pairwise distinct and were
    all fetched. *)
Definition rank_invariant (search : search_fn) (size : Z) (queries : list string)
  (st : Server.rank_state) : Prop :=
  (forall k, In k (fst st) <-> In k (map key_of (map snd (snd st))))
  /\ NoDup (map key_of (map snd (snd st)))
  /\ Forall (fetched_by search 2 size queries) (map snd (snd st)).

End QuerySpec.

(* ------------------------------------------------------------------ *)
(** ** Trimmed text *)
(* ------------------------------------------------------------------ *)

Module TextSpec.

(** [s] has no whitespace at either end. *)
Definition trimmed (s : string) : Prop := strip s = s.

(** [s] is empty or starts with a character that is not whitespace. *)
Definition starts_clean (s : string) : Prop :=
  match s with
  | EmptyString => True
  | String c _ => is_space c = false
  end.

End TextSpec.


(* ------------------------------------------------------------------ *)
(** ** Termination of the stars *)
(* ------------------------------------------------------------------ *)

Module EngineSpec.

(** Every iteration of every star of [r] consumes a character, so that the
    matcher abandons none. *)
Fixpoint productive (r : regex) : bool :=
  match r with
  | Seq a b | Alt a b => productive a && productive b
  | Star a | LazyStar a => MatchSpec.consuming a && productive a
  | Group _ a | Ahead a => productive a
  | _ => true
  end.

(** The loops of the matcher on [r*] and [r*?], by name. *)
Definition star_loop (r1 : regex) (k : mstate -> option mstate)
  : nat -> mstate -> option mstate :=
  fix loop (fuel : nat) (st0 : mstate) {struct fuel} : option mstate :=
    match fuel with
    | O => k st0
    | S fuel' =>
        or_opt
          (rmatch r1 st0 (fun st1 =>
             if (pos st0 <? pos st1)%N then loop fuel' st1 else None))
          (k st0)
    end.

Definition lazy_loop (r1 : regex) (k : mstate -> option mstate)
  : nat -> mstate -> option mstate :=
  fix loop (fuel : nat) (st0 : mstate) {struct fuel} : option mstate :=
    match fuel with
    | O => k st0
    | S fuel' =>
        or_opt
          (k st0)
          (rmatch r1 st0 (fun st1 =>
             if (pos st0 <? pos st1)%N then loop fuel' st1 else None))
    end.

(** [r] can match from [st] up to a position where [t] is left. *)
Definition reaches (r : regex) (st : mstate) (t : string) : Prop :=
  exists st', MatchSpec.matches r st st' /\ rest st' = t.

End EngineSpec.

(* ------------------------------------------------------------------ *)
(** ** Fenced answers *)
(* ------------------------------------------------------------------ *)

Module FenceSpec.

Definition LF : string := chr 10.

(** A body wrapped in a markdown fence with a language tag. *)
Definition fenced (lang body : string) : string :=
  "```" ++ lang ++ LF ++ body ++ LF ++ "```".

End FenceSpec.

(* ------------------------------------------------------------------ *)
(** ** Environments *)
(* ------------------------------------------------------------------ *)

Module ConfigSpec.

(** The environment that sets exactly the listed variables. *)
Fixpoint env_of (bindings : list (string * string)) : Config.environ :=
  fun name =>
    match bindings with
    | [] => None
    | (k, v) :: rest => if String.eqb name k then Some v else env_of rest name
    end.

(** No key of any AI provider is set. *)
Definition no_ai_key (env : Config.environ) : Prop :=
  Config.has_env env "OPENROUTER_API_KEY" = false
  /\ Config.has_env env "GEMINI_API_KEY" = false
  /\ Config.has_env env "OPENAI_API_KEY" = false
  /\ Config.has_env env "ANTHROPIC_API_KEY" = false.

(** What [generate] does once the provider is accepted. *)
Definition routed (call : AIProvider.backend) (cfg : Config.Config)
  : AIProvider.generator :=
  fun system_prompt user_prompt temperature max_tokens =>
  (result <- call (Config.ai_provider cfg) (Config.ai_model cfg)
                  system_prompt user_prompt temperature max_tokens ;;
   Returned (AIProvider._strip_fences result))%py.

End ConfigSpec.

(* ------------------------------------------------------------------ *)
(** ** Letter case *)
(* ------------------------------------------------------------------ *)

Module CaseSpec.






End CaseSpec.

(* ------------------------------------------------------------------ *)
(** ** Words of a selection *)
(* ------------------------------------------------------------------ *)

Module SelectionSpec.

(** [r] matches wherever the next character satisfies [P]. *)
Definition fires (r : regex) (P : ascii -> bool) : Prop :=
  forall st c s', rest st = String c s' -> P c = true -> rmatch r st Some <> None.

Definition is_paren (c : ascii) : bool := (code c =? 40)%nat.

(** Neither whitespace nor an opening parenthesis. *)
Definition bare (c : ascii) : bool := negb (is_space c) && negb (is_paren c).

End SelectionSpec.

(* ------------------------------------------------------------------ *)
(** ** Answers of the endpoints *)
(* ------------------------------------------------------------------ *)

Module AnswerSpec.

Import Analyzer Endpoints.

(** The name the built-in draft is written for. *)
Definition draft_subject (selection surrounding_code : string) : string :=
  escape
    (or_else (function_name (request_context false selection surrounding_code))
       (or_else (selection_name (strip selection)) "selectedFunction")).

(** The identifiers F1, F2, ... of [n] references. *)
Definition reference_ids (n : nat) : list string :=
  map (fun i => "F" ++ str_of_nat i) (seq 1 n).

Definition not_quote (q : nat) (c : ascii) : bool := negb (code c =? q)%nat.

End AnswerSpec.

(* ------------------------------------------------------------------ *)
(** ** Parsed contracts *)
(* ------------------------------------------------------------------ *)

Module ContractSpec.

(** A character an import path may hold: no double quote, closing brace or
    semicolon. *)
Definition import_char (c : ascii) : bool :=
  negb ((code c =? 34)%nat || (code c =? 125)%nat || (code c =? 59)%nat).

End ContractSpec.

(* ------------------------------------------------------------------ *)
(** ** Keywords of the smart search *)
(* ------------------------------------------------------------------ *)

Module KeywordSpec.

Import Analyzer SmartSearch.



End KeywordSpec.

(* ------------------------------------------------------------------ *)
(** ** Lessons *)
(* ------------------------------------------------------------------ *)

Module LessonSpec.

Definition quoted (s : string) : string := DQ ++ s ++ DQ.

Definition option_div (index text : string) : string :=
  "<div class=" ++ quoted "quiz-option" ++ " data-index=" ++ quoted index ++ ">"
  ++ text ++ "</div>".

(** A question with three options whose answer the model gave as 2. *)
Definition sample_question : string :=
  "<div class=" ++ quoted "quiz-question" ++ " data-correct=" ++ quoted "2" ++ ">"
  ++ "<p>Q?</p>"
  ++ option_div "0" "a" ++ option_div "1" "b" ++ option_div "2" "c"
  ++ "</div>".

(** The number of option blocks the rewrite counts in a block. *)
Definition options_in (block : string) : Z :=
  Z.of_nat (List.length (finditer Lesson.option_block_re block)).

(** The lesson HTML once its empty code blocks are filled. *)
Definition code_fixed (html : string) : string :=
  sub Scout.empty_code_re
      (fun _ => "<pre><code>// Source snippet unavailable in finding body.</code></pre>")
      html.

End LessonSpec.
(* ================================================================== *)
(** * Properties *)
(* ================================================================== *)

(* ------------------------------------------------------------------ *)
(** ** The matcher *)
(* ------------------------------------------------------------------ *)

Section EngineFacts.

Import MatchSpec.

Lemma or_opt_some {A : Type} (a b : option A) (x : A) :
  or_opt a b = Some x -> a = Some x \/ (a = None /\ b = Some x).
Proof. destruct a; simpl; intros H; [left; exact H | right; auto]. Qed.

(** Every answer of the matcher is a match followed by the continuation. *)
Lemma rmatch_sound r :
  forall st k res,
    rmatch r st k = Some res ->
    exists st', matches r st st' /\ k st' = Some res.
Proof.
  induction r as [ | p | a IHa b IHb | a IHa b IHb | r IH | r IH | i r IH | r IH
                 | | | ]; intros st k res H; cbn [rmatch] in H.
  - exists st. split; [constructor | exact H].
  - destruct (rest st) as [|c s'] eqn:E; [discriminate|].
    destruct (p c) eqn:Ep; [|discriminate].
    exists (advance c s' st). split; [now constructor | exact H].
  - apply IHa in H. destruct H as (st1 & Ha & H).
    apply IHb in H. destruct H as (st2 & Hb & H).
    exists st2. split; [econstructor; eassumption | exact H].
  - apply or_opt_some in H. destruct H as [H|[_ H]].
    + apply IHa in H. destruct H as (st' & Ha & H).
      exists st'. split; [now apply m_alt_l | exact H].
    + apply IHb in H. destruct H as (st' & Hb & H).
      exists st'. split; [now apply m_alt_r | exact H].
  - revert H. generalize (String.length (rest st)) as fuel. intros fuel. revert st.
    induction fuel as [|fuel IHf]; intros st H.
    + exists st. split; [constructor | exact H].
    + apply or_opt_some in H. destruct H as [H|[_ H]].
      * apply IH in H. destruct H as (st1 & Hr & H).
        destruct (pos st <? pos st1)%N; [|discriminate].
        apply IHf in H. destruct H as (st2 & Hs & H).
        exists st2. split; [econstructor; eassumption | exact H].
      * exists st. split; [constructor | exact H].
  - revert H. generalize (String.length (rest st)) as fuel. intros fuel. revert st.
    induction fuel as [|fuel IHf]; intros st H.
    + exists st. split; [constructor | exact H].
    + apply or_opt_some in H. destruct H as [H|[_ H]].
      * exists st. split; [constructor | exact H].
      * apply IH in H. destruct H as (st1 & Hr & H).
        destruct (pos st <? pos st1)%N; [|discriminate].
        apply IHf in H. destruct H as (st2 & Hs & H).
        exists st2. split; [econstructor; eassumption | exact H].
  - apply IH in H. destruct H as (st1 & Hr & H).
    exists (capture i st st1). split; [now constructor | exact H].
  - destruct (rmatch r st Some) as [s|] eqn:E; [|discriminate].
    apply IH in E. destruct E as (st1 & Hr & _).
    exists st. split; [econstructor; eassumption | exact H].
  - destruct (at_line_start st) eqn:E; [|discriminate].
    exists st. split; [now constructor | exact H].
  - destruct (at_end st) eqn:E; [|discriminate].
    exists st. split; [now constructor | exact H].
  - destruct (xorb _ _) eqn:E; [|discriminate].
    exists st. split; [now constructor | exact H].
Qed.

Lemma append_assoc (a b c : string) : (a ++ b) ++ c = a ++ (b ++ c).
Proof. induction a as [|x a IH]; simpl; [reflexivity | now rewrite IH]. Qed.

Lemma length_append (a b : string) :
  String.length (a ++ b) = (String.length a + String.length b)%nat.
Proof. induction a as [|x a IH]; simpl; [reflexivity | now rewrite IH]. Qed.

Lemma consumed_refl st : consumed st st "".
Proof. split; [reflexivity | simpl; lia]. Qed.

Lemma consumed_trans st st1 st2 t1 t2 :
  consumed st st1 t1 -> consumed st1 st2 t2 -> consumed st st2 (t1 ++ t2).
Proof.
  intros [R1 P1] [R2 P2]. split.
  - rewrite R1, R2, append_assoc. reflexivity.
  - rewrite P2, P1, length_append. lia.
Qed.

Lemma matches_consumed r st st' :
  matches r st st' -> exists t, consumed st st' t.
Proof.
  induction 1 as
    [ st | p c s' st E Ep | a b st st1 st2 _ [t1 H1] _ [t2 H2]
    | a b st st' _ IH | a b st st' _ IH
    | r st | r st st1 st2 _ [t1 H1] _ [t2 H2]
    | r st | r st st1 st2 _ [t1 H1] _ [t2 H2]
    | i r st st1 _ [t H1] | r st st1 _ _ | st E | st E | st E ];
    try (exists ""; apply consumed_refl);
    try (exists (t1 ++ t2); eapply consumed_trans; eassumption);
    try exact IH.
  - exists (String c ""). split; [exact E | cbn; lia].
  - exists t. exact H1.
Qed.

Lemma take_exact (t u : string) : take (String.length t) (t ++ u) = t.
Proof. induction t as [|c t IH]; simpl; [destruct u; reflexivity | now rewrite IH]. Qed.

Lemma length_take n (s : string) : (String.length (take n s) <= String.length s)%nat.
Proof.
  revert s. induction n as [|n IH]; intros [|c s]; simpl; try lia.
  specialize (IH s). lia.
Qed.

(** What a group captures is the text its body consumed. *)
Lemma capture_text i st st1 t :
  consumed st st1 t -> groups (capture i st st1) = (i, t) :: groups st1.
Proof.
  intros [R P]. unfold capture. cbn [groups]. rewrite P, R.
  replace (N.to_nat (pos st + N.of_nat (String.length t) - pos st))
    with (String.length t) by lia.
  rewrite take_exact. reflexivity.
Qed.

End EngineFacts.

Section CaptureFacts.

Import MatchSpec.

Lemma all_chars_app q (a b : string) :
  all_chars q a -> all_chars q b -> all_chars q (a ++ b).
Proof. induction a as [|c a IH]; simpl; [auto | intros [H1 H2] Hb; auto]. Qed.

Lemma matches_only_chars q r st st' :
  matches r st st' -> only_chars q r ->
  groups st' = groups st /\ exists t, consumed st st' t /\ all_chars q t.
Proof.
  induction 1 as
    [ st | p c s' st E Ep | a b st st1 st2 _ IH1 _ IH2
    | a b st st' _ IH | a b st st' _ IH
    | r st | r st st1 st2 _ IH1 _ IH2
    | r st | r st st1 st2 _ IH1 _ IH2
    | i r st st1 _ _ | r st st1 _ _ | st E | st E | st E ];
    cbn [only_chars]; intros Hq;
    try (split; [reflexivity | exists ""; split; [apply consumed_refl | exact I]]).
  - split; [reflexivity|]. exists (String c ""). split; [split|split].
    + exact E.
    + cbn. lia.
    + apply Hq, Ep.
    + exact I.
  - destruct Hq as [Ha Hb]. destruct (IH1 Ha) as (G1 & t1 & C1 & A1).
    destruct (IH2 Hb) as (G2 & t2 & C2 & A2).
    split; [congruence|]. exists (t1 ++ t2).
    split; [eapply consumed_trans; eassumption | now apply all_chars_app].
  - apply IH, Hq.
  - apply IH, Hq.
  - destruct (IH1 Hq) as (G1 & t1 & C1 & A1).
    destruct (IH2 Hq) as (G2 & t2 & C2 & A2).
    split; [congruence|]. exists (t1 ++ t2).
    split; [eapply consumed_trans; eassumption | now apply all_chars_app].
  - destruct (IH1 Hq) as (G1 & t1 & C1 & A1).
    destruct (IH2 Hq) as (G2 & t2 & C2 & A2).
    split; [congruence|]. exists (t1 ++ t2).
    split; [eapply consumed_trans; eassumption | now apply all_chars_app].
  - destruct Hq.
Qed.

Lemma matches_advances r st st' :
  matches r st st' ->
  (pos st <= pos st')%N /\ (consuming r = true -> (pos st < pos st')%N).
Proof.
  induction 1 as
    [ st | p c s' st E Ep | a b st st1 st2 _ [L1 S1] _ [L2 S2]
    | a b st st' _ [L S] | a b st st' _ [L S]
    | r st | r st st1 st2 _ [L1 S1] _ [L2 S2]
    | r st | r st st1 st2 _ [L1 S1] _ [L2 S2]
    | i r st st1 _ [L S] | r st st1 _ _ | st E | st E | st E ];
    cbn [consuming pos advance capture];
    try (split; [lia | discriminate]).
  - split; [lia | intros _; lia].
  - split; [lia|]. intros H. apply orb_true_iff in H. destruct H as [H|H].
    + specialize (S1 H). lia.
    + specialize (S2 H). lia.
  - split; [exact L|]. intros H. apply andb_true_iff in H. apply S, H.
  - split; [exact L|]. intros H. apply andb_true_iff in H. apply S, H.
  - split; [exact L | exact S].
Qed.

Lemma group_capture_same i st st1 t :
  consumed st st1 t -> group (capture i st st1) i = t.
Proof.
  intros C. unfold group. rewrite (capture_text i st st1 t C).
  cbn [lookup_group]. now rewrite Nat.eqb_refl.
Qed.

Lemma group_capture_other i j st st1 :
  i <> j -> group (capture j st st1) i = group st1 i.
Proof.
  intros N. unfold group, capture. cbn [groups lookup_group].
  destruct (Nat.eqb_spec i j); [contradiction | reflexivity].
Qed.

Lemma good_of_capture q i st st1 r :
  matches r st st1 -> only_chars q r -> consuming r = true ->
  good q i (capture i st st1).
Proof.
  intros M Hq Hc.
  destruct (matches_only_chars q r st st1 M Hq) as (_ & t & C & A).
  destruct (matches_advances r st st1 M) as [_ S]. specialize (S Hc).
  unfold good. rewrite (group_capture_same i st st1 t C). split; [|exact A].
  destruct C as [_ P]. intros ->. cbn in P. lia.
Qed.

(** A match keeps group [i] good. *)
Lemma good_preserved q i r st st' :
  matches r st st' -> captures_only i q r -> good q i st -> good q i st'.
Proof.
  induction 1 as
    [ st | p c s' st E Ep | a b st st1 st2 _ IH1 _ IH2
    | a b st st' _ IH | a b st st' _ IH
    | r st | r st st1 st2 _ IH1 _ IH2
    | r st | r st st1 st2 _ IH1 _ IH2
    | j r st st1 M IH | r st st1 _ _ | st E | st E | st E ];
    cbn [captures_only]; intros Hc Hg; try exact Hg.
  - destruct Hc. auto.
  - apply IH; [apply Hc | exact Hg].
  - apply IH; [apply Hc | exact Hg].
  - auto.
  - auto.
  - destruct (Nat.eqb_spec i j) as [->|N].
    + destruct Hc as [Hq Hn]. eapply good_of_capture; eassumption.
    + unfold good. rewrite (group_capture_other i j st st1 N). now apply IH.
Qed.

(** A match that must go through group [i] leaves it good. *)
Lemma good_established q i r st st' :
  matches r st st' -> captures_only i q r -> must_set i r = true -> good q i st'.
Proof.
  induction 1 as
    [ st | p c s' st E Ep | a b st st1 st2 M1 IH1 M2 IH2
    | a b st st' _ IH | a b st st' _ IH
    | r st | r st st1 st2 _ IH1 _ IH2
    | r st | r st st1 st2 _ IH1 _ IH2
    | j r st st1 M IH | r st st1 _ _ | st E | st E | st E ];
    cbn [captures_only must_set]; intros Hc Hm; try discriminate Hm.
  - destruct Hc as [Ha Hb]. apply orb_true_iff in Hm. destruct Hm as [Hm|Hm].
    + eapply good_preserved; [exact M2 | exact Hb | now apply IH1].
    + now apply IH2.
  - apply andb_true_iff in Hm. apply IH; [apply Hc | apply Hm].
  - apply andb_true_iff in Hm. apply IH; [apply Hc | apply Hm].
  - destruct (Nat.eqb_spec i j) as [->|N].
    + destruct Hc as [Hq Hn]. eapply good_of_capture; eassumption.
    + unfold good. rewrite (group_capture_other i j st st1 N).
      cbn [orb] in Hm. now apply IH.
Qed.

Lemma matches_bounded n r st st' :
  matches r st st' -> bounded n st -> bounded n st'.
Proof.
  induction 1 as
    [ st | p c s' st E Ep | a b st st1 st2 _ IH1 _ IH2
    | a b st st' _ IH | a b st st' _ IH
    | r st | r st st1 st2 _ IH1 _ IH2
    | r st | r st st1 st2 _ IH1 _ IH2
    | j r st st1 M IH | r st st1 _ _ | st E | st E | st E ];
    intros Hb; auto.
  - destruct Hb as [Hr Hg]. split; [|exact Hg].
    cbn [advance rest]. rewrite E in Hr. cbn in Hr. lia.
  - destruct (IH Hb) as [Hr Hg]. destruct Hb as [Hr0 _].
    split; [exact Hr|]. cbn [capture groups]. constructor; [|exact Hg].
    cbn [snd]. pose proof (length_take (N.to_nat (pos st1 - pos st)) (rest st)). lia.
Qed.

Lemma group_bounded n st i : bounded n st -> (String.length (group st i) <= n)%nat.
Proof.
  intros [_ Hg]. unfold group. induction Hg as [|[j t] gs Ht _ IH]; cbn [lookup_group].
  - simpl. lia.
  - destruct (i =? j)%nat; [exact Ht | exact IH].
Qed.

(** A found match started from a position of the subject with no group set. *)
Lemma search_from_start r p pv s g st :
  search_from r p pv s = Some (Found g st) ->
  exists st0, groups st0 = [] /\ (String.length (rest st0) <= String.length s)%nat
              /\ matches r st0 st.
Proof.
  revert p pv g. induction s as [|c s IH]; intros p pv g H; cbn [search_from] in H.
  - destruct (rmatch r (MState p pv "" []) Some) as [st1|] eqn:E; [|discriminate].
    inversion H; subst. apply rmatch_sound in E. destruct E as (st' & M & E).
    inversion E; subst. eexists.
    split; [|split; [|exact M]]; [reflexivity | simpl; lia].
  - destruct (rmatch r (MState p pv (String c s) []) Some) as [st1|] eqn:E.
    + inversion H; subst. apply rmatch_sound in E. destruct E as (st' & M & E).
      inversion E; subst. eexists.
      split; [|split; [|exact M]]; [reflexivity | simpl; lia].
    + destruct (search_from r (p + 1) (Some c) s) as [[g1 st1]|] eqn:E1;
        [|discriminate].
      inversion H; subst. apply IH in E1. destruct E1 as (st0 & G & L & M).
      exists st0. split; [exact G | split; [simpl; lia | exact M]].
Qed.

Lemma finditer_from_starts n r fuel :
  forall p pv s,
    (String.length s <= n)%nat ->
    Forall (fun st => exists st0, groups st0 = []
                        /\ (String.length (rest st0) <= n)%nat /\ matches r st0 st)
           (finditer_from fuel r p pv s).
Proof.
  induction fuel as [|fuel IH]; intros p pv s Hs; cbn [finditer_from]; [constructor|].
  destruct (search_from r p pv s) as [[g st]|] eqn:E; [|constructor].
  destruct (search_from_start r p pv s g st E) as (st0 & G & L & M).
  assert (Hrest : (String.length (rest st) <= n)%nat).
  { destruct (matches_consumed r st0 st M) as (t & R & _).
    rewrite R, length_append in L. lia. }
  constructor.
  - exists st0. split; [exact G | split; [lia | exact M]].
  - destruct (_ <? _)%N.
    + apply IH. exact Hrest.
    + destruct (rest st) as [|c s'] eqn:Er; [constructor|].
      apply IH. simpl in Hrest. lia.
Qed.

End CaptureFacts.

Section SearchFacts.

Import MatchSpec.

(** [search_from] answers with the first position at which the matcher
    succeeds, and with the matcher's answer there. *)
Lemma search_from_leftmost r s :
  forall p pv g st,
    search_from r p pv s = Some (Found g st) ->
    (String.length g <= String.length s)%nat
    /\ rmatch r (state_at p pv s (String.length g)) Some = Some st
    /\ forall k, (k < String.length g)%nat ->
                 rmatch r (state_at p pv s k) Some = None.
Proof.
  induction s as [|c s IH]; intros p pv g st H; cbn [search_from] in H.
  - destruct (rmatch r (MState p pv "" []) Some) as [st1|] eqn:E; [|discriminate].
    inversion H; subst. cbn. repeat split; [lia | exact E | intros k Hk; lia].
  - destruct (rmatch r (MState p pv (String c s) []) Some) as [st1|] eqn:E.
    + inversion H; subst. cbn. repeat split; [lia | exact E | intros k Hk; lia].
    + destruct (search_from r (p + 1) (Some c) s) as [[g1 st1]|] eqn:E1;
        [|discriminate].
      inversion H; subst. destruct (IH _ _ _ _ E1) as (L & M & N).
      cbn [String.length state_at]. repeat split; [lia | exact M |].
      intros [|k] Hk; [exact E | apply N; lia].
Qed.

Lemma search_from_none r s :
  forall p pv k,
    search_from r p pv s = None -> rmatch r (state_at p pv s k) Some = None.
Proof.
  induction s as [|c s IH]; intros p pv k H; cbn [search_from] in H.
  - destruct (rmatch r (MState p pv "" []) Some) eqn:E; [discriminate|].
    destruct k; exact E.
  - destruct (rmatch r (MState p pv (String c s) []) Some) eqn:E; [discriminate|].
    destruct (search_from r (p + 1) (Some c) s) as [[g1 st1]|] eqn:E1;
      [discriminate|].
    destruct k as [|k]; [exact E | apply IH, E1].
Qed.

End SearchFacts.

(* ------------------------------------------------------------------ *)
(** ** Quiz answer normalisation *)
(* ------------------------------------------------------------------ *)

Section NormalizeFacts.

Import Learning MatchSpec NormalizeSpec.

Lemma py_max_is_max (a b : Z) : py_max a b = Z.max a b.
Proof. unfold py_max. destruct (Z.ltb_spec a b); lia. Qed.

Lemma py_min_is_min (a b : Z) : py_min a b = Z.min a b.
Proof. unfold py_min. destruct (Z.ltb_spec b a); lia. Qed.

(** Whatever the inputs, the normalised index of a non-empty option list
    is a valid position in it. *)
Lemma normalize_in_range (raw n : Z) (block_html explanation_html : string) :
  (0 < n)%Z ->
  (0 <= _normalize_correct_index raw n block_html explanation_html < n)%Z.
Proof.
  intros Hn. unfold _normalize_correct_index.
  destruct (Z.leb_spec n 0); [lia|].
  assert (Hfb : (0 <=
     (if (1 <=? raw)%Z && (raw <=? n)%Z then raw - 1
      else if (0 <=? raw)%Z && (raw <? n)%Z then raw
      else py_max 0 (py_min raw (n - 1))) < n)%Z).
  { rewrite py_max_is_max, py_min_is_min.
    destruct (Z.leb_spec 1 raw), (Z.leb_spec raw n), (Z.leb_spec 0 raw),
      (Z.ltb_spec raw n); simpl; lia. }
  destruct (search letter_re _) as [m|]; [|exact Hfb].
  set (idx := letter_index _).
  destruct (Z.leb_spec 0 idx), (Z.ltb_spec idx n); simpl; try exact Hfb; lia.
Qed.

(** Examples of the specification (section 8, property 2). *)
Example normalize_one_based : _normalize_correct_index 2 4 "" "" = 1%Z.
Proof. reflexivity. Qed.

Example normalize_letter_over_raw :
  _normalize_correct_index 0 4 "<div class='quiz-explanation'>Answer: C</div>"
                           "Answer: C" = 2%Z.
Proof. vm_compute. reflexivity. Qed.

Example normalize_no_options (raw : Z) (b e : string) :
  _normalize_correct_index raw 0 b e = 0%Z.
Proof. reflexivity. Qed.

(** The hint keyword may also be [correct], the separator a dash, and the
    letter lower-case; the letter need not stand alone. *)
Example normalize_correct_dash :
  _normalize_correct_index 1 4 "correct - b" "" = 1%Z
  /\ _normalize_correct_index 4 4 "The correct-answer is shown" "" = 0%Z.
Proof. split; vm_compute; reflexivity. Qed.

(** The hint that is read is the leftmost one: the matcher fails at every
    position before the one where the hint starts. *)
Lemma first_hint_is_leftmost (block_html explanation_html : string) (m : mstate) :
  search letter_re (block_html ++ " " ++ explanation_html) = Some m ->
  exists k,
    rmatch letter_re
      (state_at 0 None (block_html ++ " " ++ explanation_html) k) Some = Some m
    /\ forall j, (j < k)%nat ->
         rmatch letter_re
           (state_at 0 None (block_html ++ " " ++ explanation_html) j) Some = None.
Proof.
  unfold search. intros H.
  destruct (search_from letter_re 0 None (block_html ++ " " ++ explanation_html))
    as [[g st]|] eqn:E; [|discriminate H].
  cbn in H. inversion H; subst.
  destruct (search_from_leftmost _ _ _ _ _ _ E) as (_ & Hm & Hnone).
  exists (String.length g). split; assumption.
Qed.




End NormalizeFacts.

(* ------------------------------------------------------------------ *)
(** ** The code analyzer *)
(* ------------------------------------------------------------------ *)

Section AnalyzerFacts.

Import Analyzer ConfidenceSpec CodeExamples.

Lemma collect_risks_length table code acc :
  (List.length (collect_risks table code acc)
   <= List.length acc + List.length table)%nat.
Proof.
  revert acc. induction table as [|[pattern [tag kws]] table IH]; intros acc; simpl.
  - lia.
  - destruct (test pattern code).
    + specialize (IH (acc ++ [tag])%list). rewrite length_app in IH. simpl in IH. lia.
    + specialize (IH acc). lia.
Qed.

Lemma risk_patterns_at_most_16 code :
  (List.length (risk_patterns (analyze code)) <= 16)%nat.
Proof. exact (collect_risks_length RISK_PATTERNS code []). Qed.

(** The code's running sum, on the five observations. *)
Lemma confidence_of_observed name ftype ptype risks calls :
  confidence_of name ftype ptype risks calls
  = let c := 0%float in
    let c := if truthy name then (c + 0.1)%float else c in
    let c := if truthy ftype then (c + 0.2)%float else c in
    let c := if truthy ptype then (c + 0.3)%float else c in
    let c := if negb (List.length risks =? 0)%nat
             then (c + fmin (float_of_nat (List.length risks) * 0.1) 0.3)%float
             else c in
    let c := if nonempty calls then (c + 0.1)%float else c in
    fmin c 1%float.
Proof. unfold confidence_of. destruct risks, calls; reflexivity. Qed.

(** All 2 * 2 * 2 * 17 * 2 combinations of observations, by evaluation in
    binary64: the running sum clamped at 1.0 is the clamped additive score,
    and lies between 0 and 1. *)
Lemma confidence_table (name ftype ptype calls : bool) (n : nat) :
  (n <= 16)%nat ->
  let c := 0%float in
  let c := if name then (c + 0.1)%float else c in
  let c := if ftype then (c + 0.2)%float else c in
  let c := if ptype then (c + 0.3)%float else c in
  let c := if negb (n =? 0)%nat
           then (c + fmin (float_of_nat n * 0.1) 0.3)%float else c in
  let c := if calls then (c + 0.1)%float else c in
  fmin c 1%float = fmin (score_of name ftype ptype n calls) 1%float
  /\ PrimFloat.leb 0%float (fmin c 1%float) = true
  /\ PrimFloat.leb (fmin c 1%float) 1%float = true.
Proof.
  intros Hn.
  destruct name, ftype, ptype, calls;
    do 17 (destruct n as [|n]; [vm_compute; repeat split; reflexivity|]);
    exfalso; lia.
Qed.

Example analyze_deposit_function :
  analyze deposit_function
  = mkCodeContext "deposit" "deposit" "" ["Reentrancy"; "Balance Accounting"]
                  ["token.transferFrom"] 0.6%float.
Proof. vm_compute. reflexivity. Qed.

Example confidence_of_empty_input : confidence (analyze "") = 0%float.
Proof. vm_compute. reflexivity. Qed.

(** The clamp is needed: in binary64 the five terms add up to more than 1. *)
Example confidence_sum_exceeds_one :
  PrimFloat.ltb 1%float (score_of true true true 3 true) = true.
Proof. vm_compute. reflexivity. Qed.

(** C2: for every input, the confidence is min(1.0, s) for the additive
    score s (+0.1 name, +0.2 type, +0.3 protocol, +min(0.1 * risk entries,
    0.3) when a risk pattern matched, +0.1 external calls), it lies in
    [0, 1], and it is exactly 0.0 when no field is set. *)
Theorem C2_confidence_additive_clamped (code : string) :
  let ctx := analyze code in
  confidence ctx = fmin (additive_score ctx) 1%float
  /\ PrimFloat.leb 0%float (confidence ctx) = true
  /\ PrimFloat.leb (confidence ctx) 1%float = true
  /\ (function_name ctx = "" /\ function_type ctx = "" /\ protocol_type ctx = ""
      /\ risk_patterns ctx = [] /\ external_calls ctx = []
      -> confidence ctx = 0%float).
Proof.
  intros ctx.
  assert (Hc : confidence ctx
               = confidence_of (function_name ctx) (function_type ctx)
                   (protocol_type ctx) (risk_patterns ctx) (external_calls ctx))
    by reflexivity.
  pose proof (risk_patterns_at_most_16 code) as Hlen. fold ctx in Hlen.
  rewrite Hc, confidence_of_observed.
  pose proof (confidence_table (truthy (function_name ctx))
                (truthy (function_type ctx)) (truthy (protocol_type ctx))
                (nonempty (external_calls ctx))
                (List.length (risk_patterns ctx)) Hlen) as (Heq & Hlo & Hhi).
  cbv zeta in *.
  repeat split.
  - rewrite Heq. unfold additive_score, score_of.
    destruct (risk_patterns ctx); reflexivity.
  - exact Hlo.
  - exact Hhi.
  - intros (H1 & H2 & H3 & H4 & H5). rewrite H1, H2, H3, H4, H5. reflexivity.
Qed.

(** C3: the list is not duplicate-free.  A snippet that makes a low-level
    call and a token transfer matches two patterns of the risk table that
    both carry the tag Reentrancy, and the tag is appended once for each. *)
Theorem C3_risk_patterns_repeat_tag :
  risk_patterns (analyze pull_then_pay) = ["Reentrancy"; "Reentrancy"]
  /\ ~ NoDup (risk_patterns (analyze pull_then_pay)).
Proof.
  assert (E : risk_patterns (analyze pull_then_pay) = ["Reentrancy"; "Reentrancy"])
    by (vm_compute; reflexivity).
  split; [exact E|].
  rewrite E. intros H. inversion H as [|x l Hin Hnd]; subst.
  apply Hin. left. reflexivity.
Qed.

End AnalyzerFacts.

(* ------------------------------------------------------------------ *)
(** ** ERC detection *)
(* ------------------------------------------------------------------ *)

Section ErcFacts.

Import Scout CodeExamples.





Example one_sub_pattern_is_not_enough :
  ercs_detected (_parse_contract "function totalSupply() view returns (uint256);") = [].
Proof. vm_compute. reflexivity. Qed.


End ErcFacts.

(* ------------------------------------------------------------------ *)
(** ** Relevance scoring *)
(* ------------------------------------------------------------------ *)

Section RelevanceFacts.

Import Solodit Server RelevanceSpec.






End RelevanceFacts.

(* ------------------------------------------------------------------ *)
(** ** Ranking *)
(* ------------------------------------------------------------------ *)

Section RankingFacts.

Import Solodit Server RankingSpec.

Context {A : Type}.

Lemma place_perm (x : Z * A) l : Permutation (place x l) (x :: l).
Proof.
  induction l as [|y l IH]; simpl; [reflexivity|].
  destruct (fst y <=? fst x)%Z; [reflexivity|].
  rewrite IH. apply perm_swap.
Qed.

Lemma sort_desc_perm (l : list (Z * A)) : Permutation (sort_desc l) l.
Proof.
  induction l as [|x l IH]; simpl; [reflexivity|].
  rewrite place_perm. now constructor.
Qed.

Lemma place_sorted (x : Z * A) l :
  StronglySorted desc l -> StronglySorted desc (place x l).
Proof.
  induction 1 as [|y l Hs IH Hall]; simpl.
  - repeat constructor.
  - destruct (Z.leb_spec (fst y) (fst x)) as [Hle|Hgt].
    + constructor; [constructor; assumption|].
      constructor; [exact Hle|].
      eapply Forall_impl; [|exact Hall]. unfold desc. intros e He. lia.
    + constructor; [exact IH|].
      rewrite (place_perm x l). constructor; [unfold desc; lia | exact Hall].
Qed.

Lemma sort_desc_sorted (l : list (Z * A)) : StronglySorted desc (sort_desc l).
Proof.
  induction l as [|x l IH]; simpl; [constructor | now apply place_sorted].
Qed.

(** Placing an entry leaves every equal-key class in its order, with the
    new entry in front of its own class. *)
Lemma place_stable v (x : Z * A) l :
  filter (with_key v) (place x l) = filter (with_key v) (x :: l).
Proof.
  induction l as [|y l IH]; [reflexivity|].
  cbn [place]. destruct (Z.leb_spec (fst y) (fst x)) as [Hle|Hgt]; [reflexivity|].
  cbn [filter] in *. rewrite IH. unfold with_key.
  destruct (Z.eqb_spec (fst x) v), (Z.eqb_spec (fst y) v); try reflexivity; lia.
Qed.

Lemma sort_desc_stable v (l : list (Z * A)) :
  filter (with_key v) (sort_desc l) = filter (with_key v) l.
Proof.
  induction l as [|x l IH]; [reflexivity|].
  cbn [sort_desc fold_right]. fold (sort_desc l).
  rewrite place_stable. cbn [filter]. now rewrite IH.
Qed.

Lemma filter_head_in v (l : list (Z * A)) e rest0 :
  filter (with_key v) l = e :: rest0 -> In e l /\ fst e = v.
Proof.
  intros H.
  assert (Hin : In e (filter (with_key v) l)) by (rewrite H; left; reflexivity).
  apply filter_In in Hin. destruct Hin as [Hin Hk].
  split; [exact Hin|]. unfold with_key in Hk. lia.
Qed.

Lemma filter_own_key (y : Z * A) l :
  filter (with_key (fst y)) (y :: l) = y :: filter (with_key (fst y)) l.
Proof.
  cbn [filter]. assert (with_key (fst y) y = true) as -> by apply Z.eqb_refl.
  reflexivity.
Qed.

(** Two descending lists with the same equal-key classes, in the same
    order, are the same list: a stable descending sort has one result. *)
Lemma sorted_stable_unique (l1 l2 : list (Z * A)) :
  StronglySorted desc l1 -> StronglySorted desc l2 ->
  (forall v, filter (with_key v) l1 = filter (with_key v) l2) ->
  l1 = l2.
Proof.
  intros H1. revert l2.
  induction H1 as [|x l1 Hs1 IH Hall1]; intros l2 H2 Hf.
  - destruct l2 as [|y l2]; [reflexivity|].
    specialize (Hf (fst y)). rewrite filter_own_key in Hf. discriminate Hf.
  - destruct l2 as [|y l2].
    + specialize (Hf (fst x)). rewrite filter_own_key in Hf. discriminate Hf.
    + inversion H2 as [|y' l2' Hs2 Hall2]; subst.
      assert (Hxy : (fst x <= fst y)%Z).
      { pose proof (Hf (fst x)) as E. rewrite filter_own_key in E. symmetry in E.
        apply filter_head_in in E. destruct E as [[E|E] _].
        - subst; lia.
        - rewrite Forall_forall in Hall2. apply Hall2 in E. exact E. }
      assert (Hyx : (fst y <= fst x)%Z).
      { pose proof (Hf (fst y)) as E. rewrite (filter_own_key y) in E.
        apply filter_head_in in E. destruct E as [[E|E] _].
        - subst; lia.
        - rewrite Forall_forall in Hall1. apply Hall1 in E. exact E. }
      assert (Hk : fst x = fst y) by lia.
      pose proof (Hf (fst x)) as E. rewrite filter_own_key in E.
      rewrite Hk, filter_own_key in E. inversion E; subst.
      f_equal. apply IH; [exact Hs2|].
      intros v. specialize (Hf v). cbn [filter] in Hf.
      destruct (with_key v y); [inversion Hf; reflexivity | exact Hf].
Qed.

End RankingFacts.

Section RankingOfFindings.

Import Solodit Server RankingSpec.

Variable sel_name : string.
Variable risk_patterns : list string.

Lemma filter_scored_of v findings :
  map snd (filter (with_key v) (scored_of sel_name risk_patterns findings))
  = filter (fun f => (score sel_name risk_patterns f =? v)%Z) findings.
Proof.
  induction findings as [|f fs IH]; [reflexivity|].
  cbn [scored_of map filter]. unfold with_key at 1. cbn [fst].
  destruct (score sel_name risk_patterns f =? v)%Z; cbn [map];
    fold (scored_of sel_name risk_patterns fs); now rewrite IH.
Qed.

Lemma entries_carry_scores (l l' : list (Z * Finding)) :
  Permutation l' l ->
  Forall (fun e => fst e = score sel_name risk_patterns (snd e)) l ->
  Forall (fun e => fst e = score sel_name risk_patterns (snd e)) l'.
Proof.
  intros Hp Hl. rewrite Forall_forall in *. intros e He.
  apply Hl. eapply Permutation_in; eassumption.
Qed.

Lemma scored_of_carries findings :
  Forall (fun e => fst e = score sel_name risk_patterns (snd e))
         (scored_of sel_name risk_patterns findings).
Proof.
  unfold scored_of. rewrite Forall_map. apply Forall_forall. reflexivity.
Qed.

Lemma filter_map_snd v (l : list (Z * Finding)) :
  Forall (fun e => fst e = score sel_name risk_patterns (snd e)) l ->
  filter (fun f => (score sel_name risk_patterns f =? v)%Z) (map snd l)
  = map snd (filter (with_key v) l).
Proof.
  induction 1 as [|e l He Hl IH]; [reflexivity|].
  cbn [map filter]. unfold with_key at 1. rewrite He.
  destruct (score sel_name risk_patterns (snd e) =? v)%Z; cbn [map]; now rewrite IH.
Qed.

(** Every run of the search loop yields entries (score of f, f). *)
Lemma search_query_carries search page_size st query st' :
  Forall (fun e => fst e = score sel_name risk_patterns (snd e)) (snd st) ->
  search_query search page_size sel_name risk_patterns st query = Returned st' ->
  Forall (fun e => fst e = score sel_name risk_patterns (snd e)) (snd st').
Proof.
  intros Hst. unfold search_query, try_except, bind.
  destruct (search query 2%Z page_size) as [findings|e]; intros H; inversion H; subst;
    [|exact Hst].
  clear H. revert st Hst. induction findings as [|f fs IH]; intros st Hst; [exact Hst|].
  cbn [fold_left]. apply IH. unfold score_finding. destruct st as [seen scored].
  destruct (mem _ seen); [exact Hst|]. cbn [snd] in *.
  apply Forall_app. split; [exact Hst|]. repeat constructor.
Qed.

Lemma collect_scored_carries search page_size max_queries queries scored :
  collect_scored search page_size max_queries sel_name risk_patterns queries
  = Returned scored ->
  Forall (fun e => fst e = score sel_name risk_patterns (snd e)) scored.
Proof.
  unfold collect_scored.
  generalize (firstn max_queries queries) as qs.
  assert (G : forall qs st st',
    Forall (fun e => fst e = score sel_name risk_patterns (snd e)) (snd st) ->
    for_each (search_query search page_size sel_name risk_patterns) qs st
    = Returned st' ->
    Forall (fun e => fst e = score sel_name risk_patterns (snd e)) (snd st')).
  { induction qs as [|q qs IH]; intros st st' Hst H; cbn [for_each] in H.
    - inversion H; subst. exact Hst.
    - unfold bind in H at 1.
      destruct (search_query _ _ _ _ st q) as [st1|e] eqn:E; [|discriminate H].
      eapply IH; [|exact H]. eapply search_query_carries; eassumption. }
  intros qs H. unfold bind in H.
  destruct (for_each _ qs _) as [st'|e] eqn:E; inversion H; subst.
  eapply G; [|exact E]. constructor.
Qed.

Lemma carried_is_scored_of (l : list (Z * Finding)) :
  Forall (fun e => fst e = score sel_name risk_patterns (snd e)) l ->
  l = scored_of sel_name risk_patterns (map snd l).
Proof.
  induction 1 as [|[z f] l He Hl IH]; [reflexivity|].
  cbn [map scored_of snd] in *. cbn [fst snd] in He.
  fold (scored_of sel_name risk_patterns (map snd l)). now rewrite <- IH, He.
Qed.

(** What [pitfall] and [fix_draft] keep is the head of the ranking of the
    deduplicated findings, in first-seen order. *)
Lemma kept_findings_are_top_ranked search page_size max_queries keep queries scored :
  collect_scored search page_size max_queries sel_name risk_patterns queries
  = Returned scored ->
  map snd (firstn keep (sort_desc scored))
  = firstn keep (ranked sel_name risk_patterns (map snd scored)).
Proof.
  intros H. apply collect_scored_carries in H.
  unfold ranked. rewrite <- (carried_is_scored_of scored H).
  symmetry. apply firstn_map.
Qed.

(** C6: ranking a list of findings by descending relevance score is a
    function of the list, the selection name and the context; its result is
    a rearrangement of the list in descending score order in which findings
    of equal score keep their first-seen relative order, and it is the only
    such rearrangement.  The findings pitfall and fix_draft return are the
    first 5, respectively 3, of this ranking of the deduplicated findings. *)
Theorem C6_ranking_stable_and_determined (findings : list Finding) :
  (forall search queries kept,
      pitfall_findings search sel_name risk_patterns queries = Returned kept ->
      exists scored,
        collect_scored search 4 6 sel_name risk_patterns queries = Returned scored
        /\ kept = firstn 5 (ranked sel_name risk_patterns (map snd scored)))
  /\ (forall search queries kept,
      fix_draft_findings search sel_name risk_patterns queries = Returned kept ->
      exists scored,
        collect_scored search 3 5 sel_name risk_patterns queries = Returned scored
        /\ kept = firstn 3 (ranked sel_name risk_patterns (map snd scored)))
  /\ Permutation (ranked sel_name risk_patterns findings) findings
  /\ StronglySorted
       (fun a b => (score sel_name risk_patterns b <= score sel_name risk_patterns a)%Z)
       (ranked sel_name risk_patterns findings)
  /\ (forall v, filter (fun f => (score sel_name risk_patterns f =? v)%Z)
                       (ranked sel_name risk_patterns findings)
                = filter (fun f => (score sel_name risk_patterns f =? v)%Z) findings)
  /\ (forall other : list (Z * Finding),
        StronglySorted desc other ->
        (forall v, filter (with_key v) other
                   = filter (with_key v) (scored_of sel_name risk_patterns findings)) ->
        map snd other = ranked sel_name risk_patterns findings).
Proof.
  pose proof (sort_desc_perm (scored_of sel_name risk_patterns findings)) as Hperm.
  pose proof (sort_desc_sorted (scored_of sel_name risk_patterns findings)) as Hsorted.
  pose proof (entries_carry_scores _ _ Hperm (scored_of_carries findings)) as Hc.
  split; [|split; [|split; [|split; [|split]]]].
  - intros search queries kept H. unfold pitfall_findings, bind in H.
    destruct (collect_scored search 4 6 sel_name risk_patterns queries)
      as [scored|e] eqn:E; [|discriminate H].
    exists scored. split; [reflexivity|].
    rewrite <- (kept_findings_are_top_ranked _ _ _ 5 _ _ E). congruence.
  - intros search queries kept H. unfold fix_draft_findings, bind in H.
    destruct (collect_scored search 3 5 sel_name risk_patterns queries)
      as [scored|e] eqn:E; [|discriminate H].
    exists scored. split; [reflexivity|].
    rewrite <- (kept_findings_are_top_ranked _ _ _ 3 _ _ E). congruence.
  - unfold ranked. rewrite Hperm. unfold scored_of. rewrite map_map. cbn [snd].
    rewrite map_id. reflexivity.
  - unfold ranked. revert Hsorted Hc.
    generalize (sort_desc (scored_of sel_name risk_patterns findings)) as l.
    induction 1 as [|e l Hs IH Hall]; intros Hc; cbn [map]; [constructor|].
    inversion Hc as [|e' l' He Hl]; subst.
    constructor; [apply IH; exact Hl|].
    rewrite Forall_map. rewrite Forall_forall in *. intros e2 H2.
    specialize (Hall e2 H2). specialize (Hl e2 H2). unfold desc in Hall.
    rewrite <- He, <- Hl. exact Hall.
  - intros v. unfold ranked. rewrite (filter_map_snd v _ Hc).
    rewrite sort_desc_stable. apply filter_scored_of.
  - intros other Hso Hst. unfold ranked. f_equal.
    apply sorted_stable_unique; [exact Hso | exact Hsorted |].
    intros v. rewrite sort_desc_stable. apply Hst.
Qed.

End RankingOfFindings.

(* ------------------------------------------------------------------ *)
(** ** Report post-processing *)
(* ------------------------------------------------------------------ *)

Section ReportFacts.

Import Scout MatchSpec ReportSpec.


Lemma starts_with_prefix (p b : string) : starts_with p (p ++ b) = true.
Proof.
  induction p as [|c p IH]; simpl; [reflexivity|].
  now rewrite Ascii.eqb_refl, IH.
Qed.

Lemma starts_with_app (p a b : string) :
  starts_with p a = true -> starts_with p (a ++ b) = true.
Proof.
  revert a. induction p as [|c p IH]; intros a; [reflexivity|].
  destruct a as [|d a]; simpl; [discriminate|].
  intros H. apply andb_true_iff in H. destruct H as [H1 H2].
  now rewrite H1, (IH a H2).
Qed.


Lemma contains_app_l (p a b : string) :
  contains p a = true -> contains p (a ++ b) = true.
Proof.
  induction a as [|c a IH]; cbn [contains]; intros H.
  - rewrite orb_false_r in H. destruct p; [|discriminate].
    destruct ("" ++ b); reflexivity.
  - apply orb_true_iff in H. cbn [String.append contains].
    destruct H as [H|H].
    + change (String c (a ++ b)) with (String c a ++ b).
      now rewrite (starts_with_app _ _ b H).
    + rewrite (IH H). apply orb_true_r.
Qed.

Lemma contains_app_r (p a b : string) :
  contains p b = true -> contains p (a ++ b) = true.
Proof.
  intros H. induction a as [|c a IH]; [exact H|].
  cbn [String.append contains]. rewrite IH. apply orb_true_r.
Qed.


Lemma escape_char_safe c : all_chars (fun c => negb (is_markup c)) (escape_char c).
Proof.
  destruct c as [[] [] [] [] [] [] [] []]; vm_compute; repeat split.
Qed.

(** Escaped text holds no angle bracket and no quote. *)
Lemma escape_safe s : all_chars (fun c => negb (is_markup c)) (escape s).
Proof.
  induction s as [|c s IH]; [exact I|].
  cbn [escape]. apply all_chars_app; [apply escape_char_safe | exact IH].
Qed.

Lemma sub_without_match r repl s : test r s = false -> sub r repl s = s.
Proof.
  unfold test, search, sub. cbn [sub_from].
  destruct (search_from r 0 None s); [discriminate | reflexivity].
Qed.


(** The repository's own test of the post-processing. *)
Example postprocess_test_case :
  _postprocess_report_html
    ("<h2 style=" ++ DQ ++ "color:#222" ++ DQ ++ ">Summary</h2><pre><code></code></pre>")
    [mkMatched "F1" "Issue A" "FirmX" "ProtoY" "HIGH" ""]
  = "<h2>Summary</h2>"
    ++ "<pre><code>// Patch/example unavailable in generated output.</code></pre>"
    ++ evidence_head
    ++ "<tr><td>F1</td><td>Issue A</td><td>FirmX</td><td>ProtoY</td><td>HIGH</td></tr>"
    ++ evidence_foot.
Proof. vm_compute. reflexivity. Qed.

(** With nine matched findings the ninth has no row. *)
Example ninth_finding_has_no_row :
  contains "F8" (_postprocess_report_html "<p>r</p>" nine_matched) = true
  /\ contains "F9" (_postprocess_report_html "<p>r</p>" nine_matched) = false.
Proof. split; vm_compute; reflexivity. Qed.

(** With nothing matched, an Evidence Map the report already holds stays. *)
Example evidence_map_of_the_input_stays :
  _postprocess_report_html "<h2>Evidence Map</h2><p>none</p>" []
  = "<h2>Evidence Map</h2><p>none</p>".
Proof. vm_compute. reflexivity. Qed.

(** A style attribute not preceded by whitespace is left in place. *)
Example style_after_quote_is_kept :
  _postprocess_report_html
    ("<p class=" ++ DQ ++ "a" ++ DQ ++ "style=" ++ DQ ++ "color:red" ++ DQ ++ ">") []
  = "<p class=" ++ DQ ++ "a" ++ DQ ++ "style=" ++ DQ ++ "color:red" ++ DQ ++ ">".
Proof. vm_compute. reflexivity. Qed.



Example style_survives_output :
  _postprocess_report_html ("<p sty style='x'le=" ++ DQ ++ "y" ++ DQ ++ ">") []
  = "<p style=" ++ DQ ++ "y" ++ DQ ++ ">".
Proof. vm_compute. reflexivity. Qed.

End ReportFacts.

(* ------------------------------------------------------------------ *)
(** ** Quiz parsing *)
(* ------------------------------------------------------------------ *)

Section QuizFacts.

Import Learning QuizSpec.

Lemma parse_block_well_formed m q :
  parse_block m = Returned (Some q) -> well_formed q.
Proof.
  unfold parse_block, bind.
  destruct (py_int (group m 1)) as [raw|e]; [|discriminate].
  destruct (map _ (finditer opt_pattern (group m 2))) as [|o os] eqn:E;
    [discriminate|].
  intros H. inversion H; subst; clear H.
  unfold well_formed; cbn [options correct_index]. split; [discriminate|].
  match goal with
  | |- (0 <= _normalize_correct_index ?r ?n ?b ?e <= _)%Z =>
      pose proof (normalize_in_range r n b e) as Hr
  end.
  cbn [List.length] in *. lia.
Qed.

Lemma parse_blocks_well_formed ms acc qs :
  Forall well_formed acc ->
  parse_blocks ms acc = Returned qs ->
  Forall well_formed qs.
Proof.
  revert acc. induction ms as [|m ms IH]; intros acc Hacc H; cbn [parse_blocks] in H.
  - inversion H; subst. exact Hacc.
  - unfold bind in H at 1.
    destruct (parse_block m) as [[q|]|e] eqn:E; [| |discriminate H].
    + eapply IH; [|exact H]. apply Forall_app. split; [exact Hacc|].
      constructor; [|constructor]. eapply parse_block_well_formed; exact E.
    + eapply IH; [exact Hacc | exact H].
Qed.

(** C10: every question in the list returned by quiz parsing has at least
    one option, and its correct_index is a position of its option list. *)
Theorem C10_parsed_questions_well_formed (html : string) (qs : list QuizQuestion) :
  _parse_quiz html = Returned qs ->
  Forall well_formed qs.
Proof.
  intros H. eapply parse_blocks_well_formed; [constructor | exact H].
Qed.

End QuizFacts.

Section QuizRuns.

Import Learning QuizSpec QuizExamples.

Example parse_malformed_quiz : _parse_quiz malformed_quiz = Returned malformed_quiz_parsed.
Proof. vm_compute. reflexivity. Qed.

Example parse_empty_input : _parse_quiz "" = Returned [].
Proof. vm_compute. reflexivity. Qed.

Example parse_unterminated_tag :
  _parse_quiz ("<div " ++ attr "class" "quiz-question" ++ " data-correct=") = Returned [].
Proof. vm_compute. reflexivity. Qed.

Lemma C10_parsed_questions_well_formed_witness :
  _parse_quiz malformed_quiz = Returned malformed_quiz_parsed
  /\ Forall well_formed malformed_quiz_parsed.
Proof.
  split.
  - vm_compute. reflexivity.
  - apply (C10_parsed_questions_well_formed malformed_quiz malformed_quiz_parsed).
    vm_compute. reflexivity.
Defined.

(** A block with 4300 index digits still parses. *)
Example parse_index_at_the_limit :
  _parse_quiz (long_index_quiz 4300)
  = Returned [ mkQuizQuestion "Q" "" ["A"] 0 "" ].
Proof. vm_compute. reflexivity. Qed.

(** C8: quiz parsing raises on a question block whose data-correct
    attribute has 4301 digits: the pattern accepts any run of digits, and
    int() refuses a decimal literal of more than 4300 digits with a
    ValueError that nothing catches. *)
Theorem C8_parse_quiz_raises_on_long_index :
  _parse_quiz (long_index_quiz 4301)
  = Raised "ValueError: Exceeds the limit (4300 digits) for integer string conversion".
Proof. vm_compute. reflexivity. Qed.

End QuizRuns.

Section QuizTotality.

Import Learning MatchSpec.

Lemma digit_is_not_space c : is_digit c = true -> is_space c = false.
Proof.
  destruct c as [[] [] [] [] [] [] [] []]; vm_compute; intros H;
    first [reflexivity | discriminate H].
Qed.

Lemma digit_is_not_sign c :
  is_digit c = true -> (code c =? 45)%nat = false /\ (code c =? 43)%nat = false.
Proof.
  destruct c as [[] [] [] [] [] [] [] []]; vm_compute; intros H;
    first [split; reflexivity | discriminate H].
Qed.

Lemma rstrip_digits t : all_chars is_digit t -> rstrip t = t.
Proof.
  induction t as [|c t IH]; [reflexivity|]. intros [Hc Ht].
  cbn [rstrip]. rewrite (IH Ht). destruct t; [|reflexivity].
  now rewrite (digit_is_not_space c Hc).
Qed.

Lemma strip_digits t : all_chars is_digit t -> strip t = t.
Proof.
  intros H. unfold strip.
  assert (lstrip t = t) as ->.
  { destruct t as [|c t]; [reflexivity|]. destruct H as [Hc _].
    cbn [lstrip]. now rewrite (digit_is_not_space c Hc). }
  now apply rstrip_digits.
Qed.

Lemma literal_digits_all t need :
  all_chars is_digit t -> (t <> "" \/ need = false) ->
  exists ds, literal_digits need t = Some ds /\ List.length ds = String.length t.
Proof.
  revert need. induction t as [|c t IH]; intros need Ht Hn.
  - destruct Hn as [Hn | ->]; [contradiction|]. exists []. split; reflexivity.
  - destruct Ht as [Hc Ht]. cbn [literal_digits]. rewrite Hc.
    destruct (IH false Ht (or_intror eq_refl)) as (ds & E & L).
    rewrite E. eexists. split; [reflexivity|]. simpl. now rewrite L.
Qed.

(** [int] accepts a non-empty run of at most 4300 digits. *)
Lemma py_int_of_digits t :
  t <> "" -> all_chars is_digit t ->
  (String.length t <= int_max_str_digits)%nat ->
  exists z, py_int t = Returned z.
Proof.
  intros Hne Hd Hlen. unfold py_int. rewrite (strip_digits t Hd).
  destruct t as [|c t]; [contradiction|].
  destruct (digit_is_not_sign c (proj1 Hd)) as [-> ->].
  unfold unsigned_int.
  destruct (literal_digits_all (String c t) true Hd (or_introl Hne)) as (ds & -> & L).
  rewrite L. destruct (Nat.ltb_spec int_max_str_digits (String.length (String c t)));
    [lia | eexists; reflexivity].
Qed.

Lemma q_pattern_captures_digits :
  captures_only 1 is_digit q_pattern /\ must_set 1 q_pattern = true.
Proof.
  split; [|reflexivity].
  cbn -[is_digit]. repeat split; auto.
Qed.

(** In every match of the question pattern, group 1 is a non-empty run of
    digits no longer than the subject. *)
Lemma q_pattern_index n html :
  (String.length html <= n)%nat ->
  Forall (fun m => good is_digit 1 m /\ (String.length (group m 1) <= n)%nat)
         (finditer q_pattern html).
Proof.
  intros Hn. unfold finditer.
  eapply Forall_impl; [|apply (finditer_from_starts n); exact Hn].
  intros m (st0 & G & L & M). destruct q_pattern_captures_digits as [Hc Hm]. split.
  - eapply good_established; eassumption.
  - apply group_bounded. eapply matches_bounded; [exact M|].
    split; [exact L | rewrite G; constructor].
Qed.

Lemma parse_block_returns m :
  good is_digit 1 m -> (String.length (group m 1) <= int_max_str_digits)%nat ->
  exists q, parse_block m = Returned q.
Proof.
  intros [Hne Hd] Hlen. unfold parse_block.
  destruct (py_int_of_digits (group m 1) Hne Hd Hlen) as [z ->]. cbn [bind].
  destruct (map _ (finditer opt_pattern (group m 2))); eexists; reflexivity.
Qed.

Lemma parse_blocks_returns ms :
  Forall (fun m => good is_digit 1 m
                   /\ (String.length (group m 1) <= int_max_str_digits)%nat) ms ->
  forall acc, exists qs, parse_blocks ms acc = Returned qs.
Proof.
  induction 1 as [|m ms [Hg Hl] _ IH]; intros acc; cbn [parse_blocks].
  - eexists; reflexivity.
  - destruct (parse_block_returns m Hg Hl) as [q ->]. cbn [bind]. apply IH.
Qed.

(** Below the digit limit nothing can raise: every input of at most 4300
    characters, well-formed or not, is parsed to a list. *)
Lemma parse_quiz_returns_below_limit html :
  (String.length html <= int_max_str_digits)%nat ->
  exists qs, _parse_quiz html = Returned qs.
Proof.
  intros H. unfold _parse_quiz. apply parse_blocks_returns.
  apply q_pattern_index. exact H.
Qed.

End QuizTotality.

(* ------------------------------------------------------------------ *)
(** ** Failing queries *)
(* ------------------------------------------------------------------ *)

Section QueryFailures.

Import Solodit FailureSpec.

Variable search : search_fn.








(** A corpus that fails on one query and answers another. *)
Example failing_query_is_skipped :
  let finding := mkFinding "Reentrancy in withdraw" "HIGH" "text" "Firm" "Proto"
                           "" "" ["Reentrancy"] "reentrancy-in-withdraw" in
  let corpus : search_fn :=
    fun keywords _ _ =>
      if String.eqb keywords "Oracle" then Raised "SoloditError: timeout"
      else Returned [finding] in
  Scout.fetch_findings corpus 20 ["Oracle"; "Reentrancy"] = Returned [finding]
  /\ Server.pitfall_findings corpus "withdraw" ["Reentrancy"] ["Oracle"; "withdraw"]
     = Returned [finding].
Proof. split; vm_compute; reflexivity. Qed.


End QueryFailures.

(* ------------------------------------------------------------------ *)
(** ** Lists and strings *)
(* ------------------------------------------------------------------ *)

Section ListFacts.

Lemma in_firstn {A : Type} (n : nat) (l : list A) (x : A) :
  In x (firstn n l) -> In x l.
Proof.
  revert l. induction n as [|n IH]; intros [|y l]; cbn [firstn]; try contradiction.
  intros [->|H]; [now left | right; now apply IH].
Qed.

End ListFacts.

(* ------------------------------------------------------------------ *)
(** ** More on the code analyzer *)
(* ------------------------------------------------------------------ *)

Section AnalyzerMore.

Import Analyzer MatchSpec AnalyzerSpec ConfidenceSpec.

Lemma first_match_none {L : Type} (table : list (regex * L)) code :
  first_match table code = None <-> none_matches table code.
Proof.
  unfold none_matches. induction table as [|[p l] table IH]; cbn [first_match].
  - split; [constructor | reflexivity].
  - destruct (test p code) eqn:E.
    + split; [discriminate|]. intros H. inversion H; subst. cbn in *. congruence.
    + rewrite IH. split; [intros H; constructor; [exact E | exact H]|].
      intros H. inversion H; subst. assumption.
Qed.

Lemma first_match_first {L : Type} (pre post : list (regex * L)) p l code :
  none_matches pre code -> test p code = true ->
  first_match (pre ++ (p, l) :: post) code = Some l.
Proof.
  unfold none_matches. induction 1 as [|[q lq] pre Hq _ IH]; intros Hp;
    cbn [app first_match].
  - now rewrite Hp.
  - cbn [fst] in Hq. rewrite Hq. now apply IH.
Qed.

Lemma first_match_in {L : Type} (table : list (regex * L)) code l :
  first_match table code = Some l -> exists p, In (p, l) table /\ test p code = true.
Proof.
  induction table as [|[p lp] table IH]; cbn [first_match]; [discriminate|].
  destruct (test p code) eqn:E.
  - intros H. inversion H; subst. exists p. split; [now left | exact E].
  - intros H. destruct (IH H) as (q & Hin & Hq). exists q. split; [now right | exact Hq].
Qed.

Lemma function_labels_set :
  Forall (fun e => snd e <> "") FUNCTION_TYPE_PATTERNS
  /\ Forall (fun e => snd e <> "") PROTOCOL_TYPE_PATTERNS.
Proof. split; repeat constructor; discriminate. Qed.

Lemma label_of_first_match (table : list (regex * string)) code :
  Forall (fun e => snd e <> "") table ->
  (match first_match table code with Some l => l | None => "" end) = ""
  <-> none_matches table code.
Proof.
  intros Hl. rewrite <- first_match_none.
  destruct (first_match table code) as [l|] eqn:E.
  - split; [|discriminate]. intros ->.
    destruct (first_match_in _ _ _ E) as (p & Hin & _).
    rewrite Forall_forall in Hl. specialize (Hl _ Hin). now cbn in Hl.
  - split; reflexivity.
Qed.

(** A setter of a deposit limit is a deposit, not an admin function. *)
Example deposit_before_admin :
  function_type (analyze "function setDepositLimit(uint256 limit) external onlyOwner")
  = "deposit".
Proof. vm_compute. reflexivity. Qed.

(** X1: function_type and protocol_type follow the first-match-wins rule
    over their tables: the label is that of the first pattern, in table
    order, that matches the code, whatever matches after it; and the field
    is empty exactly when no pattern of the table matches. *)
Theorem X1_type_is_first_match (code : string) :
  (forall pre p l post,
      FUNCTION_TYPE_PATTERNS = (pre ++ (p, l) :: post)%list ->
      none_matches pre code -> test p code = true ->
      function_type (analyze code) = l)
  /\ (function_type (analyze code) = ""
      <-> none_matches FUNCTION_TYPE_PATTERNS code)
  /\ (forall pre p l post,
      PROTOCOL_TYPE_PATTERNS = (pre ++ (p, l) :: post)%list ->
      none_matches pre code -> test p code = true ->
      protocol_type (analyze code) = l)
  /\ (protocol_type (analyze code) = ""
      <-> none_matches PROTOCOL_TYPE_PATTERNS code).
Proof.
  destruct function_labels_set as [Hf Hp].
  split; [|split; [|split]].
  - intros pre p l post E Hpre Hm. cbn [analyze function_type].
    rewrite E, (first_match_first pre post p l code Hpre Hm). reflexivity.
  - apply (label_of_first_match FUNCTION_TYPE_PATTERNS code Hf).
  - intros pre p l post E Hpre Hm. cbn [analyze protocol_type].
    rewrite E, (first_match_first pre post p l code Hpre Hm). reflexivity.
  - apply (label_of_first_match PROTOCOL_TYPE_PATTERNS code Hp).
Qed.

Lemma collect_risks_filter table code acc :
  collect_risks table code acc
  = (acc ++ map tag_of (filter (fun e => test (fst e) code) table))%list.
Proof.
  revert acc. induction table as [|[p [tag kws]] table IH]; intros acc;
    cbn [collect_risks filter fst].
  - now rewrite app_nil_r.
  - destruct (test p code); rewrite IH; [|reflexivity].
    cbn [map tag_of fst snd]. now rewrite <- app_assoc.
Qed.

(** X2: risk_patterns holds the tags of the matching patterns of the risk
    table, one entry per matching pattern, in table order; so a tag is
    reported exactly when one of its patterns matches the code. *)
Theorem X2_risk_tag_iff_pattern_matches (code : string) :
  risk_patterns (analyze code)
  = map tag_of (filter (fun e => test (fst e) code) RISK_PATTERNS)
  /\ (forall tag,
        In tag (risk_patterns (analyze code))
        <-> exists pattern kws,
              In (pattern, (tag, kws)) RISK_PATTERNS /\ test pattern code = true).
Proof.
  assert (E : risk_patterns (analyze code)
              = map tag_of (filter (fun e => test (fst e) code) RISK_PATTERNS))
    by (cbn [analyze risk_patterns]; now rewrite collect_risks_filter).
  split; [exact E|]. intros tag. rewrite E, in_map_iff. split.
  - intros ([p [t kws]] & Ht & Hin). apply filter_In in Hin. destruct Hin as [Hin Hm].
    cbn in Ht, Hm. subst t. exists p, kws. split; assumption.
  - intros (p & kws & Hin & Hm). exists (p, (tag, kws)). split; [reflexivity|].
    apply filter_In. split; assumption.
Qed.

Lemma external_call_re_captures :
  captures_only 1 is_word external_call_re /\ must_set 1 external_call_re = true
  /\ captures_only 2 is_word external_call_re /\ must_set 2 external_call_re = true.
Proof.
  split; [|split; [reflexivity|split; [|reflexivity]]];
    cbn -[is_word]; repeat split; auto.
Qed.

Lemma external_call_matches code :
  Forall (fun m => identifier (group m 1) /\ identifier (group m 2))
         (finditer external_call_re code).
Proof.
  unfold finditer.
  eapply Forall_impl;
    [|apply (finditer_from_starts (String.length code)); apply Nat.le_refl].
  intros m (st0 & _ & _ & M).
  destruct external_call_re_captures as (C1 & M1 & C2 & M2).
  split; [exact (good_established _ _ _ _ _ M C1 M1)
         | exact (good_established _ _ _ _ _ M C2 M2)].
Qed.

(** X3: external_calls never has more than 10 entries, and every entry is
    [object.method] for two identifiers, the object being none of msg,
    block, tx, abi, require, assert. *)
Theorem X3_external_calls_capped_and_filtered (code : string) :
  (List.length (external_calls (analyze code)) <= 10)%nat
  /\ Forall (fun e => exists object method,
                 e = object ++ "." ++ method
                 /\ identifier object /\ identifier method
                 /\ mem object call_denylist = false)
            (external_calls (analyze code)).
Proof.
  cbn [analyze external_calls]. split.
  - rewrite length_firstn. apply Nat.le_min_l.
  - apply Forall_forall. intros e He. apply in_firstn in He.
    apply in_map_iff in He. destruct He as (m & <- & Hm).
    apply filter_In in Hm. destruct Hm as [Hm Hd].
    pose proof (external_call_matches code) as Hall.
    rewrite Forall_forall in Hall. destruct (Hall m Hm) as [H1 H2].
    exists (group m 1), (group m 2). repeat split; try apply H1; try apply H2.
    now apply negb_true_iff in Hd.
Qed.

Lemma confidence_is_observed code :
  confidence (analyze code)
  = observed_confidence (truthy (function_name (analyze code)))
      (truthy (function_type (analyze code)))
      (truthy (protocol_type (analyze code)))
      (List.length (risk_patterns (analyze code)))
      (nonempty (external_calls (analyze code))).
Proof.
  change (confidence (analyze code))
    with (confidence_of (function_name (analyze code)) (function_type (analyze code))
            (protocol_type (analyze code)) (risk_patterns (analyze code))
            (external_calls (analyze code))).
  apply confidence_of_observed.
Qed.

Lemma monotone_on_flags (a b c d a' b' c' d' : bool) :
  implb a a' = true -> implb b b' = true -> implb c c' = true ->
  implb d d' = true ->
  monotone_on_counts a b c d a' b' c' d' = true.
Proof.
  destruct a, a', b, b', c, c', d, d'; intros; try discriminate;
    vm_compute; reflexivity.
Qed.

Lemma truthy_implies (s1 s2 : string) :
  (s1 <> "" -> s2 <> "") -> implb (truthy s1) (truthy s2) = true.
Proof.
  destruct s1, s2; intros H; try reflexivity.
  exfalso. apply H; [discriminate | reflexivity].
Qed.

Lemma nonempty_implies {A : Type} (l1 l2 : list A) :
  (l1 <> [] -> l2 <> []) -> implb (nonempty l1) (nonempty l2) = true.
Proof.
  destruct l1, l2; intros H; try reflexivity.
  exfalso. apply H; [discriminate | reflexivity].
Qed.

Lemma observed_confidence_monotone (a b c d a' b' c' d' : bool) (n1 n2 : nat) :
  implb a a' = true -> implb b b' = true -> implb c c' = true ->
  implb d d' = true -> (n1 <= n2)%nat -> (n2 <= 16)%nat ->
  PrimFloat.leb (observed_confidence a b c n1 d) (observed_confidence a' b' c' n2 d')
  = true.
Proof.
  intros Ha Hb Hc Hd Hle H16.
  pose proof (monotone_on_flags _ _ _ _ _ _ _ _ Ha Hb Hc Hd) as M.
  unfold monotone_on_counts in M. rewrite forallb_forall in M.
  assert (I1 : In n1 (seq 0 17)) by (apply in_seq; lia).
  assert (I2 : In n2 (seq 0 17)) by (apply in_seq; lia).
  specialize (M n1 I1). rewrite forallb_forall in M. specialize (M n2 I2).
  apply Nat.leb_le in Hle. rewrite Hle in M. exact M.
Qed.

(** X4: confidence never goes down when more is detected: if every field
    set for one input is set for another, and the other has at least as many
    risk entries, its confidence is at least as high. *)
Theorem X4_confidence_monotone (code1 code2 : string) :
  let ctx1 := analyze code1 in
  let ctx2 := analyze code2 in
  (function_name ctx1 <> "" -> function_name ctx2 <> "") ->
  (function_type ctx1 <> "" -> function_type ctx2 <> "") ->
  (protocol_type ctx1 <> "" -> protocol_type ctx2 <> "") ->
  (List.length (risk_patterns ctx1) <= List.length (risk_patterns ctx2))%nat ->
  (external_calls ctx1 <> [] -> external_calls ctx2 <> []) ->
  PrimFloat.leb (confidence ctx1) (confidence ctx2) = true.
Proof.
  intros ctx1 ctx2 Hn Ht Hp Hr Hc.
  unfold ctx1, ctx2. rewrite !confidence_is_observed.
  apply observed_confidence_monotone.
  - apply truthy_implies, Hn.
  - apply truthy_implies, Ht.
  - apply truthy_implies, Hp.
  - apply nonempty_implies, Hc.
  - exact Hr.
  - apply risk_patterns_at_most_16.
Qed.

Lemma X4_confidence_monotone_witness :
  PrimFloat.leb (confidence (analyze "function f()"))
                (confidence (analyze "function deposit() { token.transfer(a, 1); }"))
  = true.
Proof.
  apply (X4_confidence_monotone "function f()"
           "function deposit() { token.transfer(a, 1); }");
    vm_compute;
    first [ intros _; discriminate
          | intros H; exfalso; apply H; reflexivity
          | lia ].
Defined.

End AnalyzerMore.

(* ------------------------------------------------------------------ *)
(** ** More on the contract parser and the scout queries *)
(* ------------------------------------------------------------------ *)

Section ScoutMore.

Import Solodit Scout QuerySpec.

Lemma mem_In (x : string) (l : list string) : mem x l = true <-> In x l.
Proof.
  unfold mem. rewrite existsb_exists. split.
  - intros (y & Hy & E). apply String.eqb_eq in E. now subst.
  - intros H. exists x. split; [exact H | apply String.eqb_refl].
Qed.

Lemma mem_not_In (x : string) (l : list string) : mem x l = false <-> ~ In x l.
Proof.
  rewrite <- mem_In. destruct (mem x l); split; congruence.
Qed.

Lemma nodup_firstn {A : Type} (n : nat) (l : list A) : NoDup l -> NoDup (firstn n l).
Proof.
  intros H. revert n. induction H as [|x l Hx _ IH]; intros [|n]; cbn [firstn];
    try constructor.
  - intros Hin. apply Hx. eapply in_firstn; exact Hin.
  - apply IH.
Qed.

(** X5: ercs_detected lists detected standards in the order of the table,
    ERC20, ERC721, ERC1155, ERC4626, each at most once. *)
Theorem X5_ercs_in_table_order (code : string) :
  (exists mask,
      ercs_detected (_parse_contract code)
      = pick mask ["ERC20"; "ERC721"; "ERC1155"; "ERC4626"])
  /\ NoDup (ercs_detected (_parse_contract code)).
Proof.
  change (ercs_detected (_parse_contract code))
    with (detect_ercs _ERC_PATTERNS code []).
  unfold _ERC_PATTERNS. cbn [detect_ercs app].
  destruct (2 <=? count_matches _ code)%nat; cbn [app];
    destruct (2 <=? count_matches _ code)%nat; cbn [app];
    destruct (2 <=? count_matches _ code)%nat; cbn [app];
    destruct (2 <=? count_matches _ code)%nat; cbn [app];
    (split;
     [ first [ exists [true; true; true; true]; reflexivity
             | exists [true; true; true; false]; reflexivity
             | exists [true; true; false; true]; reflexivity
             | exists [true; true; false; false]; reflexivity
             | exists [true; false; true; true]; reflexivity
             | exists [true; false; true; false]; reflexivity
             | exists [true; false; false; true]; reflexivity
             | exists [true; false; false; false]; reflexivity
             | exists [false; true; true; true]; reflexivity
             | exists [false; true; true; false]; reflexivity
             | exists [false; true; false; true]; reflexivity
             | exists [false; true; false; false]; reflexivity
             | exists [false; false; true; true]; reflexivity
             | exists [false; false; true; false]; reflexivity
             | exists [false; false; false; true]; reflexivity
             | exists [false; false; false; false]; reflexivity ]
     | repeat constructor; cbn; intuition discriminate ]).
Qed.

Lemma dedup_queries_spec qs :
  forall seen,
    NoDup (map lower (dedup_queries qs seen))
    /\ (forall q, In q (dedup_queries qs seen) -> In q qs /\ ~ In (lower q) seen)
    /\ (forall q, In q qs ->
          In (lower q) seen \/ In (lower q) (map lower (dedup_queries qs seen))).
Proof.
  induction qs as [|q0 qs IH]; intros seen; cbn [dedup_queries].
  - split; [constructor|]. split; intros q [].
  - destruct (mem (lower q0) seen) eqn:E.
    + destruct (IH seen) as (N & S & C). split; [exact N|]. split.
      * intros q Hq. destruct (S q Hq). split; [now right | assumption].
      * intros q [->|Hq]; [left; now apply mem_In | now apply C].
    + destruct (IH (lower q0 :: seen)) as (N & S & C).
      apply mem_not_In in E. split; [|split].
      * cbn [map]. constructor; [|exact N]. intros Hin.
        apply in_map_iff in Hin. destruct Hin as (q & Hl & Hq).
        destruct (S q Hq) as [_ Hn]. apply Hn. left. now symmetry.
      * intros q [->|Hq]; [split; [now left | exact E]|].
        destruct (S q Hq) as [Hin Hn]. split; [now right|].
        intros H. apply Hn. now right.
      * intros q [->|Hq]; [right; now left|].
        destruct (C q Hq) as [[H|H]|H].
        -- right. left. exact H.
        -- now left.
        -- right. now right.
Qed.

Lemma build_queries_dedups risks function_type protocol_type ercs :
  build_queries risks function_type protocol_type ercs
  = dedup_queries (scout_candidates risks function_type protocol_type ercs) [].
Proof. reflexivity. Qed.

(** X6: the queries of a scout report are the candidate queries (one per
    risk entry, then the function type, the protocol type and each detected
    standard) with repeats removed ignoring case: no two kept queries are
    equal up to case, every kept query is a candidate, and every candidate
    is kept up to case. *)
Theorem X6_scout_queries_deduplicated
  (risks : list string) (function_type protocol_type : string) (ercs : list string) :
  let kept := build_queries risks function_type protocol_type ercs in
  let candidates := scout_candidates risks function_type protocol_type ercs in
  NoDup (map lower kept)
  /\ (forall q, In q kept -> In q candidates)
  /\ (forall q, In q candidates -> In (lower q) (map lower kept)).
Proof.
  intros kept candidates. unfold kept. rewrite build_queries_dedups.
  destruct (dedup_queries_spec candidates []) as (N & S & C).
  split; [exact N|]. split.
  - intros q Hq. apply S, Hq.
  - intros q Hq. destruct (C q Hq) as [[]|H]. exact H.
Qed.

Lemma add_finding_keeps search size queries st findings :
  fetch_invariant search size queries st ->
  Forall (fetched_by search 3 size queries) findings ->
  fetch_invariant search size queries (fold_left add_finding findings st)
  /\ (forall f, In f findings ->
        In (title f) (map title (snd (fold_left add_finding findings st))))
  /\ (forall f, In f (snd st) -> In f (snd (fold_left add_finding findings st))).
Proof.
  intros Hst Hall. revert st Hst.
  induction Hall as [|f fs Hf _ IH]; intros st Hst; cbn [fold_left].
  - split; [exact Hst|]. split; [intros f []|auto].
  - assert (Hnext : fetch_invariant search size queries (add_finding st f)
                    /\ In (title f) (map title (snd (add_finding st f)))
                    /\ (forall g, In g (snd st) -> In g (snd (add_finding st f)))).
    { destruct st as [seen all]. destruct Hst as (Hs & Hn & Hp). cbn [fst snd] in *.
      unfold add_finding. destruct (mem (title f) seen) eqn:E.
      - split; [split; [exact Hs | split; assumption]|].
        split; [|intros g Hg; exact Hg].
        cbn [snd]. apply Hs. apply mem_In. exact E.
      - apply mem_not_In in E. unfold fetch_invariant. cbn [fst snd].
        split; [split; [|split]|split].
        + intros t. rewrite map_app, in_app_iff. cbn [map In]. rewrite <- Hs. tauto.
        + rewrite map_app. cbn [map].
          apply NoDup_app; [exact Hn | repeat constructor; intros [] | ].
          intros t Ht [<-|[]]. apply E. now apply Hs.
        + apply Forall_app. split; [exact Hp | repeat constructor; exact Hf].
        + rewrite map_app, in_app_iff. right. now left.
        + intros g Hg. apply in_app_iff. now left. }
    destruct Hnext as (Hinv & Hin & Hkeep).
    destruct (IH _ Hinv) as (Hinv' & Hall' & Hkeep').
    split; [exact Hinv'|]. split.
    + intros g [->|Hg]; [|now apply Hall'].
      apply in_map_iff in Hin. destruct Hin as (g' & Et & Hg').
      apply in_map_iff. exists g'. split; [exact Et | now apply Hkeep'].
    + intros g Hg. apply Hkeep', Hkeep, Hg.
Qed.

Lemma fetch_loop_keeps search size queries :
  forall qs st,
    incl qs queries ->
    fetch_invariant search size queries st ->
    exists st',
      for_each (fetch_query search size) qs st = Returned st'
      /\ fetch_invariant search size queries st'
      /\ (forall f, In f (snd st) -> In f (snd st'))
      /\ (forall q findings f,
            In q qs -> search q 3%Z size = Returned findings -> In f findings ->
            In (title f) (map title (snd st'))).
Proof.
  induction qs as [|q qs IH]; intros st Hincl Hst; cbn [for_each].
  - exists st. split; [reflexivity|]. split; [exact Hst|]. split; [auto|].
    intros q findings f [].
  - assert (Hq : In q queries) by (apply Hincl; now left).
    assert (Hqs : incl qs queries) by (intros x Hx; apply Hincl; now right).
    unfold fetch_query at 1. unfold try_except, bind at 2.
    destruct (search q 3%Z size) as [findings|e] eqn:E.
    + assert (Hall : Forall (fetched_by search 3 size queries) findings).
      { apply Forall_forall. intros f Hf. exists q, findings. auto. }
      destruct (add_finding_keeps search size queries st findings Hst Hall)
        as (Hinv & Hin & Hkeep).
      cbn [bind]. destruct (IH _ Hqs Hinv) as (st' & Er & Hinv' & Hkeep' & Hall').
      exists st'. split; [exact Er|]. split; [exact Hinv'|]. split.
      * intros f Hf. apply Hkeep', Hkeep, Hf.
      * intros q' fs' f [<-|Hq'] Es Hf.
        -- rewrite E in Es. inversion Es; subst.
           specialize (Hin f Hf). apply in_map_iff in Hin.
           destruct Hin as (g & Et & Hg). apply in_map_iff.
           exists g. split; [exact Et | now apply Hkeep'].
        -- eapply Hall'; eassumption.
    + cbn [bind]. destruct (IH _ Hqs Hst) as (st' & Er & Hinv' & Hkeep' & Hall').
      exists st'. split; [exact Er|]. split; [exact Hinv'|]. split; [exact Hkeep'|].
      intros q' fs' f [<-|Hq'] Es Hf; [congruence | eapply Hall'; eassumption].
Qed.

(** X7: the findings fetched for a scout report have pairwise distinct
    titles; each was returned by a successful search for one of the first 8
    queries, and the title of every finding such a search returned is among
    them. *)
Theorem X7_fetched_findings_distinct_titles
  (search : search_fn) (page_size : Z) (unique_queries : list string) :
  let size :=
    py_max 3 (page_size / py_max (Z.of_nat (List.length unique_queries)) 1)%Z in
  exists findings,
    fetch_findings search page_size unique_queries = Returned findings
    /\ NoDup (map title findings)
    /\ Forall (fetched_by search 3 size (firstn 8 unique_queries)) findings
    /\ (forall q fs f,
          In q (firstn 8 unique_queries) -> search q 3%Z size = Returned fs ->
          In f fs -> In (title f) (map title findings)).
Proof.
  intros size. unfold fetch_findings. fold size.
  destruct (fetch_loop_keeps search size (firstn 8 unique_queries)
              (firstn 8 unique_queries) ([], []))
    as (st' & E & (_ & Hn & Hp) & _ & Hall).
  - apply incl_refl.
  - split; [intros t; split; intros []|]. split; constructor.
  - exists (snd st'). rewrite E. cbn [bind]. split; [reflexivity|].
    split; [exact Hn|]. split; [exact Hp | exact Hall].
Qed.

End ScoutMore.

(* ------------------------------------------------------------------ *)
(** ** More on ranking and scoring *)
(* ------------------------------------------------------------------ *)

Section ServerMore.

Import Solodit Server QuerySpec RelevanceSpec.

Lemma score_finding_keeps search size queries sel risks st findings :
  rank_invariant search size queries st ->
  Forall (fetched_by search 2 size queries) findings ->
  rank_invariant search size queries
    (fold_left (score_finding sel risks) findings st).
Proof.
  intros Hst Hall. revert st Hst.
  induction Hall as [|f fs Hf _ IH]; intros st Hst; cbn [fold_left]; [exact Hst|].
  apply IH. destruct st as [seen scored]. destruct Hst as (Hs & Hn & Hp).
  cbn [fst snd] in *. unfold score_finding. fold (key_of f).
  destruct (mem (key_of f) seen) eqn:E; [split; [exact Hs | split; assumption]|].
  apply mem_not_In in E. unfold rank_invariant. cbn [fst snd].
  rewrite !map_app. cbn [map snd]. split; [|split].
  - intros k. rewrite in_app_iff. cbn [In]. rewrite <- Hs. tauto.
  - apply NoDup_app; [exact Hn | repeat constructor; intros [] | ].
    intros k Hk [<-|[]]. apply E. now apply Hs.
  - apply Forall_app. split; [exact Hp | repeat constructor; exact Hf].
Qed.

Lemma search_loop_keeps search size queries sel risks :
  forall qs st,
    incl qs queries ->
    rank_invariant search size queries st ->
    exists st',
      for_each (search_query search size sel risks) qs st = Returned st'
      /\ rank_invariant search size queries st'.
Proof.
  induction qs as [|q qs IH]; intros st Hincl Hst; cbn [for_each].
  - exists st. split; [reflexivity | exact Hst].
  - assert (Hq : In q queries) by (apply Hincl; now left).
    assert (Hqs : incl qs queries) by (intros x Hx; apply Hincl; now right).
    unfold search_query at 1. unfold try_except.
    destruct (search q 2%Z size) as [findings|e] eqn:E; cbn [bind].
    + apply IH; [exact Hqs|]. apply score_finding_keeps; [exact Hst|].
      apply Forall_forall. intros f Hf. exists q, findings. auto.
    + apply IH; assumption.
Qed.

Lemma top_of_ranking search size queries (scored : list (Z * Finding)) keep :
  NoDup (map key_of (map snd scored)) ->
  Forall (fetched_by search 2 size queries) (map snd scored) ->
  let kept := map snd (firstn keep (sort_desc scored)) in
  (List.length kept <= keep)%nat
  /\ NoDup (map key_of kept)
  /\ Forall (fetched_by search 2 size queries) kept.
Proof.
  intros Hn Hp kept. unfold kept. rewrite <- firstn_map.
  pose proof (sort_desc_perm scored) as P.
  assert (P' : Permutation (map snd (sort_desc scored)) (map snd scored))
    by now apply Permutation_map.
  split; [apply firstn_le_length|]. split.
  - rewrite <- firstn_map. apply nodup_firstn.
    eapply Permutation_NoDup; [|exact Hn]. symmetry. now apply Permutation_map.
  - apply Forall_forall. intros f Hf. apply in_firstn in Hf.
    rewrite Forall_forall in Hp. apply Hp. eapply Permutation_in; eassumption.
Qed.

(** The search step always completes, with a ranking cut to [keep]. *)
Lemma ranked_findings_kept search size max_queries keep sel risks queries :
  exists scored,
    collect_scored search size max_queries sel risks queries = Returned scored
    /\ (List.length (map snd (firstn keep (sort_desc scored))) <= keep)%nat
    /\ NoDup (map key_of (map snd (firstn keep (sort_desc scored))))
    /\ Forall (fetched_by search 2 size (firstn max_queries queries))
              (map snd (firstn keep (sort_desc scored))).
Proof.
  unfold collect_scored.
  destruct (search_loop_keeps search size (firstn max_queries queries) sel risks
              (firstn max_queries queries) ([], [])) as (st & E & _ & Hn & Hp).
  - apply incl_refl.
  - split; [intros k; split; intros []|]. split; constructor.
  - rewrite E. cbn [bind]. eexists. split; [reflexivity|].
    now apply top_of_ranking.
Qed.

(** X8: pitfall always ends its search step with at most 5 findings (fix
    draft: at most 3), no two with the same slug-or-title key, each returned
    by a successful search for one of the first 6 (5) queries. *)
Theorem X8_kept_findings_bounded_and_distinct
  (search : search_fn) (sel_name : string) (risks queries : list string) :
  (exists kept,
      pitfall_findings search sel_name risks queries = Returned kept
      /\ (List.length kept <= 5)%nat
      /\ NoDup (map key_of kept)
      /\ Forall (fetched_by search 2 4 (firstn 6 queries)) kept)
  /\ (exists kept,
      fix_draft_findings search sel_name risks queries = Returned kept
      /\ (List.length kept <= 3)%nat
      /\ NoDup (map key_of kept)
      /\ Forall (fetched_by search 2 3 (firstn 5 queries)) kept).
Proof.
  split.
  - unfold pitfall_findings.
    destruct (ranked_findings_kept search 4 6 5 sel_name risks queries)
      as (scored & E & H).
    rewrite E. cbn [bind]. eexists. split; [reflexivity | exact H].
  - unfold fix_draft_findings.
    destruct (ranked_findings_kept search 3 5 3 sel_name risks queries)
      as (scored & E & H).
    rewrite E. cbn [bind]. eexists. split; [reflexivity | exact H].
Qed.

Lemma risk_bonus_bounds risks haystack score :
  (score <= risk_bonus risks haystack score
   <= score + 20 * Z.of_nat (List.length risks))%Z.
Proof.
  revert score. induction risks as [|r risks IH]; intros score;
    cbn [risk_bonus List.length]; [lia|].
  destruct (contains (lower r) haystack).
  - specialize (IH (score + 20)%Z). lia.
  - specialize (IH score). lia.
Qed.

Lemma contains_in_haystack (sel : string) (f : Finding) :
  contains sel (lower (title f)) = true
  \/ contains sel (lower (join " " (tags f))) = true ->
  contains sel
    (join " " [lower (title f); lower (join " " (tags f));
               take 1200 (lower (content f))]) = true.
Proof.
  cbn [join]. intros [H|H].
  - now apply contains_app_l.
  - apply contains_app_r, contains_app_r. now apply contains_app_l.
Qed.

(** X9: a relevance score lies between 0 and 263.  A selection name found
    in the title is also found in the haystack, so such a finding scores at
    least 110; one found in the tags scores at least 80. *)
Theorem X9_relevance_score_bounds
  (f : Finding) (sel_name : string) (risk_patterns : list string) :
  (0 <= _pitfall_relevance_score f sel_name risk_patterns <= 263)%Z
  /\ (sel_name <> "" -> occurs_in sel_name (title f) = true ->
      (110 <= _pitfall_relevance_score f sel_name risk_patterns)%Z)
  /\ (sel_name <> "" -> occurs_in sel_name (join " " (tags f)) = true ->
      (80 <= _pitfall_relevance_score f sel_name risk_patterns)%Z).
Proof.
  unfold _pitfall_relevance_score, occurs_in.
  pose proof (contains_in_haystack (lower sel_name) f) as Hhay.
  set (hay := join " " [lower (title f); lower (join " " (tags f));
                        take 1200 (lower (content f))]) in *.
  assert (L : (List.length (firstn 3 risk_patterns) <= 3)%nat)
    by apply firstn_le_length.
  assert (B : forall s,
    (s <= risk_bonus (firstn 3 risk_patterns) hay s <= s + 60)%Z).
  { intros s. pose proof (risk_bonus_bounds (firstn 3 risk_patterns) hay s). lia. }
  destruct sel_name as [|c sel]; cbn [truthy].
  - split; [|split; intros H; exfalso; apply H; reflexivity].
    pose proof (B 0%Z).
    destruct (String.eqb (upper (impact f)) "HIGH");
      [|destruct (String.eqb (upper (impact f)) "MEDIUM")]; lia.
  - set (sel' := lower (String c sel)) in *.
    destruct (contains sel' (lower (title f))) eqn:E1;
      destruct (contains sel' (lower (join " " (tags f)))) eqn:E2;
      try (rewrite Hhay by (first [left; reflexivity | right; reflexivity]));
      destruct (mem sel' balance_tokens && existsb _ accounting_tokens);
      try destruct (contains sel' hay);
      match goal with
      | |- context [risk_bonus _ hay ?s] => pose proof (B s) as Hb
      end;
      (destruct (String.eqb (upper (impact f)) "HIGH");
       [|destruct (String.eqb (upper (impact f)) "MEDIUM")]);
      (split; [lia | split; intros _ Hc; first [discriminate Hc | lia]]).
Qed.

End ServerMore.

(* ------------------------------------------------------------------ *)
(** ** More on quiz parsing *)
(* ------------------------------------------------------------------ *)

Section TrimFacts.

Import TextSpec.

Lemma lstrip_starts_clean s : starts_clean (lstrip s).
Proof.
  induction s as [|c s IH]; cbn [lstrip]; [exact I|].
  destruct (is_space c) eqn:E; [exact IH | exact E].
Qed.

Lemma lstrip_clean s : starts_clean s -> lstrip s = s.
Proof. destruct s as [|c s]; cbn; [reflexivity | now intros ->]. Qed.

Lemma rstrip_starts_clean s : starts_clean s -> starts_clean (rstrip s).
Proof.
  destruct s as [|c s]; cbn [starts_clean rstrip]; [trivial|]. intros E.
  destruct (rstrip s); [rewrite E|]; exact E.
Qed.

Lemma rstrip_idempotent s : rstrip (rstrip s) = rstrip s.
Proof.
  induction s as [|c s IH]; [reflexivity|]. cbn [rstrip].
  destruct (rstrip s) as [|d t] eqn:E.
  - destruct (is_space c) eqn:Ec; [reflexivity|]. cbn [rstrip]. now rewrite Ec.
  - cbn [rstrip]. cbn [rstrip] in IH. rewrite IH. reflexivity.
Qed.

(** [strip] leaves nothing to strip. *)
Lemma strip_trimmed s : trimmed (strip s).
Proof.
  unfold trimmed, strip.
  rewrite (lstrip_clean (rstrip (lstrip s))).
  - apply rstrip_idempotent.
  - apply rstrip_starts_clean, lstrip_starts_clean.
Qed.

End TrimFacts.

Section QuizMore.

Import Learning MatchSpec NormalizeSpec QuizSpec TextSpec.

(** X10: whatever index the model wrote (negative, huge, anything), the
    normalised index is never negative, is a valid position whenever there
    are options, and is 0 when there are none. *)
Theorem X10_normalized_index_in_bounds
  (raw n : Z) (block_html explanation_html : string) :
  let r := _normalize_correct_index raw n block_html explanation_html in
  (0 <= r)%Z /\ (0 < n -> r < n)%Z /\ (n <= 0 -> r = 0)%Z.
Proof.
  intros r. destruct (Z.ltb_spec 0 n) as [Hn|Hn].
  - pose proof (normalize_in_range raw n block_html explanation_html Hn) as H.
    fold r in H. repeat split; lia.
  - assert (E : r = 0%Z).
    { unfold r, _normalize_correct_index.
      destruct (Z.leb_spec n 0); [reflexivity | lia]. }
    rewrite E. repeat split; lia.
Qed.

Lemma normalize_without_hint raw n b e :
  (0 < n)%Z ->
  match first_letter_hint b e with
  | Some idx => in_range_of n idx
  | None => false
  end = false ->
  _normalize_correct_index raw n b e
  = if (1 <=? raw)%Z && (raw <=? n)%Z then (raw - 1)%Z
    else if (0 <=? raw)%Z && (raw <? n)%Z then raw
    else Z.max 0 (Z.min raw (n - 1)).
Proof.
  intros Hn Hh. unfold _normalize_correct_index, first_letter_hint in *.
  destruct (Z.leb_spec n 0); [lia|]. rewrite py_max_is_max, py_min_is_min.
  destruct (search letter_re _) as [m|]; [|reflexivity].
  cbn [option_map] in Hh. unfold in_range_of in Hh. now rewrite Hh.
Qed.

Lemma normalize_with_hint raw n b e idx :
  first_letter_hint b e = Some idx -> in_range_of n idx = true ->
  _normalize_correct_index raw n b e = idx.
Proof.
  intros Hh Hr. unfold _normalize_correct_index, first_letter_hint in *.
  assert (Hn : (0 < n)%Z).
  { unfold in_range_of in Hr. apply andb_true_iff in Hr. lia. }
  destruct (Z.leb_spec n 0); [lia|].
  destruct (search letter_re _) as [m|]; [|discriminate Hh].
  cbn [option_map] in Hh. inversion Hh as [Hi]. unfold in_range_of in Hr.
  rewrite Hi, Hr. reflexivity.
Qed.

(** X11: normalising an index that is already normalised is neutral only
    when a usable letter hint decides it.  Without one, the second pass
    reads the 0-based index as 1-based and lowers it by one more (but not
    below 0).  generate_lesson normalises twice: once when it rewrites the
    HTML, once when it parses the quiz. *)
Theorem X11_second_normalisation_shifts
  (raw n : Z) (b1 e1 b2 e2 : string) :
  let once := _normalize_correct_index raw n b1 e1 in
  let twice := _normalize_correct_index once n b2 e2 in
  (forall idx, first_letter_hint b2 e2 = Some idx -> in_range_of n idx = true ->
               twice = idx)
  /\ (match first_letter_hint b2 e2 with
      | Some idx => in_range_of n idx
      | None => false
      end = false ->
      twice = Z.max 0 (once - 1)).
Proof.
  intros once twice. split.
  - intros idx Hh Hr. apply (normalize_with_hint once n b2 e2 idx Hh Hr).
  - intros Hh. destruct (Z.ltb_spec 0 n) as [Hn|Hn].
    + pose proof (normalize_in_range raw n b1 e1 Hn) as Ho. fold once in Ho.
      unfold twice. rewrite (normalize_without_hint once n b2 e2 Hn Hh).
      destruct (Z.leb_spec 1 once), (Z.leb_spec once n), (Z.leb_spec 0 once),
        (Z.ltb_spec once n); cbn [andb]; lia.
    + assert (E1 : once = 0%Z).
      { unfold once, _normalize_correct_index.
        destruct (Z.leb_spec n 0); [reflexivity | lia]. }
      assert (E2 : twice = 0%Z).
      { unfold twice, _normalize_correct_index.
        destruct (Z.leb_spec n 0); [reflexivity | lia]. }
      rewrite E2, E1. reflexivity.
Qed.

Lemma py_int_of_long_digits t :
  all_chars is_digit t -> (int_max_str_digits < String.length t)%nat ->
  exists e, py_int t = @Raised Z e.
Proof.
  intros Hd Hlen. unfold py_int. rewrite (strip_digits t Hd).
  destruct t as [|c t]; [cbn in Hlen; lia|].
  destruct (digit_is_not_sign c (proj1 Hd)) as [-> ->].
  unfold unsigned_int.
  destruct (literal_digits_all (String c t) true Hd) as (ds & -> & L);
    [left; discriminate|].
  rewrite L. destruct (Nat.ltb_spec int_max_str_digits (String.length (String c t)));
    [eexists; reflexivity | lia].
Qed.

Lemma parse_block_raises m :
  good is_digit 1 m -> (int_max_str_digits < String.length (group m 1))%nat ->
  exists e, parse_block m = Raised e.
Proof.
  intros [_ Hd] Hlen. unfold parse_block.
  destruct (py_int_of_long_digits (group m 1) Hd Hlen) as [e ->].
  exists e. reflexivity.
Qed.

Lemma parse_blocks_returns_iff ms :
  Forall (good is_digit 1) ms ->
  forall acc,
    (exists qs, parse_blocks ms acc = Returned qs)
    <-> Forall (fun m => (String.length (group m 1) <= int_max_str_digits)%nat) ms.
Proof.
  induction 1 as [|m ms Hg _ IH]; intros acc; cbn [parse_blocks].
  - split; [constructor | eexists; reflexivity].
  - destruct (Nat.le_gt_cases (String.length (group m 1)) int_max_str_digits)
      as [Hle|Hgt].
    + destruct (parse_block_returns m Hg Hle) as [q ->]. cbn [bind].
      rewrite IH. split; [intros H; constructor; assumption|].
      intros H. inversion H; assumption.
    + destruct (parse_block_raises m Hg Hgt) as [e ->]. cbn [bind]. split.
      * intros [qs H]. discriminate H.
      * intros H. inversion H; subst. lia.
Qed.

Lemma parse_blocks_count ms :
  forall acc qs,
    parse_blocks ms acc = Returned qs ->
    (List.length qs <= List.length acc + List.length ms)%nat.
Proof.
  induction ms as [|m ms IH]; intros acc qs H; cbn [parse_blocks] in H.
  - inversion H; subst. cbn. lia.
  - unfold bind in H at 1. destruct (parse_block m) as [[q|]|e]; [| |discriminate H].
    + apply IH in H. rewrite length_app in H. cbn [List.length] in *. lia.
    + apply IH in H. cbn [List.length]. lia.
Qed.

(** X12: quiz parsing returns a list exactly when no matched question block
    has a data-correct number of more than 4300 digits; in particular it
    returns for every input of at most 4300 characters, malformed or not.
    A returned list has at most one question per matched block. *)
Theorem X12_parse_quiz_returns_iff (html : string) :
  ((exists qs, _parse_quiz html = Returned qs)
   <-> Forall (fun m => (String.length (group m 1) <= int_max_str_digits)%nat)
              (finditer q_pattern html))
  /\ ((String.length html <= int_max_str_digits)%nat ->
      exists qs, _parse_quiz html = Returned qs)
  /\ (forall qs, _parse_quiz html = Returned qs ->
        (List.length qs <= List.length (finditer q_pattern html))%nat).
Proof.
  assert (Hg : Forall (good is_digit 1) (finditer q_pattern html)).
  { eapply Forall_impl; [|apply (q_pattern_index (String.length html)); lia].
    intros m [H _]. exact H. }
  split; [|split].
  - unfold _parse_quiz. apply parse_blocks_returns_iff, Hg.
  - intros H. unfold _parse_quiz. apply parse_blocks_returns.
    apply q_pattern_index, H.
  - intros qs H. apply parse_blocks_count in H. cbn [List.length] in H. lia.
Qed.

Lemma parse_block_trimmed m q :
  parse_block m = Returned (Some q) ->
  trimmed (question q) /\ trimmed (code_snippet q)
  /\ Forall trimmed (options q) /\ trimmed (explanation q).
Proof.
  unfold parse_block, bind.
  destruct (py_int (group m 1)) as [raw|e]; [|discriminate].
  destruct (map _ (finditer opt_pattern (group m 2))) as [|o os] eqn:E;
    [discriminate|].
  intros H. inversion H; subst; clear H. cbn [question code_snippet options explanation].
  split; [|split; [|split]].
  - destruct (search q_text_re _); [apply strip_trimmed | reflexivity].
  - destruct (search code_re _); [apply strip_trimmed | reflexivity].
  - rewrite <- E. rewrite Forall_map. apply Forall_forall. intros x _.
    apply strip_trimmed.
  - destruct (search exp_re _); [apply strip_trimmed | reflexivity].
Qed.

(** X13: in every parsed question the question text, the code snippet,
    each option and the explanation carry no whitespace at either end. *)
Theorem X13_parsed_texts_trimmed (html : string) :
  match _parse_quiz html with
  | Returned qs =>
      Forall (fun q => trimmed (question q) /\ trimmed (code_snippet q)
                       /\ Forall trimmed (options q) /\ trimmed (explanation q)) qs
  | Raised _ => True
  end.
Proof.
  unfold _parse_quiz.
  assert (G : forall ms acc,
    Forall (fun q => trimmed (question q) /\ trimmed (code_snippet q)
                     /\ Forall trimmed (options q) /\ trimmed (explanation q)) acc ->
    match parse_blocks ms acc with
    | Returned qs =>
        Forall (fun q => trimmed (question q) /\ trimmed (code_snippet q)
                         /\ Forall trimmed (options q) /\ trimmed (explanation q)) qs
    | Raised _ => True
    end).
  { induction ms as [|m ms IH]; intros acc Hacc; cbn [parse_blocks]; [exact Hacc|].
    destruct (parse_block m) as [[q|]|e] eqn:E; cbn [bind]; [| |exact I].
    - apply IH. apply Forall_app. split; [exact Hacc|].
      constructor; [|constructor]. eapply parse_block_trimmed; exact E.
    - apply IH. exact Hacc. }
  apply G. constructor.
Qed.

End QuizMore.

(* ------------------------------------------------------------------ *)
(** ** Completeness of the matcher *)
(* ------------------------------------------------------------------ *)

Section EngineComplete.

Import MatchSpec EngineSpec.

Lemma or_opt_l {A : Type} (a b : option A) : a <> None -> or_opt a b <> None.
Proof. destruct a; simpl; [discriminate | intros H; now elim H]. Qed.

Lemma or_opt_r {A : Type} (a b : option A) : b <> None -> or_opt a b <> None.
Proof. destruct a; simpl; [discriminate | auto]. Qed.

Lemma rmatch_star r st k :
  rmatch (Star r) st k = star_loop r k (String.length (rest st)) st.
Proof. reflexivity. Qed.

Lemma rmatch_lazy r st k :
  rmatch (LazyStar r) st k = lazy_loop r k (String.length (rest st)) st.
Proof. reflexivity. Qed.

Lemma rest_shrinks r st st' :
  matches r st st' -> consuming r = true ->
  (String.length (rest st') < String.length (rest st))%nat.
Proof.
  intros M Hc. destruct (matches_consumed r st st' M) as (t & R & P).
  destruct (matches_advances r st st' M) as [_ S]. specialize (S Hc).
  rewrite R, length_append. lia.
Qed.

(** Whenever [r] can match up to a position the continuation accepts, the
    matcher finds a match; for the stars, with any fuel that covers the
    text left. *)
Lemma rmatch_complete_fuel r st st' :
  matches r st st' -> productive r = true ->
  forall k, k st' <> None ->
    rmatch r st k <> None
    /\ (forall r1 fuel, r = Star r1 ->
          (String.length (rest st) <= fuel)%nat -> star_loop r1 k fuel st <> None)
    /\ (forall r1 fuel, r = LazyStar r1 ->
          (String.length (rest st) <= fuel)%nat -> lazy_loop r1 k fuel st <> None).
Proof.
  induction 1 as
    [ st | p c s' st E Ep | a b st st1 st2 _ IH1 _ IH2
    | a b st st' _ IH | a b st st' _ IH
    | r st | r st st1 st2 M1 IH1 M2 IH2
    | r st | r st st1 st2 M1 IH1 M2 IH2
    | i r st st1 _ IH | r st st1 _ IH | st E | st E | st E ];
    cbn [productive]; intros Hp k Hk.
  - repeat split; try discriminate. exact Hk.
  - repeat split; try discriminate. cbn [rmatch]. rewrite E, Ep. exact Hk.
  - apply andb_true_iff in Hp. destruct Hp as [Ha Hb].
    repeat split; try discriminate. cbn [rmatch].
    apply (IH1 Ha). apply (IH2 Hb), Hk.
  - apply andb_true_iff in Hp. destruct Hp as [Ha Hb].
    repeat split; try discriminate. cbn [rmatch].
    apply or_opt_l. apply (IH Ha), Hk.
  - apply andb_true_iff in Hp. destruct Hp as [Ha Hb].
    repeat split; try discriminate. cbn [rmatch].
    apply or_opt_r. apply (IH Hb), Hk.
  - assert (F : forall fuel, star_loop r k fuel st <> None).
    { intros [|fuel]; cbn [star_loop]; [exact Hk | apply or_opt_r, Hk]. }
    split; [rewrite rmatch_star; apply F|].
    split; [|discriminate]. intros r1 fuel E _. injection E as <-. apply F.
  - pose proof Hp as Hp'. apply andb_true_iff in Hp'. destruct Hp' as [Hc Hr].
    assert (F : forall fuel, (String.length (rest st) <= fuel)%nat ->
                             star_loop r k fuel st <> None).
    { intros fuel Hf. pose proof (rest_shrinks r st st1 M1 Hc) as Hs.
      destruct fuel as [|fuel]; [lia|]. cbn [star_loop].
      apply or_opt_l. apply (IH1 Hr).
      destruct (matches_advances r st st1 M1) as [_ S]. specialize (S Hc).
      apply N.ltb_lt in S. rewrite S.
      apply (IH2 Hp k Hk); [reflexivity | lia]. }
    split; [rewrite rmatch_star; apply F; lia|].
    split; [|discriminate]. intros r1 fuel E Hf. injection E as <-. now apply F.
  - assert (F : forall fuel, lazy_loop r k fuel st <> None).
    { intros [|fuel]; cbn [lazy_loop]; [exact Hk | apply or_opt_l, Hk]. }
    split; [rewrite rmatch_lazy; apply F|].
    split; [discriminate|]. intros r1 fuel E _. injection E as <-. apply F.
  - pose proof Hp as Hp'. apply andb_true_iff in Hp'. destruct Hp' as [Hc Hr].
    assert (F : forall fuel, (String.length (rest st) <= fuel)%nat ->
                             lazy_loop r k fuel st <> None).
    { intros fuel Hf. pose proof (rest_shrinks r st st1 M1 Hc) as Hs.
      destruct fuel as [|fuel]; [lia|]. cbn [lazy_loop].
      apply or_opt_r. apply (IH1 Hr).
      destruct (matches_advances r st st1 M1) as [_ S]. specialize (S Hc).
      apply N.ltb_lt in S. rewrite S.
      apply (IH2 Hp k Hk); [reflexivity | lia]. }
    split; [rewrite rmatch_lazy; apply F; lia|].
    split; [discriminate|]. intros r1 fuel E Hf. injection E as <-. now apply F.
  - repeat split; try discriminate. cbn [rmatch].
    apply (IH Hp (fun st1 => k (capture i st st1))), Hk.
  - repeat split; try discriminate. cbn [rmatch].
    destruct (rmatch r st Some) as [x|] eqn:E; [exact Hk|].
    exfalso. apply (proj1 (IH Hp Some ltac:(discriminate))), E.
  - repeat split; try discriminate. cbn [rmatch]. rewrite E. exact Hk.
  - repeat split; try discriminate. cbn [rmatch]. rewrite E. exact Hk.
  - repeat split; try discriminate. cbn [rmatch]. rewrite E. exact Hk.
Qed.

Lemma rmatch_complete r st st' k :
  matches r st st' -> productive r = true -> k st' <> None ->
  rmatch r st k <> None.
Proof. intros M Hp Hk. apply (rmatch_complete_fuel r st st' M Hp k Hk). Qed.


End EngineComplete.

(* ------------------------------------------------------------------ *)
(** ** Shapes of matches *)
(* ------------------------------------------------------------------ *)

Section MatchShapes.

Import MatchSpec EngineSpec.

Lemma matches_seq_inv a b st st' :
  matches (Seq a b) st st' -> exists st1, matches a st st1 /\ matches b st1 st'.
Proof. intros M. inversion M; subst. eauto. Qed.

Lemma matches_alt_inv a b st st' :
  matches (Alt a b) st st' -> matches a st st' \/ matches b st st'.
Proof. intros M. inversion M; subst; auto. Qed.

Lemma matches_eps_inv st st' : matches Eps st st' -> st' = st.
Proof. intros M. inversion M; subst. reflexivity. Qed.

Lemma matches_chr_inv p st st' :
  matches (Chr p) st st' ->
  exists c s', rest st = String c s' /\ p c = true /\ st' = advance c s' st.
Proof. intros M. inversion M; subst. eauto. Qed.

Lemma matches_group_inv i r st st' :
  matches (Group i r) st st' -> exists st1, matches r st st1 /\ st' = capture i st st1.
Proof. intros M. inversion M; subst. eauto. Qed.

Lemma matches_eos_inv st st' : matches Eos st st' -> st' = st /\ at_end st = true.
Proof. intros M. inversion M; subst. auto. Qed.

Lemma matches_bol_inv st st' :
  matches Bol st st' -> st' = st /\ at_line_start st = true.
Proof. intros M. inversion M; subst. auto. Qed.

Lemma consumed_chr c s' st : rest st = String c s' -> consumed st (advance c s' st) (String c "").
Proof. intros E. split; [exact E | cbn; lia]. Qed.

(** A literal consumes its own text and sets no group. *)
Lemma matches_lit_inv s :
  forall st st', matches (lit s) st st' -> consumed st st' s /\ groups st' = groups st.
Proof.
  induction s as [|c s IH]; intros st st' M.
  - cbn in M. apply matches_eps_inv in M. subst.
    split; [apply consumed_refl | reflexivity].
  - destruct s as [|d s].
    + cbn [lit] in M. apply matches_chr_inv in M. destruct M as (x & s' & E & Ex & ->).
      apply Ascii.eqb_eq in Ex. subst x.
      split; [now apply consumed_chr | reflexivity].
    + change (lit (String c (String d s)))
        with (Seq (Chr (Ascii.eqb c)) (lit (String d s))) in M.
      apply matches_seq_inv in M. destruct M as (st1 & M1 & M2).
      apply matches_chr_inv in M1. destruct M1 as (x & s' & E & Ex & ->).
      apply Ascii.eqb_eq in Ex. subst x.
      apply IH in M2. destruct M2 as [C G]. split.
      * change (String c (String d s)) with (String c "" ++ String d s).
        eapply consumed_trans; [|exact C]. now apply consumed_chr.
      * rewrite G. reflexivity.
Qed.

Lemma reaches_eps st : reaches Eps st (rest st).
Proof. exists st. split; [constructor | reflexivity]. Qed.

Lemma reaches_seq a b st t1 t2 :
  reaches a st t1 -> (forall st1, rest st1 = t1 -> reaches b st1 t2) ->
  reaches (Seq a b) st t2.
Proof.
  intros (st1 & M1 & R1) H. destruct (H st1 R1) as (st2 & M2 & R2).
  exists st2. split; [econstructor; eassumption | exact R2].
Qed.

Lemma reaches_alt_l a b st t : reaches a st t -> reaches (Alt a b) st t.
Proof. intros (st' & M & R). exists st'. split; [now apply m_alt_l | exact R]. Qed.

Lemma reaches_alt_r a b st t : reaches b st t -> reaches (Alt a b) st t.
Proof. intros (st' & M & R). exists st'. split; [now apply m_alt_r | exact R]. Qed.

Lemma reaches_chr p c s' st :
  rest st = String c s' -> p c = true -> reaches (Chr p) st s'.
Proof. intros E Ep. exists (advance c s' st). split; [now constructor | reflexivity]. Qed.

Lemma reaches_lit s : forall st t, rest st = s ++ t -> reaches (lit s) st t.
Proof.
  induction s as [|c s IH]; intros st t E.
  - cbn in E. subst t. apply reaches_eps.
  - destruct s as [|d s].
    + cbn [lit]. apply (reaches_chr _ c); [exact E | apply Ascii.eqb_refl].
    + change (lit (String c (String d s)))
        with (Seq (Chr (Ascii.eqb c)) (lit (String d s))).
      apply (reaches_seq _ _ _ (String d s ++ t)).
      * apply (reaches_chr _ c); [exact E | apply Ascii.eqb_refl].
      * intros st1 R. now apply IH.
Qed.

Lemma reaches_star_stop r st : reaches (Star r) st (rest st).
Proof. exists st. split; [constructor | reflexivity]. Qed.

Lemma reaches_lazy_all s : forall st t, rest st = s ++ t -> reaches (LazyStar dot_all) st t.
Proof.
  induction s as [|c s IH]; intros st t E.
  - cbn in E. subst t. exists st. split; [constructor | reflexivity].
  - destruct (IH (advance c (s ++ t) st) t eq_refl) as (st' & M & R).
    exists st'. split; [|exact R].
    eapply m_lazy_more; [|exact M]. now constructor.
Qed.

Lemma reaches_group i r st t : reaches r st t -> reaches (Group i r) st t.
Proof.
  intros (st' & M & R). exists (capture i st st').
  split; [now constructor | exact R].
Qed.

Lemma reaches_eos st : at_end st = true -> reaches Eos st (rest st).
Proof. intros E. exists st. split; [now constructor | reflexivity]. Qed.

Lemma reaches_bol st : at_line_start st = true -> reaches Bol st (rest st).
Proof. intros E. exists st. split; [now constructor | reflexivity]. Qed.

Lemma only_chars_lit s : only_chars (fun _ => true) (lit s).
Proof.
  induction s as [|c s IH]; [exact I|].
  destruct s as [|d s]; [cbn; auto|].
  change (lit (String c (String d s)))
    with (Seq (Chr (Ascii.eqb c)) (lit (String d s))).
  cbn [only_chars]. split; [auto | exact IH].
Qed.

End MatchShapes.

(* ------------------------------------------------------------------ *)
(** ** Padding *)
(* ------------------------------------------------------------------ *)

Section PadFacts.

Import MatchSpec TextSpec.

Lemma append_inj_l (a x y : string) : a ++ x = a ++ y -> x = y.
Proof. induction a as [|c a IH]; cbn; intros H; [exact H | injection H as H; auto]. Qed.

Lemma append_inj_r (c a b : string) : a ++ c = b ++ c -> a = b.
Proof.
  revert b. induction a as [|x a IH]; intros [|y b] H; cbn in H.
  - reflexivity.
  - exfalso. apply (f_equal String.length) in H. cbn in H.
    rewrite length_append in H. lia.
  - exfalso. apply (f_equal String.length) in H. cbn in H.
    rewrite length_append in H. lia.
  - injection H as -> H. now rewrite (IH b H).
Qed.

Lemma all_chars_app_inv q (a b : string) :
  all_chars q (a ++ b) -> all_chars q a /\ all_chars q b.
Proof.
  induction a as [|c a IH]; cbn; [auto|]. intros [H1 H2].
  destruct (IH H2). auto.
Qed.

(** A text that ends with a visible character has no blank tail. *)
Lemma tail_clean (a b t : string) (c : ascii) :
  a ++ String c "" = b ++ t -> is_space c = false -> all_chars is_space t -> t = "".
Proof.
  intros E Hc Ht. revert b E. induction a as [|x a IH]; intros [|y b] E; cbn in E.
  - subst t. destruct Ht as [Ht _]. congruence.
  - injection E as _ E. destruct b; [symmetry; exact E | discriminate E].
  - subst t. destruct Ht as [_ Ht]. apply all_chars_app_inv in Ht.
    destruct Ht as [_ [Ht _]]. congruence.
  - injection E as _ E. now apply (IH b).
Qed.

Lemma lstrip_blank (a : string) : all_chars is_space a -> lstrip a = "".
Proof. induction a as [|c a IH]; cbn; [auto | intros [-> H]; auto]. Qed.

Lemma rstrip_blank (a : string) : all_chars is_space a -> rstrip a = "".
Proof.
  induction a as [|c a IH]; cbn [rstrip all_chars]; [auto|].
  intros [Hc H]. now rewrite (IH H), Hc.
Qed.

Lemma lstrip_pad (a s : string) : all_chars is_space a -> lstrip (a ++ s) = lstrip s.
Proof. induction a as [|c a IH]; cbn; [auto | intros [-> H]; auto]. Qed.

Lemma rstrip_pad (s b : string) : all_chars is_space b -> rstrip (s ++ b) = rstrip s.
Proof.
  intros Hb. induction s as [|c s IH]; cbn [append rstrip].
  - now apply rstrip_blank.
  - now rewrite IH.
Qed.

Lemma strip_pad_r (s b : string) : all_chars is_space b -> strip (s ++ b) = strip s.
Proof.
  intros Hb. unfold strip. induction s as [|c s IH]; cbn [append lstrip].
  - rewrite (lstrip_blank b Hb). reflexivity.
  - destruct (is_space c); [exact IH|].
    change (String c (s ++ b)) with (String c s ++ b). now apply rstrip_pad.
Qed.

(** Blank text around a text does not change what [strip] gives. *)
Lemma strip_pad (a s b : string) :
  all_chars is_space a -> all_chars is_space b -> strip (a ++ s ++ b) = strip s.
Proof.
  intros Ha Hb. unfold strip. rewrite (lstrip_pad a _ Ha).
  apply (strip_pad_r s b Hb).
Qed.

Lemma rstrip_ends_clean (x : string) (c : ascii) :
  is_space c = false -> rstrip (x ++ String c "") = x ++ String c "".
Proof.
  intros Hc. induction x as [|d x IH]; cbn [append rstrip].
  - now rewrite Hc.
  - rewrite IH. destruct x; reflexivity.
Qed.

Lemma clean_is_trimmed (s x : string) (c : ascii) :
  starts_clean s -> s = x ++ String c "" -> is_space c = false -> strip s = s.
Proof.
  intros Hs E Hc. unfold strip. rewrite (lstrip_clean s Hs).
  rewrite E. now apply rstrip_ends_clean.
Qed.

End PadFacts.

(* ------------------------------------------------------------------ *)
(** ** core/ai_provider.py: fences *)
(* ------------------------------------------------------------------ *)

Section FenceFacts.

Import MatchSpec EngineSpec TextSpec FenceSpec AIProvider.

Lemma code_10 c : (code c =? 10)%nat = true -> String c "" = LF.
Proof.
  intros H. apply Nat.eqb_eq in H. unfold code in H.
  unfold LF, chr. rewrite <- H, ascii_nat_embedding. reflexivity.
Qed.

Lemma LF_blank : all_chars is_space LF.
Proof. vm_compute. auto. Qed.

Lemma fence_tail_only_chars :
  only_chars (fun _ => true)
    (seqs [opt (ch 10); lit "```"; Star ws; Eos]).
Proof. cbn. auto 10. Qed.

(** What a match of the fence pattern looks like. *)
Lemma fence_shape s m :
  re_match fence_re s = Some m ->
  exists l w g o t,
    s = "```" ++ l ++ w ++ LF ++ g ++ o ++ "```" ++ t
    /\ (l = "html" \/ l = "xml" \/ l = "")
    /\ all_chars is_space w
    /\ (o = LF \/ o = "")
    /\ all_chars is_space t
    /\ group m 1 = g.
Proof.
  unfold re_match. intros H. apply rmatch_sound in H.
  destruct H as (st' & M & E). injection E as ->.
  unfold fence_re in M. cbn [seqs] in M.
  apply matches_seq_inv in M. destruct M as (s0 & M0 & M).
  apply matches_bol_inv in M0. destruct M0 as [-> _].
  apply matches_seq_inv in M. destruct M as (s1 & M1 & M).
  apply matches_lit_inv in M1. destruct M1 as [[R1 _] _]. cbn [rest] in R1.
  apply matches_seq_inv in M. destruct M as (s2 & M2 & M).
  assert (exists l, rest s1 = l ++ rest s2 /\ (l = "html" \/ l = "xml" \/ l = ""))
    as (l & R2 & Hl).
  { apply matches_alt_inv in M2. destruct M2 as [M2|M2].
    - apply matches_alt_inv in M2. destruct M2 as [M2|M2];
        apply matches_lit_inv in M2; destruct M2 as [[R _] _]; eauto.
    - apply matches_eps_inv in M2. subst s2. exists "". auto. }
  apply matches_seq_inv in M. destruct M as (s3 & M3 & M).
  apply (matches_only_chars is_space) in M3; [|cbn; auto].
  destruct M3 as (_ & w & [R3 _] & Hw).
  apply matches_seq_inv in M. destruct M as (s4 & M4 & M).
  apply matches_chr_inv in M4. destruct M4 as (c & s' & R4 & Hc & ->).
  apply code_10 in Hc.
  apply matches_seq_inv in M. destruct M as (s5 & M5 & M).
  apply matches_group_inv in M5. destruct M5 as (s5' & M5 & ->).
  destruct (matches_consumed _ _ _ M5) as (g & C5).
  pose proof (group_capture_same 1 _ _ _ C5) as G5.
  destruct C5 as [R5 _]. cbn [advance rest] in R5.
  pose proof (matches_only_chars (fun _ => true) _ _ _ M fence_tail_only_chars)
    as (Gm & _).
  cbn [seqs] in M.
  apply matches_seq_inv in M. destruct M as (s6 & M6 & M).
  assert (exists o, rest s5' = o ++ rest s6 /\ (o = LF \/ o = "")) as (o & R6 & Ho).
  { apply matches_alt_inv in M6. destruct M6 as [M6|M6].
    - apply matches_chr_inv in M6. destruct M6 as (d & s'' & R & Hd & ->).
      apply code_10 in Hd. exists LF. split; [|auto].
      cbn [capture rest] in R. rewrite R. rewrite <- Hd. reflexivity.
    - apply matches_eps_inv in M6. subst s6. exists "". auto. }
  apply matches_seq_inv in M. destruct M as (s7 & M7 & M).
  apply matches_lit_inv in M7. destruct M7 as [[R7 _] _].
  apply matches_seq_inv in M. destruct M as (s8 & M8 & M).
  apply (matches_only_chars is_space) in M8; [|cbn; auto].
  destruct M8 as (_ & w2 & [R8 _] & Hw2).
  apply matches_eos_inv in M. destruct M as [-> He].
  exists l, w, g, o, (w2 ++ rest s8).
  split; [|split; [exact Hl | split; [exact Hw | split; [exact Ho | split]]]].
  - rewrite R1, R2, R3, R4. change (String c s') with (String c "" ++ s').
    rewrite Hc, R5, R6, R7, R8. reflexivity.
  - apply all_chars_app; [exact Hw2|].
    unfold at_end in He. destruct (rest s8) as [|e [|e' r]]; [exact I| |discriminate].
    apply code_10 in He. rewrite He. apply LF_blank.
  - unfold group. rewrite Gm. exact G5.
Qed.

Lemma fenced_ends lang body :
  fenced lang body = ("```" ++ lang ++ LF ++ body ++ LF ++ "``") ++ "`".
Proof.
  unfold fenced. repeat rewrite append_assoc. reflexivity.
Qed.

Lemma fenced_trimmed lang body : strip (fenced lang body) = fenced lang body.
Proof.
  apply (clean_is_trimmed _ ("```" ++ lang ++ LF ++ body ++ LF ++ "``") "`"%char).
  - reflexivity.
  - apply fenced_ends.
  - reflexivity.
Qed.

Lemma fenced_matches lang body :
  lang = "" \/ lang = "html" \/ lang = "xml" ->
  re_match fence_re (fenced lang body) <> None.
Proof.
  intros Hl. unfold re_match.
  assert (R : reaches fence_re (MState 0 None (fenced lang body) []) "").
  { unfold fence_re. cbn [seqs].
    apply (reaches_seq _ _ _ (fenced lang body)); [now apply reaches_bol|].
    intros s0 R0.
    apply (reaches_seq _ _ _ (lang ++ LF ++ body ++ LF ++ "```"));
      [apply reaches_lit; exact R0|].
    intros s1 R1.
    apply (reaches_seq _ _ _ (LF ++ body ++ LF ++ "```")).
    { destruct Hl as [-> | [-> | ->]].
      - apply reaches_alt_r.
        change (rest s1 = LF ++ body ++ LF ++ "```") in R1.
        rewrite <- R1. apply reaches_eps.
      - apply reaches_alt_l, reaches_alt_l. apply reaches_lit. exact R1.
      - apply reaches_alt_l, reaches_alt_r. apply reaches_lit. exact R1. }
    intros s2 R2.
    apply (reaches_seq _ _ _ (LF ++ body ++ LF ++ "```"));
      [rewrite <- R2; apply reaches_star_stop|].
    intros s3 R3.
    apply (reaches_seq _ _ _ (body ++ LF ++ "```")).
    { apply (reaches_chr _ (ascii_of_nat 10)); [exact R3 | reflexivity]. }
    intros s4 R4.
    apply (reaches_seq _ _ _ (LF ++ "```")).
    { apply reaches_group. apply (reaches_lazy_all body). exact R4. }
    intros s5 R5.
    apply (reaches_seq _ _ _ "```").
    { apply reaches_alt_l. apply (reaches_chr _ (ascii_of_nat 10)); [exact R5 | reflexivity]. }
    intros s6 R6.
    apply (reaches_seq _ _ _ ""); [apply reaches_lit; exact R6|].
    intros s7 R7.
    apply (reaches_seq _ _ _ ""); [rewrite <- R7; apply reaches_star_stop|].
    intros s8 R8. rewrite <- R8. apply reaches_eos. unfold at_end. now rewrite R8. }
  destruct R as (st' & M & _).
  apply (rmatch_complete _ _ st' Some M); [reflexivity | discriminate].
Qed.

(** The text a fence holds, up to the blanks around it. *)
Lemma fenced_body lang body l w g o t :
  lang = "" \/ lang = "html" \/ lang = "xml" ->
  l = "html" \/ l = "xml" \/ l = "" ->
  all_chars is_space w -> o = LF \/ o = "" -> all_chars is_space t ->
  fenced lang body = "```" ++ l ++ w ++ LF ++ g ++ o ++ "```" ++ t ->
  strip g = strip body.
Proof.
  intros Hlang Hl Hw Ho Ht E.
  assert (t = "") as ->.
  { apply (tail_clean ("```" ++ lang ++ LF ++ body ++ LF ++ "``")
                      ("```" ++ l ++ w ++ LF ++ g ++ o ++ "```") t "`"%char);
      [|reflexivity | exact Ht].
    rewrite <- fenced_ends, E. repeat rewrite append_assoc. reflexivity. }
  unfold fenced in E. apply (append_inj_l "```") in E.
  assert (E' : (lang ++ LF ++ body ++ LF) ++ "```" = (l ++ w ++ LF ++ g ++ o) ++ "```").
  { repeat rewrite append_assoc. rewrite E. cbn. reflexivity. }
  apply append_inj_r in E'. clear E.
  assert (E : LF ++ body ++ LF = w ++ LF ++ g ++ o).
  { destruct Hlang as [-> | [-> | ->]], Hl as [-> | [-> | ->]];
      try (cbn in E'; discriminate E');
      try (apply (append_inj_l "html") in E'; exact E');
      try (apply (append_inj_l "xml") in E'; exact E');
      try exact E';
      (destruct w as [|c w]; [cbn in E'; discriminate E'|];
       destruct Hw as [Hc _]; cbn in E'; injection E' as <- _;
       vm_compute in Hc; discriminate Hc). }
  rewrite <- (strip_pad LF body LF LF_blank LF_blank), E.
  rewrite <- append_assoc. symmetry.
  apply strip_pad.
  - apply all_chars_app; [exact Hw | apply LF_blank].
  - destruct Ho as [-> | ->]; [apply LF_blank | exact I].
Qed.

(** X14: what _strip_fences returns never has whitespace at either end.
    It is the stripped input unless that has the form of a fence (three
    backticks, an optional html or xml tag, blanks, a line feed, a body, an
    optional line feed, three backticks, blanks), and then it is the
    stripped body; an input that does not start with three backticks once
    stripped, or carries another tag, keeps its fence. *)
Theorem X14_strip_fences_only_fences (text : string) :
  trimmed (_strip_fences text)
  /\ (_strip_fences text = strip text
      \/ exists l w g o t,
           strip text = "```" ++ l ++ w ++ LF ++ g ++ o ++ "```" ++ t
           /\ (l = "html" \/ l = "xml" \/ l = "")
           /\ all_chars is_space w /\ (o = LF \/ o = "") /\ all_chars is_space t
           /\ _strip_fences text = strip g)
  /\ (starts_with "```" (strip text) = false -> _strip_fences text = strip text).
Proof.
  unfold _strip_fences.
  destruct (re_match fence_re (strip text)) as [m|] eqn:E.
  - destruct (fence_shape _ _ E) as (l & w & g & o & t & Es & Hl & Hw & Ho & Ht & G).
    split; [apply strip_trimmed|]. split.
    + right. exists l, w, g, o, t. rewrite G. auto 10.
    + intros H. rewrite Es in H.
      rewrite (starts_with_prefix "```") in H. discriminate H.
  - split; [apply strip_trimmed|]. split; [left; reflexivity | reflexivity].
Qed.

(** X15: a body wrapped in a fence with no tag or with the tag html or xml,
    with any blanks before and after the fence, is unwrapped: the result is
    the stripped body, whatever the body holds (backticks included). *)
Theorem X15_strip_fences_unwraps (lang pad1 body pad2 : string) :
  In lang [""; "html"; "xml"] ->
  all_chars is_space pad1 -> all_chars is_space pad2 ->
  _strip_fences (pad1 ++ fenced lang body ++ pad2) = strip body.
Proof.
  intros Hin H1 H2.
  assert (Hl : lang = "" \/ lang = "html" \/ lang = "xml").
  { cbn in Hin. destruct Hin as [H | [H | [H | []]]]; auto. }
  unfold _strip_fences.
  rewrite (strip_pad pad1 _ pad2 H1 H2), fenced_trimmed.
  pose proof (fenced_matches lang body Hl) as Hm.
  destruct (re_match fence_re (fenced lang body)) as [m|] eqn:E; [|now elim Hm].
  destruct (fence_shape _ _ E) as (l & w & g & o & t & Es & Hl' & Hw & Ho & Ht & G).
  rewrite G. now apply (fenced_body lang body l w g o t).
Qed.

Lemma X15_strip_fences_unwraps_witness :
  _strip_fences ("" ++ fenced "html" "<p>ok</p>" ++ LF) = strip "<p>ok</p>".
Proof.
  apply (X15_strip_fences_unwraps "html" "" "<p>ok</p>" LF).
  - cbn. auto.
  - exact I.
  - vm_compute. auto.
Defined.

End FenceFacts.

(* ------------------------------------------------------------------ *)
(** ** config.py and the choice of a provider *)
(* ------------------------------------------------------------------ *)

Section ConfigFacts.

Import Config AIProvider ConfigSpec.

Lemma has_env_getenv env name : truthy (getenv env name "") = has_env env name.
Proof. unfold getenv, has_env. destruct (env name); reflexivity. Qed.

Lemma make_config_fields env cfg :
  make_config env = Returned cfg ->
  ai_provider cfg = _auto_detect_provider env
  /\ ai_model cfg = _auto_detect_model env (_auto_detect_provider env)
  /\ truthy (cyfrin_api_key cfg) = has_env env "CYFRIN_API_KEY"
  /\ truthy (openai_api_key cfg) = has_env env "OPENAI_API_KEY"
  /\ truthy (anthropic_api_key cfg) = has_env env "ANTHROPIC_API_KEY"
  /\ truthy (gemini_api_key cfg) = has_env env "GEMINI_API_KEY"
  /\ truthy (openrouter_api_key cfg) = has_env env "OPENROUTER_API_KEY".
Proof.
  unfold make_config. destruct (py_int _) as [p|e]; cbn [bind]; [|discriminate].
  intros H. injection H as <-. cbn.
  repeat split; apply has_env_getenv.
Qed.

Lemma auto_detect_model_set env provider : _auto_detect_model env provider <> "".
Proof.
  unfold _auto_detect_model.
  destruct (strip (getenv env "DIABLO_AI_MODEL" "")) as [|c s]; cbn [truthy];
    [|discriminate].
  repeat (match goal with |- context [if ?b then _ else _] => destruct b end);
    discriminate.
Qed.

(** X16: when DIABLO_AI_PROVIDER is unset or blank, the detected provider is
    one generate routes to, so no call fails on an unknown provider; the
    model name is never empty; and the only AI key validate can miss is the
    Gemini one, and only when no AI key is set at all. *)
Theorem X16_detected_provider_is_usable (env : environ) (cfg : Config) :
  lower (strip (getenv env "DIABLO_AI_PROVIDER" "")) = "" ->
  make_config env = Returned cfg ->
  In (ai_provider cfg) known_providers
  /\ ai_model cfg <> ""
  /\ (forall call system_prompt user_prompt temperature max_tokens,
        generate call cfg system_prompt user_prompt temperature max_tokens
        = routed call cfg system_prompt user_prompt temperature max_tokens)
  /\ (forall issue, In issue (validate cfg) ->
        issue = "CYFRIN_API_KEY is not set"
        \/ (issue = "GEMINI_API_KEY is not set" /\ no_ai_key env)).
Proof.
  intros Hx Hc.
  destruct (make_config_fields env cfg Hc) as (Hp & Hm & K0 & K1 & K2 & K3 & K4).
  assert (D : (has_env env "OPENROUTER_API_KEY" = true /\ ai_provider cfg = "openrouter")
              \/ (has_env env "OPENROUTER_API_KEY" = false
                  /\ has_env env "GEMINI_API_KEY" = true /\ ai_provider cfg = "gemini")
              \/ (has_env env "OPENROUTER_API_KEY" = false
                  /\ has_env env "GEMINI_API_KEY" = false
                  /\ has_env env "OPENAI_API_KEY" = true /\ ai_provider cfg = "openai")
              \/ (has_env env "OPENROUTER_API_KEY" = false
                  /\ has_env env "GEMINI_API_KEY" = false
                  /\ has_env env "OPENAI_API_KEY" = false
                  /\ has_env env "ANTHROPIC_API_KEY" = true
                  /\ ai_provider cfg = "anthropic")
              \/ (no_ai_key env /\ ai_provider cfg = "gemini")).
  { rewrite Hp. unfold _auto_detect_provider, no_ai_key. rewrite Hx. cbn [truthy].
    destruct (has_env env "OPENROUTER_API_KEY"); [left; auto|].
    destruct (has_env env "GEMINI_API_KEY"); [right; left; auto|].
    destruct (has_env env "OPENAI_API_KEY"); [right; right; left; auto|].
    destruct (has_env env "ANTHROPIC_API_KEY").
    - right; right; right; left. repeat split; reflexivity.
    - right; right; right; right. repeat split; reflexivity. }
  assert (Hk : mem (ai_provider cfg) known_providers = true).
  { destruct D as [[_ ->] | [(_ & _ & ->) | [(_ & _ & _ & ->)
                 | [(_ & _ & _ & _ & ->) | [_ ->]]]]]; reflexivity. }
  split; [|split; [|split]].
  - unfold mem in Hk. apply existsb_exists in Hk. destruct Hk as (x & Hin & Hx').
    apply String.eqb_eq in Hx'. now subst x.
  - rewrite Hm. apply auto_detect_model_set.
  - intros call sp up te mt. unfold generate, routed. now rewrite Hk.
  - intros issue Hin. unfold validate in Hin. rewrite K0, K1, K2, K3, K4 in Hin.
    destruct D as [[E Ep] | [(E1 & E2 & Ep) | [(E1 & E2 & E3 & Ep)
                 | [(E1 & E2 & E3 & E4 & Ep) | [(E1 & E2 & E3 & E4) Ep]]]]];
      rewrite Ep in Hin;
      cbn in Hin; rewrite ?E, ?E1, ?E2, ?E3, ?E4 in Hin; cbn in Hin;
      destruct (has_env env "CYFRIN_API_KEY"); cbn in Hin;
      repeat (destruct Hin as [Hin|Hin]; [subst issue|]); try contradiction; auto.
    all: right; split; [reflexivity | unfold no_ai_key; auto].
Qed.

Lemma X16_detected_provider_is_usable_witness :
  let env := env_of [("OPENAI_API_KEY", "sk-1")] in
  let cfg := mkConfig "" "https://solodit.cyfrin.io/api/v1/solodit/findings" "openai"
                      "sk-1" "" "" "" "gpt-4o-mini" "127.0.0.1" 8391 in
  In (ai_provider cfg) known_providers
  /\ ai_model cfg <> ""
  /\ (forall call system_prompt user_prompt temperature max_tokens,
        generate call cfg system_prompt user_prompt temperature max_tokens
        = routed call cfg system_prompt user_prompt temperature max_tokens)
  /\ (forall issue, In issue (validate cfg) ->
        issue = "CYFRIN_API_KEY is not set"
        \/ (issue = "GEMINI_API_KEY is not set" /\ no_ai_key env)).
Proof.
  intros env cfg. apply (X16_detected_provider_is_usable env cfg).
  - reflexivity.
  - vm_compute. reflexivity.
Defined.

(** X17: a provider named in DIABLO_AI_PROVIDER is taken as it is (trimmed,
    lower-cased).  If it is none of the four known ones, validate still
    reports no AI key as missing, and every call of generate raises. *)
Theorem X17_unknown_provider_passes_validation (env : environ) (cfg : Config) :
  make_config env = Returned cfg ->
  ~ In (ai_provider cfg) known_providers ->
  ai_provider cfg = lower (strip (getenv env "DIABLO_AI_PROVIDER" ""))
  /\ (forall issue, In issue (validate cfg) -> issue = "CYFRIN_API_KEY is not set")
  /\ (forall call system_prompt user_prompt temperature max_tokens,
        generate call cfg system_prompt user_prompt temperature max_tokens
        = Raised ("ValueError: Unknown AI provider: " ++ ai_provider cfg)).
Proof.
  intros Hc Hn.
  destruct (make_config_fields env cfg Hc) as (Hp & _).
  assert (Hk : mem (ai_provider cfg) known_providers = false).
  { destruct (mem (ai_provider cfg) known_providers) eqn:E; [|reflexivity].
    exfalso. apply Hn. unfold mem in E. apply existsb_exists in E.
    destruct E as (x & Hin & Hx). apply String.eqb_eq in Hx. now subst x. }
  split; [|split].
  - rewrite Hp. rewrite Hp in Hn. unfold _auto_detect_provider in *.
    destruct (lower (strip (getenv env "DIABLO_AI_PROVIDER" ""))) as [|c s];
      cbn [truthy] in *; [|reflexivity].
    exfalso. apply Hn.
    repeat (match goal with |- context [if ?b then _ else _] => destruct b end);
      cbn; auto.
  - intros issue Hin. unfold validate in Hin.
    cbn [mem existsb known_providers] in Hk.
    repeat (apply orb_false_iff in Hk; destruct Hk as [? Hk]).
    repeat match goal with H : String.eqb _ _ = false |- _ =>
      rewrite H in Hin; clear H end.
    cbn in Hin. destruct (truthy (cyfrin_api_key cfg)); cbn in Hin;
      [contradiction | destruct Hin as [<- | []]; reflexivity].
  - intros call sp up te mt. unfold generate. now rewrite Hk.
Qed.

Lemma X17_unknown_provider_passes_validation_witness :
  let env := env_of [("DIABLO_AI_PROVIDER", " Claude "); ("ANTHROPIC_API_KEY", "sk-2")] in
  let cfg := mkConfig "" "https://solodit.cyfrin.io/api/v1/solodit/findings" "claude"
                      "" "sk-2" "" "" "gemini-2.0-flash" "127.0.0.1" 8391 in
  ai_provider cfg = lower (strip (getenv env "DIABLO_AI_PROVIDER" ""))
  /\ (forall issue, In issue (validate cfg) -> issue = "CYFRIN_API_KEY is not set")
  /\ (forall call system_prompt user_prompt temperature max_tokens,
        generate call cfg system_prompt user_prompt temperature max_tokens
        = Raised ("ValueError: Unknown AI provider: " ++ ai_provider cfg)).
Proof.
  intros env cfg. apply (X17_unknown_provider_passes_validation env cfg).
  - vm_compute. reflexivity.
  - cbn. intros [H | [H | [H | [H | []]]]]; discriminate H.
Defined.

End ConfigFacts.

(* ------------------------------------------------------------------ *)
(** ** modules/dictionary.py *)
(* ------------------------------------------------------------------ *)

Section DictionaryFacts.

Import Config AIProvider Dictionary TextSpec.

Lemma generate_returns call cfg sp up te mt s :
  generate call cfg sp up te mt = Returned s ->
  In (ai_provider cfg) known_providers /\ trimmed s.
Proof.
  unfold generate. destruct (mem (ai_provider cfg) known_providers) eqn:Hk;
    [|discriminate].
  destruct (call _ _ _ _ _ _) as [r|e]; cbn [bind]; [|discriminate].
  intros H. injection H as <-. split.
  - unfold mem in Hk. apply existsb_exists in Hk. destruct Hk as (x & Hin & Hx).
    apply String.eqb_eq in Hx. now subst x.
  - unfold trimmed, _strip_fences.
    destruct (re_match fence_re (strip r)); apply strip_trimmed.
Qed.

(** X18: a dictionary search fails exactly when the Solodit search fails,
    with the same error; a failure of the summary never fails it.  The
    result carries the search result unchanged.  A summary is present only
    if one was asked for, findings came back and a known provider answered,
    and then it has no whitespace at either end. *)
Theorem X18_summary_failure_keeps_results
  (search_client : client) (call : backend) (cfg : Config)
  (q : string) (severity : option (list string)) (page page_size : Z)
  (with_summary : bool) :
  match search_client q (impact_filter severity) 1%Z page page_size with
  | Raised e =>
      search search_client (generate call cfg) q severity page page_size with_summary
      = Raised e
  | Returned r =>
      exists summary,
        search search_client (generate call cfg) q severity page page_size with_summary
        = Returned (mkDictionaryResult q r summary)
        /\ (forall s, summary = Some s ->
              with_summary = true /\ findings r <> []
              /\ In (ai_provider cfg) known_providers /\ trimmed s)
  end.
Proof.
  unfold search.
  destruct (search_client q (impact_filter severity) 1%Z page page_size) as [r|e];
    cbn [bind]; [|reflexivity].
  eexists. split; [reflexivity|]. intros s Hs.
  destruct with_summary; [|discriminate Hs].
  destruct (findings r) as [|f fs] eqn:Ef; [discriminate Hs|].
  destruct (generate call cfg _ _ _ _) as [s'|e] eqn:Eg; [|discriminate Hs].
  injection Hs as ->.
  destruct (generate_returns _ _ _ _ _ _ _ Eg) as [Hk Ht].
  split; [reflexivity | split; [discriminate | split; assumption]].
Qed.

End DictionaryFacts.

(* ------------------------------------------------------------------ *)
(** ** Letter case *)
(* ------------------------------------------------------------------ *)

Section CaseFacts.

Import MatchSpec EngineSpec CaseSpec Analyzer.






















End CaseFacts.

(* ------------------------------------------------------------------ *)
(** ** Substitution *)
(* ------------------------------------------------------------------ *)

Section SubFacts.

Import MatchSpec EngineSpec SelectionSpec.

Lemma state_at_pos k :
  forall p pv s, (k <= String.length s)%nat ->
    pos (state_at p pv s k) = (p + N.of_nat k)%N
    /\ String.length (rest (state_at p pv s k)) = (String.length s - k)%nat.
Proof.
  induction k as [|k IH]; intros p pv s Hk.
  - destruct s; cbn; split; lia.
  - destruct s as [|c s]; [cbn in Hk; lia|]. cbn [state_at].
    cbn [String.length] in Hk. destruct (IH (p + 1)%N (Some c) s) as [H1 H2]; [lia|].
    rewrite H1, H2. cbn [String.length]. split; lia.
Qed.

(** A found match is not empty and leaves less text than there was. *)
Lemma search_from_progress r s p pv g st :
  consuming r = true -> search_from r p pv s = Some (Found g st) ->
  (p + N.of_nat (String.length g) < pos st)%N
  /\ (String.length (rest st) < String.length s)%nat.
Proof.
  intros Hc H. destruct (search_from_leftmost r s _ _ _ _ H) as (L & M & _).
  apply rmatch_sound in M. destruct M as (st' & M & E). injection E as ->.
  destruct (state_at_pos _ p pv s L) as [P R].
  destruct (matches_advances _ _ _ M) as [_ A]. specialize (A Hc).
  pose proof (rest_shrinks _ _ _ M Hc) as S. split; lia.
Qed.

Lemma search_none_clean r P :
  fires r P ->
  forall s p pv, search_from r p pv s = None ->
    all_chars (fun c => negb (P c)) s.
Proof.
  intros F. induction s as [|c s IH]; intros p pv H; [exact I|].
  cbn [search_from] in H.
  destruct (rmatch r (MState p pv (String c s) []) Some) eqn:E; [discriminate|].
  destruct (search_from r (p + 1) (Some c) s) as [[g st]|] eqn:E1; [discriminate|].
  cbn [all_chars]. split; [|exact (IH _ _ E1)].
  destruct (P c) eqn:Ec; [|reflexivity].
  exfalso. exact (F (MState p pv (String c s) []) c s eq_refl Ec E).
Qed.

Lemma search_found_clean r P :
  fires r P ->
  forall s p pv g st, search_from r p pv s = Some (Found g st) ->
    all_chars (fun c => negb (P c)) g.
Proof.
  intros F. induction s as [|c s IH]; intros p pv g st H; cbn [search_from] in H.
  - destruct (rmatch r (MState p pv "" []) Some); [|discriminate].
    injection H as <- _. exact I.
  - destruct (rmatch r (MState p pv (String c s) []) Some) eqn:E.
    + injection H as <- _. exact I.
    + destruct (search_from r (p + 1) (Some c) s) as [[g1 st1]|] eqn:E1;
        [|discriminate].
      injection H as <- _. cbn [all_chars]. split; [|exact (IH _ _ _ _ E1)].
      destruct (P c) eqn:Ec; [|reflexivity].
      exfalso. exact (F (MState p pv (String c s) []) c s eq_refl Ec E).
Qed.

(** Deleting the matches of a pattern that fires on [P] leaves no [P]. *)
Lemma sub_from_clean r P :
  fires r P -> consuming r = true ->
  forall fuel s p pv, (String.length s < fuel)%nat ->
    all_chars (fun c => negb (P c)) (sub_from fuel r (fun _ => "") p pv s).
Proof.
  intros F Hc. induction fuel as [|fuel IH]; intros s p pv Hf; [lia|].
  cbn [sub_from]. destruct (search_from r p pv s) as [[g st]|] eqn:E.
  - destruct (search_from_progress r s p pv g st Hc E) as [Hp Hr].
    apply N.ltb_lt in Hp. rewrite Hp. cbn [append].
    apply all_chars_app; [exact (search_found_clean r P F _ _ _ _ _ E)|].
    apply IH. lia.
  - exact (search_none_clean r P F _ _ _ E).
Qed.

End SubFacts.

(* ------------------------------------------------------------------ *)
(** ** server.py: the name of a selection *)
(* ------------------------------------------------------------------ *)

Section SelectionFacts.

Import MatchSpec EngineSpec TextSpec SelectionSpec Analyzer Endpoints.

Lemma paren_fires : fires paren_re is_paren.
Proof.
  intros st c s' E Ec.
  apply (rmatch_complete paren_re st (advance c s' st) Some);
    [|reflexivity | discriminate].
  unfold paren_re. eapply m_seq; [|apply m_star_stop].
  constructor; [exact E | exact Ec].
Qed.

Lemma sub_paren_clean s :
  all_chars (fun c => negb (is_paren c)) (sub paren_re (fun _ => "") s).
Proof. unfold sub. apply (sub_from_clean paren_re is_paren paren_fires eq_refl). lia. Qed.

Lemma all_chars_lstrip q s : all_chars q s -> all_chars q (lstrip s).
Proof.
  induction s as [|c s IH]; cbn [lstrip]; [auto|]. intros H.
  destruct (is_space c); [apply IH, H | exact H].
Qed.

Lemma all_chars_rstrip q s : all_chars q s -> all_chars q (rstrip s).
Proof.
  induction s as [|c s IH]; cbn [rstrip]; [auto|]. intros [Hc H].
  specialize (IH H). destruct (rstrip s) as [|d t].
  - destruct (is_space c); cbn; auto.
  - cbn [all_chars]. auto.
Qed.

Lemma all_chars_strip q s : all_chars q s -> all_chars q (strip s).
Proof. intros H. apply all_chars_rstrip, all_chars_lstrip, H. Qed.

Lemma all_chars_lstrip_char q n s : all_chars q s -> all_chars q (lstrip_char n s).
Proof.
  induction s as [|c s IH]; cbn [lstrip_char]; [auto|]. intros H.
  destruct (code c =? n)%nat; [apply IH, H | exact H].
Qed.

Lemma lstrip_char_head n s :
  match lstrip_char n s with
  | String c _ => (code c =? n)%nat = false
  | EmptyString => True
  end.
Proof.
  induction s as [|c s IH]; cbn [lstrip_char]; [exact I|].
  destruct (code c =? n)%nat eqn:E; [exact IH | exact E].
Qed.

Lemma lstrip_underscores s : starts_with "_" (lstrip_char 95 s) = false.
Proof.
  pose proof (lstrip_char_head 95 s) as H.
  destruct (lstrip_char 95 s) as [|c t]; [reflexivity|].
  cbn [starts_with]. rewrite andb_true_r.
  destruct (Ascii.eqb "_" c) eqn:E; [|reflexivity].
  apply Ascii.eqb_eq in E. subst c. discriminate H.
Qed.

(** The words of a text hold no whitespace, and nothing the text lacks. *)
Lemma split_ws_words q s :
  all_chars q s ->
  Forall (fun t => t <> "" /\ all_chars (fun c => negb (is_space c) && q c) t)
         (split_ws s).
Proof.
  induction s as [|c s IH]; intros H; [constructor|].
  destruct H as [Hc H]. specialize (IH H). cbn [split_ws].
  destruct (is_space c) eqn:Ec; [exact IH|].
  assert (Hone : String c "" <> ""
                 /\ all_chars (fun c => negb (is_space c) && q c) (String c "")).
  { split; [discriminate|]. cbn. now rewrite Ec, Hc. }
  destruct s as [|d s]; [constructor; [exact Hone | constructor]|].
  destruct (is_space d) eqn:Ed; [constructor; [exact Hone | exact IH]|].
  destruct (split_ws (String d s)) as [|t ts]; [constructor; [exact Hone | constructor]|].
  inversion IH as [|? ? [_ Ht] Hts]; subst.
  constructor; [|exact Hts]. split; [discriminate|].
  cbn [all_chars]. rewrite Ec, Hc. auto.
Qed.

Lemma split_ws_none s : split_ws s = [] -> all_chars is_space s.
Proof.
  induction s as [|c s IH]; [intros; exact I|]. cbn [split_ws].
  destruct (is_space c) eqn:Ec; [intros H; split; [exact Ec | exact (IH H)]|].
  destruct s as [|d s]; [discriminate|].
  destruct (is_space d); [discriminate|].
  destruct (split_ws (String d s)); discriminate.
Qed.

Lemma last_in {A : Type} (l : list A) (d : A) : l <> [] -> In (last l d) l.
Proof.
  induction l as [|x l IH]; [congruence|]. intros _.
  destruct l as [|y l]; [now left|]. right. apply IH. discriminate.
Qed.

Lemma blank_strip s : all_chars is_space (strip s) -> strip s = "".
Proof.
  intros H. rewrite <- (strip_trimmed s). unfold strip at 1.
  now rewrite (lstrip_blank _ H).
Qed.

Lemma underscore_blind c : lower_char c = "_"%char -> (code c =? 95)%nat = true.
Proof.
  destruct c as [[] [] [] [] [] [] [] []]; vm_compute; intros H;
    first [reflexivity | discriminate H].
Qed.

Lemma bare_split c : bare c = true <-> is_space c = false /\ is_paren c = false.
Proof.
  unfold bare. rewrite andb_true_iff, !negb_true_iff. reflexivity.
Qed.

Lemma selection_name_bare raw_selection : all_chars bare (selection_name raw_selection).
Proof.
  unfold selection_name. apply all_chars_lstrip_char.
  pose proof (all_chars_strip _ _ (sub_paren_clean raw_selection)) as Hs.
  pose proof (split_ws_words _ _ Hs) as Hw.
  destruct (split_ws (strip (sub paren_re (fun _ => "") raw_selection)))
    as [|t ts] eqn:E.
  - apply split_ws_none in E. rewrite (blank_strip _ E). exact I.
  - rewrite Forall_forall in Hw.
    assert (Hne : t :: ts <> []) by discriminate.
    destruct (Hw (last (t :: ts) "") (last_in _ _ Hne)) as [_ H].
    exact H.
Qed.

(** X20: the name taken from a selection is one bare word: it holds no
    whitespace and no opening parenthesis, and it does not start with an
    underscore.  So its lower-case form is never _balances: of the three
    names of the balance mapping in the relevance score, only balance and
    balances can apply. *)
Theorem X20_selection_name_is_a_bare_word (raw_selection : string) :
  let sel_name := selection_name raw_selection in
  all_chars bare sel_name
  /\ starts_with "_" sel_name = false
  /\ mem (lower sel_name) Server.balance_tokens
     = (String.eqb (lower sel_name) "balance" || String.eqb (lower sel_name) "balances").
Proof.
  cbv zeta.
  assert (Hhead : starts_with "_" (selection_name raw_selection) = false).
  { unfold selection_name. apply lstrip_underscores. }
  split; [|split; [exact Hhead|]].
  - apply selection_name_bare.
  - unfold Server.balance_tokens. cbn [mem existsb]. rewrite orb_false_r.
    destruct (String.eqb (lower (selection_name raw_selection)) "_balances") eqn:E;
      [|now rewrite orb_false_r].
    exfalso. apply String.eqb_eq in E.
    destruct (selection_name raw_selection) as [|c t]; [discriminate E|].
    cbn in E. injection E as E _. apply underscore_blind in E.
    cbn [starts_with] in Hhead. rewrite andb_true_r in Hhead.
    apply Ascii.eqb_neq in Hhead. apply Hhead.
    apply Nat.eqb_eq in E. unfold code in E.
    rewrite <- (ascii_nat_embedding c), E. reflexivity.
Qed.

End SelectionFacts.

(* ------------------------------------------------------------------ *)
(** ** server.py: the queries of /pitfall and /fix-draft *)
(* ------------------------------------------------------------------ *)

Section QueryFacts.

Import MatchSpec TextSpec SelectionSpec Analyzer Endpoints.

Lemma all_chars_impl (q1 q2 : ascii -> bool) s :
  (forall c, q1 c = true -> q2 c = true) -> all_chars q1 s -> all_chars q2 s.
Proof.
  intros Hq. induction s as [|c s IH]; cbn; [auto|]. intros [H1 H2]. auto.
Qed.

Lemma rstrip_no_space t :
  all_chars (fun c => negb (is_space c)) t -> rstrip t = t.
Proof.
  induction t as [|c t IH]; [reflexivity|]. intros [Hc Ht].
  cbn [rstrip]. rewrite (IH Ht). destruct t; [|reflexivity].
  apply negb_true_iff in Hc. now rewrite Hc.
Qed.

Lemma strip_no_space t :
  all_chars (fun c => negb (is_space c)) t -> strip t = t.
Proof.
  intros H. unfold strip.
  assert (lstrip t = t) as ->.
  { destruct t as [|c t]; [reflexivity|]. destruct H as [Hc _].
    apply negb_true_iff in Hc. cbn [lstrip]. now rewrite Hc. }
  now apply rstrip_no_space.
Qed.

Lemma selection_name_trimmed raw : strip (selection_name raw) = selection_name raw.
Proof.
  apply strip_no_space.
  pose proof (selection_name_bare raw) as H.
  revert H. apply all_chars_impl. intros c Hc. apply bare_split in Hc.
  destruct Hc as [Hc _]. now rewrite Hc.
Qed.

Lemma truthy_nonempty s : truthy s = true <-> s <> "".
Proof. destruct s; cbn; split; congruence. Qed.

Lemma unique_stripped_spec candidates :
  forall seen,
    NoDup (map lower (unique_stripped candidates seen))
    /\ (forall q, In q (unique_stripped candidates seen) ->
          q <> "" /\ trimmed q /\ ~ In (lower q) seen
          /\ exists c, In c candidates /\ q = strip c)
    /\ (forall c, In c candidates -> strip c <> "" ->
          In (lower (strip c)) seen
          \/ In (lower (strip c)) (map lower (unique_stripped candidates seen))).
Proof.
  induction candidates as [|c0 cs IH]; intros seen; cbn [unique_stripped].
  - split; [constructor|]. split; [intros q [] | intros c []].
  - destruct (truthy (strip c0)) eqn:Et; cbn [negb].
    + destruct (mem (lower (strip c0)) seen) eqn:E.
      * destruct (IH seen) as (N & S & C). split; [exact N|]. split.
        -- intros q Hq. destruct (S q Hq) as (H1 & H2 & H3 & c & Hc & Eq).
           repeat split; try assumption. exists c. split; [now right | exact Eq].
        -- intros c [->|Hc] Hne; [left; now apply mem_In | now apply C].
      * destruct (IH (lower (strip c0) :: seen)) as (N & S & C).
        apply mem_not_In in E. split; [|split].
        -- cbn [map]. constructor; [|exact N]. intros Hin.
           apply in_map_iff in Hin. destruct Hin as (q & Hl & Hq).
           destruct (S q Hq) as (_ & _ & Hn & _). apply Hn. left. now symmetry.
        -- intros q [<-|Hq].
           ++ split; [now apply truthy_nonempty|]. split; [apply strip_trimmed|].
              split; [exact E|]. exists c0. split; [now left | reflexivity].
           ++ destruct (S q Hq) as (H1 & H2 & H3 & c & Hc & Eq).
              split; [exact H1|]. split; [exact H2|]. split.
              ** intros H. apply H3. now right.
              ** exists c. split; [now right | exact Eq].
        -- intros c [->|Hc] Hne; [right; now left|].
           destruct (C c Hc Hne) as [[H|H]|H].
           ++ right. left. exact H.
           ++ now left.
           ++ right. now right.
    + destruct (IH seen) as (N & S & C). split; [exact N|]. split.
      * intros q Hq. destruct (S q Hq) as (H1 & H2 & H3 & c & Hc & Eq).
        repeat split; try assumption. exists c. split; [now right | exact Eq].
      * intros c [->|Hc] Hne; [|now apply C].
        apply truthy_nonempty in Hne. congruence.
Qed.

Lemma first_occurrences_spec qs :
  forall before,
    NoDup (first_occurrences qs before)
    /\ (forall q, In q (first_occurrences qs before)
                  <-> In q qs /\ q <> "" /\ ~ In q before).
Proof.
  induction qs as [|q0 qs IH]; intros before; cbn [first_occurrences].
  - split; [constructor|]. intros q. split; [intros [] | intros [[] _]].
  - destruct (IH (before ++ [q0])%list) as (N & S).
    assert (Hrest : forall q, In q (first_occurrences qs (before ++ [q0])%list)
                              <-> In q qs /\ q <> "" /\ ~ In q before /\ q <> q0).
    { intros q. rewrite S. split.
      - intros (H1 & H2 & H3). repeat split; try assumption.
        + intros H. apply H3, in_or_app. now left.
        + intros ->. apply H3, in_or_app. right. now left.
      - intros (H1 & H2 & H3 & H4). repeat split; try assumption.
        intros H. apply in_app_or in H. destruct H as [H|[H|[]]]; [auto | congruence]. }
    destruct (truthy q0) eqn:Et; cbn [andb].
    + destruct (mem q0 before) eqn:E; cbn [negb app].
      * split; [exact N|]. intros q. rewrite Hrest. apply mem_In in E. split.
        -- intros (H1 & H2 & H3 & H4). repeat split; try assumption. now right.
        -- intros ([->|H1] & H2 & H3); [contradiction|].
           repeat split; try assumption. intros ->. contradiction.
      * apply mem_not_In in E. split.
        -- constructor; [|exact N]. intros H. apply Hrest in H.
           destruct H as (_ & _ & _ & H). now apply H.
        -- intros q. cbn [In]. rewrite Hrest. split.
           ++ intros [<-|(H1 & H2 & H3 & H4)].
              ** split; [now left|]. split; [now apply truthy_nonempty | exact E].
              ** repeat split; try assumption. now right.
           ++ intros ([->|H1] & H2 & H3); [now left|].
              destruct (string_dec q q0) as [->|Hn]; [now left|].
              right. repeat split; assumption.
    + cbn [app]. split; [exact N|]. intros q. rewrite Hrest. split.
      * intros (H1 & H2 & H3 & H4). repeat split; try assumption. now right.
      * intros ([->|H1] & H2 & H3).
        -- apply truthy_nonempty in H2. congruence.
        -- repeat split; try assumption. intros ->.
           apply truthy_nonempty in H2. congruence.
Qed.

Lemma take_clean n s : s <> "" -> starts_clean s -> strip (take (S n) s) <> "".
Proof.
  destruct s as [|c s]; [congruence|]. intros _ Hc. cbn [starts_clean] in Hc.
  cbn [take]. unfold strip. cbn [lstrip]. rewrite Hc.
  cbn [rstrip]. destruct (rstrip (take n s)); [rewrite Hc|]; discriminate.
Qed.

Lemma strip_starts_clean s : starts_clean (strip s).
Proof. apply rstrip_starts_clean, lstrip_starts_clean. Qed.

(** X21: the queries of /pitfall are the candidates stripped, without the
    blank ones and without repeats up to case; every candidate that is not
    blank is kept up to case.  When the selection has a name, the name is
    the first query and so the reported query_used; and query_used is empty
    only for a blank selection.  The queries of /fix-draft are the
    candidates that are not empty, each once, and here too the name of the
    selection comes first. *)
Theorem X21_queries_deduplicated_name_first
  (selection : string) (ctx : CodeContext) (suggested_keywords : list string) :
  let raw := strip selection in
  let sel_name := selection_name raw in
  let candidates := pitfall_candidates raw sel_name ctx suggested_keywords in
  let queries := pitfall_queries selection ctx suggested_keywords in
  let drafts := fix_draft_queries selection ctx suggested_keywords in
  (NoDup (map lower queries)
   /\ (forall q, In q queries ->
         q <> "" /\ trimmed q /\ exists c, In c candidates /\ q = strip c)
   /\ (forall c, In c candidates -> strip c <> "" ->
         In (lower (strip c)) (map lower queries))
   /\ (sel_name <> "" -> query_used queries raw = sel_name)
   /\ (raw <> "" -> query_used queries raw <> ""))
  /\ (NoDup drafts
      /\ (forall q, In q drafts
                    <-> In q (fix_draft_candidates sel_name ctx suggested_keywords)
                        /\ q <> "")
      /\ (sel_name <> "" -> query_used drafts raw = sel_name)).
Proof.
  cbv zeta. split.
  - unfold pitfall_queries.
    destruct (unique_stripped_spec
                (pitfall_candidates (strip selection)
                   (selection_name (strip selection)) ctx suggested_keywords) [])
      as (N & S & C).
    assert (Hname : selection_name (strip selection) <> "" ->
                    query_used
                      (unique_stripped
                         (pitfall_candidates (strip selection)
                            (selection_name (strip selection)) ctx suggested_keywords)
                         []) (strip selection)
                    = selection_name (strip selection)).
    { intros Hn. unfold pitfall_candidates.
      apply truthy_nonempty in Hn. rewrite Hn. cbn [app unique_stripped].
      rewrite selection_name_trimmed, Hn. cbn [negb mem existsb query_used].
      reflexivity. }
    split; [exact N|]. split.
    { intros q Hq. destruct (S q Hq) as (H1 & H2 & _ & H4). auto. }
    split.
    { intros c Hc Hne. destruct (C c Hc Hne) as [[]|H]. exact H. }
    split; [exact Hname|].
    intros Hraw.
    destruct (string_dec (selection_name (strip selection)) "") as [E|E];
      [|rewrite (Hname E); exact E].
    assert (Hc : In (take 120 (strip selection))
                    (pitfall_candidates (strip selection)
                       (selection_name (strip selection)) ctx suggested_keywords)).
    { unfold pitfall_candidates. rewrite E.
      apply truthy_nonempty in Hraw. rewrite Hraw.
      assert (String.eqb (strip selection) "" = false) as ->.
      { apply String.eqb_neq. now apply truthy_nonempty. }
      cbn [negb andb]. repeat (apply in_or_app; right). now left. }
    assert (Hne : strip (take 120 (strip selection)) <> "").
    { apply take_clean; [exact Hraw | apply strip_starts_clean]. }
    destruct (C _ Hc Hne) as [[]|H].
    destruct (unique_stripped _ []) as [|q qs] eqn:Eq; [destruct H|].
    cbn [query_used]. destruct (S q (or_introl eq_refl)) as (H1 & _). exact H1.
  - unfold fix_draft_queries.
    destruct (first_occurrences_spec
                (fix_draft_candidates (selection_name (strip selection)) ctx
                   suggested_keywords) []) as (N & S).
    split; [exact N|]. split.
    + intros q. rewrite S. split; [intros (H1 & H2 & _); auto|].
      intros (H1 & H2). repeat split; auto.
    + intros Hn. unfold fix_draft_candidates.
      pose proof Hn as Ht. apply truthy_nonempty in Ht. rewrite Ht.
      cbn [app first_occurrences]. rewrite Ht. cbn [mem existsb negb andb app].
      reflexivity.
Qed.

End QueryFacts.

(* ------------------------------------------------------------------ *)
(** ** server.py: the merge of the two analyses *)
(* ------------------------------------------------------------------ *)

Section MergeFacts.

Import Analyzer Endpoints.

Lemma merge_risks_spec other :
  forall own,
    exists added,
      merge_risks own other = (own ++ added)%list
      /\ NoDup added
      /\ (forall t, In t added <-> In t other /\ ~ In t own).
Proof.
  unfold merge_risks.
  induction other as [|rp other IH]; intros own; cbn [fold_left].
  - exists []. split; [now rewrite app_nil_r|]. split; [constructor|].
    intros t. split; [intros [] | intros [[] _]].
  - destruct (mem rp own) eqn:E.
    + destruct (IH own) as (added & E1 & N & S). exists added.
      split; [exact E1|]. split; [exact N|]. intros t. rewrite S.
      apply mem_In in E. split.
      * intros [H1 H2]. split; [now right | exact H2].
      * intros [[->|H1] H2]; [contradiction | auto].
    + destruct (IH (own ++ [rp])%list) as (added & E1 & N & S).
      apply mem_not_In in E. exists (rp :: added). split; [|split].
      * rewrite E1, <- app_assoc. reflexivity.
      * constructor; [|exact N]. intros H. apply S in H. destruct H as [_ H].
        apply H, in_or_app. right. now left.
      * intros t. cbn [In]. rewrite S. split.
        -- intros [<-|[H1 H2]]; [split; [now left | exact E]|].
           split; [now right|]. intros H. apply H2, in_or_app. now left.
        -- intros [[->|H1] H2]; [now left|].
           destruct (string_dec rp t) as [->|Hn]; [now left|].
           right. split; [exact H1|]. intros H. apply in_app_or in H.
           destruct H as [H|[H|[]]]; [auto | congruence].
Qed.

Lemma merge_risks_same own : merge_risks own own = own.
Proof.
  destruct (merge_risks_spec own own) as (added & E & _ & S).
  rewrite E. destruct added as [|t added]; [apply app_nil_r|].
  destruct (proj1 (S t) (or_introl eq_refl)) as [H1 H2]. contradiction.
Qed.

Lemma merge_context_same b ctx : merge_context b ctx ctx = ctx.
Proof.
  destruct ctx as [fn ft pt rs ec cf]. unfold merge_context.
  cbn [function_name function_type protocol_type risk_patterns external_calls
       confidence].
  rewrite merge_risks_same.
  destruct (truthy fn), (truthy pt), b; reflexivity.
Qed.

(** X22: when the analysis of the surrounding code is merged into that of
    the selection, the risk patterns of the selection stay first and in
    place; the surrounding code adds exactly its tags that the selection
    lacks, each once.  A name, and for /pitfall a protocol type, is taken
    over only where the selection has none.  function_type, external_calls
    and confidence are never updated: they describe the selection alone.
    Without surrounding code the analysis is that of the selection. *)
Theorem X22_merge_keeps_selection_first
  (with_protocol : bool) (selection surrounding_code : string) :
  let sel := analyze selection in
  let full := analyze surrounding_code in
  let ctx := request_context with_protocol selection surrounding_code in
  (exists added,
      risk_patterns ctx = (risk_patterns sel ++ added)%list
      /\ NoDup added
      /\ (forall t, In t added ->
            In t (risk_patterns full) /\ ~ In t (risk_patterns sel))
      /\ (surrounding_code <> "" ->
          forall t, In t (risk_patterns full) -> In t (risk_patterns ctx)))
  /\ (function_name ctx
      = if truthy (function_name sel) then function_name sel
        else if truthy surrounding_code then function_name full else "")
  /\ (protocol_type ctx
      = if truthy (protocol_type sel) then protocol_type sel
        else if with_protocol && truthy surrounding_code then protocol_type full
        else "")
  /\ function_type ctx = function_type sel
  /\ external_calls ctx = external_calls sel
  /\ confidence ctx = confidence sel
  /\ (surrounding_code = "" -> ctx = sel).
Proof.
  cbv zeta. unfold request_context.
  generalize (analyze selection) as sel. generalize (analyze surrounding_code) as full.
  intros full sel.
  destruct (truthy surrounding_code) eqn:Es.
  - split; [|split; [|split; [|split; [|split; [|split]]]]]; try reflexivity.
    + unfold merge_context. cbn [risk_patterns].
      destruct (merge_risks_spec (risk_patterns full) (risk_patterns sel))
        as (added & E & N & S).
      exists added. split; [exact E|]. split; [exact N|]. split.
      * intros t Ht. now apply S.
      * intros _ t Ht. rewrite E. apply in_or_app.
        destruct (in_dec string_dec t (risk_patterns sel)) as [H|H]; [now left|].
        right. apply S. auto.
    + unfold merge_context. cbn [function_name].
      destruct (truthy (function_name sel)) eqn:E1; cbn [negb andb]; [reflexivity|].
      destruct (function_name full) eqn:E2; cbn [truthy]; [|reflexivity].
      destruct (function_name sel); [reflexivity | discriminate E1].
    + unfold merge_context. cbn [protocol_type].
      destruct (truthy (protocol_type sel)) eqn:E1;
        [now rewrite andb_false_r|].
      destruct with_protocol; cbn [negb andb]; [|
        destruct (protocol_type sel); [reflexivity | discriminate E1]].
      destruct (protocol_type full) eqn:E2; cbn [truthy]; [|reflexivity].
      destruct (protocol_type sel); [reflexivity | discriminate E1].
    + intros ->. discriminate Es.
  - rewrite merge_context_same.
    split; [|split; [|split; [|split; [|split; [|split]]]]]; try reflexivity.
    + exists []. split; [now rewrite app_nil_r|]. split; [constructor|].
      split; [intros t [] | intros H; destruct surrounding_code; [congruence | discriminate Es]].
    + destruct (truthy (function_name sel)) eqn:E1; [reflexivity|].
      destruct (function_name sel); [reflexivity | discriminate E1].
    + rewrite andb_false_r.
      destruct (truthy (protocol_type sel)) eqn:E1; [reflexivity|].
      destruct (protocol_type sel); [reflexivity | discriminate E1].
Qed.

End MergeFacts.

(* ------------------------------------------------------------------ *)
(** ** server.py: the answers of /fix-draft and /pitfall *)
(* ------------------------------------------------------------------ *)

Section AnswerFacts.

Import MatchSpec EngineSpec TextSpec AnswerSpec.
Import Config AIProvider Analyzer Solodit Server Endpoints.

Lemma style_head q p pv c s :
  is_space c = false ->
  rmatch (Scout.style_re q) (MState p pv (String c s) []) Some = None.
Proof.
  intros Hc. unfold Scout.style_re. cbn [seqs]. unfold ws at 1.
  cbn [rmatch rest]. now rewrite Hc.
Qed.

(** Removing style attributes keeps a first character that is not blank. *)
Lemma sub_style_head q c s :
  is_space c = false ->
  exists t, sub (Scout.style_re q) (fun _ => "") (String c s) = String c t.
Proof.
  intros Hc. unfold sub. cbn [sub_from search_from].
  rewrite (style_head q 0 None c s Hc).
  destruct (search_from (Scout.style_re q) (0 + 1) (Some c) s) as [[g st]|].
  - cbn [append]. eexists. reflexivity.
  - eexists. reflexivity.
Qed.

Lemma strip_styles_head c s :
  is_space c = false -> exists t, strip_styles (String c s) = String c t.
Proof.
  intros Hc. unfold strip_styles.
  destruct (sub_style_head 34 c s Hc) as (t & ->).
  apply (sub_style_head 39 c t Hc).
Qed.

Lemma strip_styles_nonempty s :
  s <> "" -> starts_clean s -> strip_styles s <> "".
Proof.
  destruct s as [|c s]; [congruence|]. intros _ Hc.
  destruct (strip_styles_head c s Hc) as (t & ->). discriminate.
Qed.

Lemma all_chars_state_at q k :
  forall p pv s, all_chars q s -> all_chars q (rest (state_at p pv s k)).
Proof.
  induction k as [|k IH]; intros p pv s H.
  - destruct s; exact H.
  - destruct s as [|c s]; [exact H|]. cbn [state_at]. apply IH. apply H.
Qed.

(** A style attribute holds its quote. *)
Lemma style_match_quote q st st' :
  matches (Scout.style_re q) st st' ->
  exists a x b, rest st = a ++ String x b /\ (code x =? q)%nat = true.
Proof.
  unfold Scout.style_re. cbn [seqs]. intros M.
  apply matches_seq_inv in M. destruct M as (s1 & M1 & M).
  apply matches_seq_inv in M. destruct M as (s2 & M2 & M).
  apply matches_seq_inv in M. destruct M as (s3 & M3 & _).
  destruct (matches_consumed _ _ _ M1) as (t1 & R1 & _).
  destruct (matches_consumed _ _ _ M2) as (t2 & R2 & _).
  apply matches_chr_inv in M3. destruct M3 as (x & b & R3 & Hx & _).
  exists (t1 ++ t2), x, b. split; [|exact Hx].
  rewrite R1, R2, R3, append_assoc. reflexivity.
Qed.

Lemma sub_style_noquote q repl s :
  all_chars (not_quote q) s -> sub (Scout.style_re q) repl s = s.
Proof.
  intros H. apply sub_without_match. unfold test, search.
  destruct (search_from (Scout.style_re q) 0 None s) as [[g st]|] eqn:E;
    [|reflexivity].
  exfalso. destruct (search_from_leftmost _ _ _ _ _ _ E) as (_ & M & _).
  apply rmatch_sound in M. destruct M as (st' & M & _).
  apply style_match_quote in M. destruct M as (a & x & b & R & Hx).
  pose proof (all_chars_state_at _ (String.length g) 0%N None s H) as Hr.
  rewrite R in Hr. apply all_chars_app_inv in Hr. destruct Hr as [_ [Hr _]].
  unfold not_quote in Hr. rewrite Hx in Hr. discriminate Hr.
Qed.

Lemma escape_no_quote q s :
  q = 34 \/ q = 39 -> all_chars (not_quote q) (escape s).
Proof.
  intros Hq. pose proof (escape_safe s) as H. revert H. apply all_chars_impl.
  intros c Hc. unfold ReportSpec.is_markup in Hc. unfold not_quote.
  apply negb_true_iff in Hc. apply orb_false_iff in Hc. destruct Hc as [Hc H39].
  apply orb_false_iff in Hc. destruct Hc as [_ H34].
  destruct Hq as [-> | ->]; [now rewrite H34 | now rewrite H39].
Qed.

Lemma fallback_draft_no_quote q fn :
  q = 34 \/ q = 39 -> all_chars (not_quote q) fn ->
  all_chars (not_quote q) (fallback_draft fn).
Proof.
  intros Hq Hfn. unfold fallback_draft.
  repeat (apply all_chars_app;
          [first [exact Hfn | destruct Hq as [-> | ->]; vm_compute; tauto]|]).
  destruct Hq as [-> | ->]; vm_compute; tauto.
Qed.

(** The cleanup leaves the built-in draft as it is. *)
Lemma fallback_draft_kept s : strip_styles (fallback_draft (escape s)) = fallback_draft (escape s).
Proof.
  unfold strip_styles.
  rewrite (sub_style_noquote 34);
    [|apply fallback_draft_no_quote; [now left | apply escape_no_quote; now left]].
  apply sub_style_noquote.
  apply fallback_draft_no_quote; [now right | apply escape_no_quote; now right].
Qed.

Lemma enumerate_from_ids {A : Type} (l : list A) :
  forall i, map fst (enumerate_from i l) = seq i (List.length l).
Proof.
  induction l as [|x l IH]; intros i; cbn; [reflexivity | now rewrite IH].
Qed.

Lemma references_numbered findings :
  map Scout.m_id (map reference_of (enumerate_from 1 findings))
  = reference_ids (List.length findings).
Proof.
  unfold reference_ids. rewrite <- (enumerate_from_ids findings 1).
  rewrite !map_map. apply map_ext. intros [i f]. reflexivity.
Qed.

Lemma enumerate_from_length {A : Type} (l : list A) :
  forall i, List.length (enumerate_from i l) = List.length l.
Proof. induction l as [|x l IH]; intros i; cbn; [reflexivity | now rewrite IH]. Qed.

Lemma trimmed_starts_clean s : trimmed s -> starts_clean s.
Proof. unfold trimmed. intros <-. apply strip_starts_clean. Qed.

(** X23: /fix-draft always answers, whatever searches fail and whatever the
    AI does.  Its draft is never empty: it is either what the AI returned
    (not empty) with its style attributes removed, or, when the AI failed or
    returned nothing, exactly the built-in draft for the escaped function
    name.  There are at most 3 references, numbered F1, F2, F3. *)
Theorem X23_fix_draft_always_answers
  (search : search_fn) (call : backend) (cfg : Config)
  (filename selection surrounding_code : string) (suggested_keywords : list string) :
  exists answer,
    fix_draft search (generate call cfg) filename selection surrounding_code
      suggested_keywords = Returned answer
    /\ draft_html answer <> ""
    /\ (draft_html answer = fallback_draft (draft_subject selection surrounding_code)
        \/ exists system_prompt user_prompt html,
             generate call cfg system_prompt user_prompt 0.2%float 1800%Z
             = Returned html
             /\ html <> "" /\ draft_html answer = strip_styles html)
    /\ (List.length (references answer) <= 3)%nat
    /\ map Scout.m_id (references answer)
       = reference_ids (List.length (references answer)).
Proof.
  unfold fix_draft, fix_draft_findings.
  destruct (ranked_findings_kept search 3 5 3
              (selection_name (strip selection))
              (risk_patterns (request_context false selection surrounding_code))
              (first_occurrences
                 (fix_draft_candidates (selection_name (strip selection))
                    (request_context false selection surrounding_code)
                    suggested_keywords) []))
    as (scored & E & Hlen & _).
  rewrite E. cbn [bind]. eexists. split; [reflexivity|].
  cbn [draft_html references].
  set (kept := map snd (firstn 3 (sort_desc scored))) in *.
  assert (Hrefs : List.length (map reference_of (enumerate_from 1 kept))
                  = List.length kept).
  { now rewrite length_map, enumerate_from_length. }
  assert (Hids : map Scout.m_id (map reference_of (enumerate_from 1 kept))
                 = reference_ids (List.length (map reference_of (enumerate_from 1 kept)))).
  { rewrite Hrefs. apply references_numbered. }
  assert (Hfb : fallback_draft (draft_subject selection surrounding_code) <> "").
  { unfold fallback_draft. cbn [append]. discriminate. }
  destruct (generate call cfg fix_system_prompt _ _ _) as [html|e] eqn:Eg.
  - destruct html as [|c html'] eqn:Eh; cbn [truthy negb].
    + fold (draft_subject selection surrounding_code).
      unfold draft_subject at 1 2. rewrite fallback_draft_kept.
      fold (draft_subject selection surrounding_code).
      split; [exact Hfb|]. split; [now left|]. split; [now rewrite Hrefs | exact Hids].
    + destruct (generate_returns _ _ _ _ _ _ _ Eg) as [_ Ht].
      split; [|split; [|split; [now rewrite Hrefs | exact Hids]]].
      * apply strip_styles_nonempty; [discriminate | now apply trimmed_starts_clean].
      * right. eexists _, _, _. split; [exact Eg|]. split; [discriminate | reflexivity].
  - cbn [truthy negb].
    fold (draft_subject selection surrounding_code).
    unfold draft_subject at 1 2. rewrite fallback_draft_kept.
    fold (draft_subject selection surrounding_code).
    split; [exact Hfb|]. split; [now left|]. split; [now rewrite Hrefs | exact Hids].
Qed.

(** X24: /pitfall reports a pitfall exactly when its search step kept a
    finding.  With none it answers at once, with an empty card, without
    reading the template or calling the AI.  With some, a template that
    cannot be read fails the request, although a built-in card exists;
    otherwise the card is never empty (the built-in card stands in when the
    AI fails or returns nothing) and at most 3 findings are shown. *)
Theorem X24_pitfall_card_never_empty
  (search : search_fn) (read_prompt : outcome string) (call : backend) (cfg : Config)
  (selection surrounding_code : string) (suggested_keywords : list string) :
  let ctx := request_context true selection surrounding_code in
  let answer := pitfall search read_prompt (generate call cfg) selection
                  surrounding_code suggested_keywords in
  exists kept,
    pitfall_findings search (selection_name (strip selection)) (risk_patterns ctx)
      (pitfall_queries selection ctx suggested_keywords) = Returned kept
    /\ match kept, read_prompt with
       | [], _ => answer = Returned (mkPitfall false ctx "" [] None)
       | _ :: _, Raised e => answer = Raised e
       | _ :: _, Returned _ =>
           exists a,
             answer = Returned a
             /\ has_pitfall a = true
             /\ card_html a <> ""
             /\ shown_findings a = firstn 3 kept
             /\ (0 < List.length (shown_findings a) <= 3)%nat
       end.
Proof.
  cbv zeta. unfold pitfall, pitfall_queries.
  destruct (pitfall_findings search _ _ _) as [kept|e] eqn:E.
  - exists kept. split; [reflexivity|]. cbn [bind].
    destruct kept as [|f kept]; [reflexivity|].
    destruct read_prompt as [system_prompt|e]; cbn [bind]; [|reflexivity].
    eexists. split; [reflexivity|]. cbn [has_pitfall card_html shown_findings].
    split; [reflexivity|]. split; [|split; [reflexivity|]].
    + destruct (generate call cfg system_prompt _ _ _) as [[|c html]|e'];
        cbn [truthy negb]; try discriminate;
        unfold _build_fallback_card; cbn [append]; discriminate.
    + change (firstn 3 (f :: kept)) with (f :: firstn 2 kept).
      pose proof (firstn_le_length 2 kept) as Hl. cbn [List.length]. lia.
  - exfalso. unfold pitfall_findings in E.
    destruct (ranked_findings_kept search 4 6 5 (selection_name (strip selection))
                (risk_patterns (request_context true selection surrounding_code))
                (unique_stripped
                   (pitfall_candidates (strip selection)
                      (selection_name (strip selection))
                      (request_context true selection surrounding_code)
                      suggested_keywords) [])) as (scored & Es & _).
    rewrite Es in E. discriminate E.
Qed.

End AnswerFacts.

(* ------------------------------------------------------------------ *)
(** ** modules/scout.py: the report as a whole *)
(* ------------------------------------------------------------------ *)

Section ReportMore.

Import Config AIProvider Analyzer Solodit Scout Report QuerySpec AnswerSpec.

Lemma count_severity_bound findings :
  forall counts,
    let total := fold_left count_severity findings counts in
    (high total + medium total + low total
     <= high counts + medium counts + low counts + List.length findings)%nat.
Proof.
  induction findings as [|f fs IH]; intros counts; cbn [fold_left List.length].
  - lia.
  - cbv zeta in IH. specialize (IH (count_severity counts f)).
    assert (H : (high (count_severity counts f) + medium (count_severity counts f)
                 + low (count_severity counts f)
                 <= S (high counts + medium counts + low counts))%nat).
    { unfold count_severity.
      destruct (String.eqb (upper (impact f)) "HIGH"); [cbn; lia|].
      destruct (String.eqb (upper (impact f)) "MEDIUM"); [cbn; lia|].
      destruct (String.eqb (upper (impact f)) "LOW"); cbn; lia. }
    cbv zeta. lia.
Qed.

Lemma matched_titles findings :
  map m_title (map matched_of (Endpoints.enumerate_from 1 findings))
  = map title findings.
Proof.
  generalize 1%nat. induction findings as [|f fs IH]; intros i; cbn;
    [reflexivity | now rewrite IH].
Qed.

Lemma matched_numbered findings :
  map m_id (map matched_of (Endpoints.enumerate_from 1 findings))
  = reference_ids (List.length findings).
Proof.
  unfold reference_ids. rewrite <- (enumerate_from_ids findings 1).
  rewrite !map_map. apply map_ext. intros [i f]. reflexivity.
Qed.

Lemma depth_page_size_bound depth : (depth_page_size depth <= 50)%nat.
Proof.
  unfold depth_page_size.
  repeat (match goal with |- context [if ?b then _ else _] => destruct b end); lia.
Qed.

(** X25: a scout report fails exactly when its one AI call fails, with the
    error of that call: no failing search fails it, and there is no
    built-in report to fall back on.  Otherwise the report holds the AI's
    answer post-processed; its findings count is the number of matched
    findings, at most the page size of the depth (5, 20 or 50); these are
    numbered F1, F2, ..., with pairwise distinct titles; the three severity
    counts add up to at most the findings count; and the contract name is
    never empty. *)
Theorem X25_report_fails_only_with_the_ai
  (search : search_fn) (call : backend) (cfg : Config)
  (personality report_template file_content docs_content depth : string) :
  let answer := generate_report search (generate call cfg) personality
                  report_template file_content docs_content depth in
  exists user_prompt,
    match generate call cfg personality user_prompt 0.5%float 8192%Z with
    | Raised e => answer = Raised e
    | Returned html =>
        exists report,
          answer = Returned report
          /\ content_html report
             = _postprocess_report_html html (matched_findings report)
          /\ findings_count report = List.length (matched_findings report)
          /\ (findings_count report <= depth_page_size depth <= 50)%nat
          /\ map m_id (matched_findings report)
             = reference_ids (findings_count report)
          /\ NoDup (map m_title (matched_findings report))
          /\ (high (severity_breakdown report) + medium (severity_breakdown report)
              + low (severity_breakdown report) <= findings_count report)%nat
          /\ contract_name report <> ""
    end.
Proof.
  cbv zeta. unfold generate_report, fetch_findings.
  set (queries := build_queries (risk_patterns (analyze file_content))
                    (function_type (analyze file_content))
                    (protocol_type (analyze file_content))
                    (ercs_detected (_parse_contract file_content))).
  set (size := py_max 3 (Z.of_nat (depth_page_size depth)
                         / py_max (Z.of_nat (List.length queries)) 1)%Z).
  destruct (fetch_loop_keeps search size (firstn 8 queries) (firstn 8 queries)
              ([], [])) as (st' & E & (_ & Hn & _) & _).
  - apply incl_refl.
  - split; [intros t; split; intros []|]. split; constructor.
  - rewrite E. cbn [bind snd].
    set (shown := firstn (depth_page_size depth) (snd st')).
    match goal with
    | |- context [bind (generate call cfg personality ?p _ _)] => exists p
    end.
    destruct (generate call cfg personality _ _ _) as [html|e]; cbn [bind];
      [|reflexivity].
    eexists. split; [reflexivity|].
    cbn [content_html matched_findings findings_count severity_breakdown
         contract_name].
    split; [reflexivity|]. split.
    { now rewrite length_map, enumerate_from_length. }
    split.
    { split; [|apply depth_page_size_bound].
      unfold shown. rewrite length_firstn. apply Nat.le_min_l. }
    split; [apply matched_numbered|]. split.
    { rewrite matched_titles. unfold shown. rewrite <- firstn_map.
      now apply nodup_firstn. }
    split.
    { pose proof (count_severity_bound shown (mkSeverity 0 0 0)) as H.
      cbv zeta in H. cbn [high medium low] in H. lia. }
    destruct (name (_parse_contract file_content)); discriminate.
Qed.

End ReportMore.

(* ------------------------------------------------------------------ *)
(** ** modules/scout.py: the parsed contract *)
(* ------------------------------------------------------------------ *)

Section ContractFacts.

Import MatchSpec AnalyzerSpec TextSpec ContractSpec Scout.

Lemma finditer_group_good r i q code :
  captures_only i q r -> must_set i r = true ->
  Forall (fun m => good q i m) (finditer r code).
Proof.
  intros Hc Hm. unfold finditer.
  eapply Forall_impl;
    [|apply (finditer_from_starts (String.length code)); apply Nat.le_refl].
  intros m (st0 & _ & _ & M). exact (good_established _ _ _ _ _ M Hc Hm).
Qed.

Lemma groups_good r i q code :
  captures_only i q r -> must_set i r = true ->
  Forall (fun t => t <> "" /\ all_chars q t)
         (map (fun m => group m i) (finditer r code)).
Proof.
  intros Hc Hm. apply Forall_map.
  exact (finditer_group_good r i q code Hc Hm).
Qed.

Lemma search_group_good r i q code m :
  captures_only i q r -> must_set i r = true ->
  search r code = Some m -> good q i m.
Proof.
  intros Hc Hm. unfold search.
  destruct (search_from r 0 None code) as [[g st]|] eqn:E; [|discriminate].
  cbn. intros H. injection H as <-.
  destruct (search_from_start _ _ _ _ _ _ E) as (st0 & _ & _ & M).
  exact (good_established _ _ _ _ _ M Hc Hm).
Qed.

Lemma name_re_captures : captures_only 1 is_word name_re /\ must_set 1 name_re = true.
Proof. split; [cbn -[is_word]; repeat split; auto | reflexivity]. Qed.

Lemma mod_re_captures : captures_only 1 is_word mod_re /\ must_set 1 mod_re = true.
Proof. split; [cbn -[is_word]; repeat split; auto | reflexivity]. Qed.

Lemma state_re_captures : captures_only 1 is_word state_re /\ must_set 1 state_re = true.
Proof. split; [cbn -[is_word]; repeat split; auto | reflexivity]. Qed.

Lemma func_re_captures : captures_only 1 is_word func_re /\ must_set 1 func_re = true.
Proof. split; [cbn -[is_word]; repeat split; auto | reflexivity]. Qed.

Lemma import_re_captures :
  captures_only 1 import_char import_re /\ must_set 1 import_re = true.
Proof. split; [cbn -[import_char]; repeat split; auto | reflexivity]. Qed.

(** X26: what _parse_contract extracts is well formed: the contract name,
    when one is found, the state variables, the modifiers and the names of
    the functions are identifiers (letters, digits, underscores, not
    empty); there are at most 30 state variables; an import path is not
    empty and holds no double quote, closing brace or semicolon; the
    parameters and modifiers of a function carry no whitespace at either
    end. *)
Theorem X26_parsed_contract_is_well_formed (code : string) :
  let info := _parse_contract code in
  (name info = "" \/ identifier (name info))
  /\ Forall identifier (state_variables info)
  /\ (List.length (state_variables info) <= 30)%nat
  /\ Forall identifier (modifiers_used info)
  /\ Forall (fun path => path <> "" /\ all_chars import_char path) (imports info)
  /\ Forall (fun f => identifier (fn_name f)
                      /\ trimmed (fn_params f) /\ trimmed (fn_modifiers f))
            (functions info).
Proof.
  cbv zeta. unfold _parse_contract.
  cbn [name state_variables modifiers_used imports functions].
  split; [|split; [|split; [|split; [|split]]]].
  - destruct (search name_re code) as [m|] eqn:E; [right | now left].
    destruct name_re_captures as [Hc Hm].
    exact (search_group_good _ _ _ _ _ Hc Hm E).
  - destruct state_re_captures as [Hc Hm].
    pose proof (groups_good state_re 1 is_word code Hc Hm) as H.
    rewrite Forall_forall in *. intros t Ht. apply H. now apply in_firstn in Ht.
  - rewrite length_firstn. apply Nat.le_min_l.
  - destruct mod_re_captures as [Hc Hm].
    exact (groups_good mod_re 1 is_word code Hc Hm).
  - destruct import_re_captures as [Hc Hm].
    exact (groups_good import_re 1 import_char code Hc Hm).
  - apply Forall_map. destruct func_re_captures as [Hc Hm].
    eapply Forall_impl; [|exact (finditer_group_good func_re 1 is_word code Hc Hm)].
    intros m Hg. cbn [fn_name fn_params fn_modifiers].
    split; [exact Hg|]. split; apply strip_trimmed.
Qed.

End ContractFacts.

(* ------------------------------------------------------------------ *)
(** ** core/smart_search.py: the keywords *)
(* ------------------------------------------------------------------ *)

Section KeywordFacts.

Import AnalyzerSpec Analyzer SmartSearch KeywordSpec.















End KeywordFacts.

(* ------------------------------------------------------------------ *)
(** ** modules/learning.py: the rewrite of the quiz indices *)
(* ------------------------------------------------------------------ *)

Section LessonFacts.

Import MatchSpec EngineSpec LessonSpec Learning Lesson.

Lemma matches_ahead_inv r st st' : matches (Ahead r) st st' -> st' = st.
Proof. intros M. inversion M; subst. reflexivity. Qed.

Lemma consumed_to_capture i x a b t : consumed a b t -> consumed a (capture i x b) t.
Proof. intros H. exact H. Qed.

(** A matched question block is its four groups, one after the other, and
    the second is a run of digits. *)
Lemma fix_match_shape st0 m :
  matches q_fix_pattern st0 m ->
  consumed st0 m (group m 1 ++ group m 2 ++ group m 3 ++ group m 4)
  /\ group m 2 <> "" /\ all_chars is_digit (group m 2).
Proof.
  unfold q_fix_pattern. cbn [seqs]. intros M.
  apply matches_seq_inv in M. destruct M as (s1 & M1 & M).
  apply matches_group_inv in M1. destruct M1 as (u1 & M1 & ->).
  apply matches_seq_inv in M. destruct M as (s2 & M2 & M).
  apply matches_group_inv in M2. destruct M2 as (u2 & M2 & ->).
  apply matches_seq_inv in M. destruct M as (s3 & M3 & M).
  apply matches_group_inv in M3. destruct M3 as (u3 & M3 & ->).
  apply matches_seq_inv in M. destruct M as (s4 & M4 & M).
  apply matches_group_inv in M4. destruct M4 as (u4 & M4 & ->).
  apply matches_ahead_inv in M. subst m.
  destruct (matches_only_chars (fun _ => true) _ _ _ M1) as (G1 & t1 & C1 & _);
    [cbn; repeat split; auto|].
  destruct (matches_only_chars is_digit _ _ _ M2) as (G2 & t2 & C2 & D2);
    [cbn -[is_digit]; repeat split; auto|].
  destruct (matches_only_chars (fun _ => true) _ _ _ M3) as (G3 & t3 & C3 & _);
    [cbn; repeat split; auto|].
  destruct (matches_only_chars (fun _ => true) _ _ _ M4) as (G4 & t4 & C4 & _);
    [cbn; repeat split; auto|].
  assert (Hg : groups (capture 4 (capture 3 (capture 2 (capture 1 st0 u1) u2) u3) u4)
               = ([(4, t4); (3, t3); (2, t2); (1, t1)] ++ groups st0)%list).
  { rewrite (capture_text 4 _ u4 t4 C4), G4.
    rewrite (capture_text 3 _ u3 t3 C3), G3.
    rewrite (capture_text 2 _ u2 t2 C2), G2.
    rewrite (capture_text 1 _ u1 t1 C1), G1. reflexivity. }
  unfold group. rewrite Hg. cbn [app lookup_group Nat.eqb].
  split; [|split; [|exact D2]].
  - apply consumed_to_capture.
    eapply consumed_trans; [exact (consumed_to_capture 1 st0 _ _ _ C1)|].
    eapply consumed_trans; [exact (consumed_to_capture 2 (capture 1 st0 u1) _ _ _ C2)|].
    eapply consumed_trans;
      [exact (consumed_to_capture 3 (capture 2 (capture 1 st0 u1) u2) _ _ _ C3)
      | exact C4].
  - destruct (matches_advances _ _ _ M2) as [_ A]. specialize (A eq_refl).
    destruct C2 as [_ P]. intros ->. cbn in P. cbn [capture pos] in A. lia.
Qed.

Lemma fix_matches html :
  Forall (fun m => exists st0, matches q_fix_pattern st0 m)
         (finditer q_fix_pattern html).
Proof.
  unfold finditer.
  eapply Forall_impl;
    [|apply (finditer_from_starts (String.length html)); apply Nat.le_refl].
  intros m (st0 & _ & _ & M). eauto.
Qed.

(** A substitution returns exactly when the replacement of every match
    does. *)
Lemma sub_from_m_returns_iff r repl fuel :
  forall p pv s,
    (exists t, sub_from_m fuel r repl p pv s = Returned t)
    <-> Forall (fun m => exists t, repl m = Returned t) (finditer_from fuel r p pv s).
Proof.
  induction fuel as [|fuel IH]; intros p pv s; cbn [sub_from_m finditer_from].
  - split; [constructor | eauto].
  - destruct (search_from r p pv s) as [[g st]|]; [|split; [constructor | eauto]].
    destruct (repl st) as [t0|e] eqn:Er; cbn [bind].
    + destruct (p + N.of_nat (String.length g) <? pos st)%N.
      * rewrite Forall_cons_iff, <- IH. split.
        -- intros (t & H). split; [eauto|].
           destruct (sub_from_m fuel r repl (pos st) (prev st) (rest st));
             [eauto | discriminate H].
        -- intros (_ & t & ->). cbn [bind]. eauto.
      * destruct (rest st) as [|c s']; cbn [bind].
        -- split; [repeat constructor; eauto | eauto].
        -- rewrite Forall_cons_iff, <- IH. split.
           ++ intros (t & H). split; [eauto|].
              destruct (sub_from_m fuel r repl (pos st + 1) (Some c) s');
                [eauto | discriminate H].
           ++ intros (_ & t & ->). cbn [bind]. eauto.
    + split; [intros (t & H); discriminate H|].
      intros H. inversion H as [|? ? (t & Ht) _]; subst. congruence.
Qed.

(** X28: post-processing the lesson HTML returns exactly when no matched
    question block has an index of more than 4300 digits.  A matched block
    is rewritten in its index only: the block is its four groups in a row,
    and what replaces it is the same text with the digits of data-correct
    replaced by the normalised index, which is never negative and is a
    position among the options of the block whenever it has options. *)
Theorem X28_quiz_rewrite_touches_only_the_index (html : string) :
  let blocks := finditer q_fix_pattern (code_fixed html) in
  ((exists out, _postprocess_lesson_html html = Returned out)
   <-> Forall (fun m => (String.length (group m 2) <= int_max_str_digits)%nat) blocks)
  /\ Forall (fun m =>
               (exists st0,
                   consumed st0 m (group m 1 ++ group m 2 ++ group m 3 ++ group m 4))
               /\ match _fix_q m with
                  | Returned text =>
                      exists idx,
                        text = group m 1 ++ str_of_int idx ++ group m 3 ++ group m 4
                        /\ (0 <= idx)%Z
                        /\ (0 < options_in (group m 4)
                            -> idx < options_in (group m 4))%Z
                  | Raised _ => (int_max_str_digits < String.length (group m 2))%nat
                  end)
            blocks.
Proof.
  cbv zeta.
  assert (Hall :
    Forall (fun m =>
              (exists st0,
                  consumed st0 m (group m 1 ++ group m 2 ++ group m 3 ++ group m 4))
              /\ match _fix_q m with
                 | Returned text =>
                     exists idx,
                       text = group m 1 ++ str_of_int idx ++ group m 3 ++ group m 4
                       /\ (0 <= idx)%Z
                       /\ (0 < options_in (group m 4)
                           -> idx < options_in (group m 4))%Z
                 | Raised _ => (int_max_str_digits < String.length (group m 2))%nat
                 end)
           (finditer q_fix_pattern (code_fixed html))).
  { eapply Forall_impl; [|apply fix_matches].
    intros m (st0 & M). destruct (fix_match_shape st0 m M) as (C & Hne & Hd).
    split; [exists st0; exact C|].
    unfold _fix_q.
    destruct (Nat.le_gt_cases (String.length (group m 2)) int_max_str_digits) as [L|L].
    - destruct (py_int_of_digits _ Hne Hd L) as [z ->]. cbn [bind].
      eexists. split; [reflexivity|]. fold (options_in (group m 4)).
      destruct (Z.le_gt_cases (options_in (group m 4)) 0) as [Hn|Hn].
      + split; [|lia]. unfold _normalize_correct_index.
        apply Z.leb_le in Hn. rewrite Hn. lia.
      + pose proof (normalize_in_range z (options_in (group m 4)) (group m 4)
                      (group m 4) ltac:(lia)) as H.
        split; [lia | intros _; lia].
    - destruct (py_int_of_long_digits _ Hd L) as [e ->]. cbn [bind]. exact L. }
  split; [|exact Hall].
  unfold _postprocess_lesson_html. fold (code_fixed html). unfold sub_m, finditer.
  rewrite sub_from_m_returns_iff. fold (finditer q_fix_pattern (code_fixed html)).
  rewrite !Forall_forall in *. split.
  - intros H m Hm. destruct (H m Hm) as (t & Ht).
    destruct (Nat.le_gt_cases (String.length (group m 2)) int_max_str_digits) as [L|L];
      [exact L|].
    exfalso. pose proof (fix_matches (code_fixed html)) as F.
    rewrite Forall_forall in F. destruct (F m Hm) as (st0 & M).
    destruct (fix_match_shape st0 m M) as (_ & _ & Hd).
    unfold _fix_q in Ht. destruct (py_int_of_long_digits _ Hd L) as [e He].
    rewrite He in Ht. discriminate Ht.
  - intros H m Hm. specialize (H m Hm). destruct (Hall m Hm) as (_ & Hf).
    destruct (_fix_q m) as [t|e]; [eauto | lia].
Qed.

(** The index of a question goes down twice on its way through
    [generate_lesson]: the answer 2 of the model is rewritten to 1, and
    parsed as 0; parsed as it came, it is 1. *)
Example lesson_index_shifts_twice :
  (exists out quiz,
      lesson_of sample_question = Returned (out, quiz)
      /\ map correct_index quiz = [0%Z])
  /\ (exists quiz,
        _parse_quiz sample_question = Returned quiz
        /\ map correct_index quiz = [1%Z]).
Proof.
  split.
  - eexists _, _. split; [vm_compute; reflexivity | reflexivity].
  - eexists. split; [vm_compute; reflexivity | reflexivity].
Qed.

End LessonFacts.
